(** * The scrape orchestration engine of [app.py], embedded in Rocq

    The development follows the layout of the source file:

    - [Py]: the few Python built-ins the program relies on ([str.split],
      [str.replace], [str.strip], [float], [int], [re.search] with the two
      patterns of the program);
    - [Business], [BusinessList] and its methods [dataframe], [save_to_csv]
      and [add_business];
    - the helpers [extract_coordinates_from_url] and [clean_business_name];
    - [scrape_businesses], the orchestrator, against a scripted page driver.

    Python strings are modelled as Rocq strings whose characters are code
    points below 256; in that range the decimal digits are ['0'..'9'] and the
    white space of [str.strip] is 9-13, 28-32, 133 and 160. *)

From Stdlib Require Import ZArith NArith Ascii String List Lia DecimalString.
From stdpp Require Import gmap strings list fin_maps.

Local Open Scope Z_scope.

(* ===================================================================== *)
(** ** Python built-ins *)
(* ===================================================================== *)

Module Py.

Abbreviation chars := (list ascii).

Definition of_string : string -> chars := list_ascii_of_string.
Definition to_string : chars -> string := string_of_list_ascii.

Definition code (c : ascii) : nat := nat_of_ascii c.

Definition eqc (a b : ascii) : bool := Ascii.eqb a b.

(** [c.isdigit()] for one character, and its value. *)
Definition is_digit (c : ascii) : bool :=
  (48 <=? code c)%nat && (code c <=? 57)%nat.

Definition digit_value (c : ascii) : N := N.of_nat (code c - 48).

(** White space as [str.strip] sees it. *)
Definition is_space (c : ascii) : bool :=
  let n := code c in
  ((9 <=? n) && (n <=? 13) || (28 <=? n) && (n <=? 32)
   || (n =? 133) || (n =? 160))%nat.

(** [s.startswith(p)] *)
Fixpoint starts_with (p s : chars) : bool :=
  match p, s with
  | [], _ => true
  | a :: p', b :: s' => eqc a b && starts_with p' s'
  | _ :: _, [] => false
  end.

(** [s.find(sep)]: index of the leftmost occurrence. *)
Fixpoint find (sep s : chars) : option nat :=
  if starts_with sep s then Some 0%nat
  else match s with
       | [] => None
       | _ :: s' => S <$> find sep s'
       end.

(** [s.split(sep)] for a non-empty separator: cut at the leftmost
    occurrence and go on after it.  Every cut removes at least one
    character, so [length s] rounds are enough. *)
Fixpoint split_rounds (n : nat) (sep s : chars) : list chars :=
  match n with
  | O => [s]
  | S n' =>
      match find sep s with
      | None => [s]
      | Some i => take i s :: split_rounds n' sep (drop (i + length sep) s)
      end
  end.

Definition split (sep s : chars) : list chars :=
  split_rounds (length s) sep s.

(** [s.replace(old, new)] for a non-empty [old]. *)
Fixpoint replace_rounds (n : nat) (old new s : chars) : chars :=
  match n with
  | O => s
  | S n' =>
      match find old s with
      | None => s
      | Some i =>
          take i s ++ new ++ replace_rounds n' old new (drop (i + length old) s)
      end
  end.

Definition replace (old new s : chars) : chars :=
  replace_rounds (length s) old new s.

(** [s.strip()] *)
Fixpoint lstrip (s : chars) : chars :=
  match s with
  | c :: s' => if is_space c then lstrip s' else s
  | [] => []
  end.

Definition rstrip (s : chars) : chars := rev (lstrip (rev s)).

Definition strip (s : chars) : chars := rstrip (lstrip s).

(** The longest prefix of digits, and what follows it. *)
Fixpoint span_digits (s : chars) : chars * chars :=
  match s with
  | c :: s' =>
      if is_digit c
      then let '(d, r) := span_digits s' in (c :: d, r)
      else ([], s)
  | [] => ([], [])
  end.

(** Value of a run of decimal digits, most significant first. *)
Definition digits_value (d : chars) : N :=
  fold_left (fun acc c => (10 * acc + digit_value c)%N) d 0%N.

(** *** Exceptions *)

Inductive exn :=
| IndexError
| ValueError
| OSError
| PlaywrightTimeoutError
| PlaywrightError.

Global Instance exn_eq_dec : EqDecision exn.
Proof. solve_decision. Defined.

(** A call either returns or raises. *)
Inductive outcome (A : Type) :=
| Ok (a : A)
| Raise (e : exn).
Global Arguments Ok {A} a.
Global Arguments Raise {A} e.

Definition bind {A B} (x : outcome A) (f : A -> outcome B) : outcome B :=
  match x with
  | Ok a => f a
  | Raise e => Raise e
  end.

(** [l[i]] for a non-negative literal index. *)
Definition index {A} (l : list A) (i : nat) : outcome A :=
  match l !! i with
  | Some x => Ok x
  | None => Raise IndexError
  end.

(** [l[-1]] *)
Definition index_last {A} (l : list A) : outcome A :=
  match last l with
  | Some x => Ok x
  | None => Raise IndexError
  end.

(** *** [float(s)]

    A Python float is kept as the decimal it was read from: [Fdec neg m e]
    stands for the double nearest to [(-1)^neg * m * 10^e], so that equal
    values of this type are equal floats. *)

Inductive pyfloat :=
| Fdec (neg : bool) (m : N) (e : Z)
| Finf (neg : bool)
| Fnan.

Global Instance pyfloat_eq_dec : EqDecision pyfloat.
Proof. solve_decision. Defined.

(** The literal [0.0]. *)
Definition float_zero : pyfloat := Fdec false 0 0.

Definition lower (c : ascii) : ascii :=
  if ((65 <=? code c) && (code c <=? 90))%nat
  then ascii_of_nat (code c + 32) else c.

(** [float] first turns white space outside ASCII into a blank. *)
Definition float_blank (c : ascii) : ascii :=
  if ((code c =? 133) || (code c =? 160))%nat then " "%char else c.

Definition is_ascii_space (c : ascii) : bool :=
  let n := code c in ((9 <=? n) && (n <=? 13) || (n =? 32))%nat.

Fixpoint lstrip_ascii (s : chars) : chars :=
  match s with
  | c :: s' => if is_ascii_space c then lstrip_ascii s' else s
  | [] => []
  end.

Definition strip_ascii (s : chars) : chars :=
  rev (lstrip_ascii (rev (lstrip_ascii s))).

(** An underscore is allowed between two digits only. *)
Fixpoint underscores_ok (prev : ascii) (s : chars) : bool :=
  match s with
  | [] => negb (eqc prev "_")
  | c :: r =>
      (if eqc c "_" then is_digit prev
       else if eqc prev "_" then is_digit c else true)
      && underscores_ok c r
  end.

Definition drop_underscores (s : chars) : option chars :=
  if underscores_ok "000" s
  then Some (List.filter (fun c => negb (eqc c "_")) s)
  else None.

Definition take_sign (s : chars) : bool * chars :=
  match s with
  | c :: r =>
      if eqc c "+" then (false, r)
      else if eqc c "-" then (true, r)
      else (false, s)
  | [] => (false, [])
  end.

(** [digits [. digits] [(e|E) [sign] digits]] with a digit before or after
    the point; the whole of [s] has to be used up. *)
Definition float_number (neg : bool) (s : chars) : option pyfloat :=
  let '(ip, s1) := span_digits s in
  let '(fp, s2) :=
    match s1 with
    | c :: r => if eqc c "." then span_digits r else ([], s1)
    | [] => ([], [])
    end in
  if bool_decide (ip ++ fp = []) then None
  else
    let m := digits_value (ip ++ fp) in
    let frac := Z.of_nat (length fp) in
    match s2 with
    | [] => Some (Fdec neg m (- frac))
    | c :: r =>
        if eqc (lower c) "e" then
          let '(eneg, r1) := take_sign r in
          let '(ed, r2) := span_digits r1 in
          if bool_decide (ed = []) || negb (bool_decide (r2 = [])) then None
          else
            let x := Z.of_N (digits_value ed) in
            Some (Fdec neg m ((if eneg then - x else x) - frac))
        else None
    end.

(** [float(s)]; [None] is [ValueError]. *)
Definition float (s : chars) : option pyfloat :=
  s1 ← drop_underscores (map float_blank s);
  let '(neg, s2) := take_sign (strip_ascii s1) in
  let l := map lower s2 in
  if bool_decide (l = of_string "inf") || bool_decide (l = of_string "infinity")
  then Some (Finf neg)
  else if bool_decide (l = of_string "nan") then Some Fnan
  else float_number neg s2.

(** *** [int(s)] on a run of decimal digits

    The conversion refuses more than 4300 digits (the default
    [sys.int_info.default_max_str_digits]). *)
Definition int_of_digits (d : chars) : outcome Z :=
  if 4300 <? Z.of_nat (length d) then Raise ValueError
  else Ok (Z.of_N (digits_value d)).

(** *** [re.search] with the two patterns of the program

    [\d+] is greedy: it takes the longest run of digits, and at least one. *)
Definition re_digits (s : chars) : option (chars * chars) :=
  match span_digits s with
  | ([], _) => None
  | (d, r) => Some (d, r)
  end.

(** [\d+\.\d+] at the start of [s].  A shorter first run cannot help: it
    would be followed by a digit, not by the point. *)
Definition re_decimal (s : chars) : option chars :=
  '(d1, r) ← re_digits s;
  match r with
  | c :: r' =>
      if eqc c "." then '(d2, _) ← re_digits r'; Some (d1 ++ "."%char :: d2)
      else None
  | [] => None
  end.

(** [(\d+\.\d+|\d+)] at the start of [s]: the first alternative that
    matches wins. *)
Definition re_number_at (s : chars) : option chars :=
  match re_decimal s with
  | Some m => Some m
  | None => fst <$> re_digits s
  end.

(** [re.search(r'(\d+\.\d+|\d+)', s)], giving [match.group(1)]. *)
Fixpoint re_search_number (s : chars) : option chars :=
  match re_number_at s with
  | Some m => Some m
  | None => match s with
            | [] => None
            | _ :: s' => re_search_number s'
            end
  end.

(** [re.search(r'(\d+)', s)], giving [match.group(1)]. *)
Fixpoint re_search_digits (s : chars) : option chars :=
  match re_digits s with
  | Some (d, _) => Some d
  | None => match s with
            | [] => None
            | _ :: s' => re_search_digits s'
            end
  end.

(** [str(n)] for an integer. *)
Definition str_of_Z (n : Z) : string :=
  match n with
  | Z0 => "0"
  | Zpos p => NilEmpty.string_of_uint (Pos.to_uint p)
  | Zneg p => String "-" (NilEmpty.string_of_uint (Pos.to_uint p))
  end.

(** [l.remove(x)]: the first element equal to [x] goes. *)
Fixpoint remove {A} `{EqDecision A} (x : A) (l : list A) : outcome (list A) :=
  match l with
  | [] => Raise ValueError
  | y :: l' =>
      if decide (x = y) then Ok l'
      else match remove x l' with
           | Ok k => Ok (y :: k)
           | Raise e => Raise e
           end
  end.

(** [random.choice(l)], the generator having drawn [i]. *)
Definition choice {A} (i : nat) (l : list A) : outcome A :=
  index l (i mod length l).

(** [x ← c; k] runs [c] and hands its value to [k]; an exception of [c]
    propagates. *)
Global Instance outcome_ret : MRet outcome := @Ok.
Global Instance outcome_bind : MBind outcome :=
  fun A B f x => bind x f.

End Py.
Import Py.

(** [float(s)] as an expression: [ValueError] when [s] is no float. *)
Definition float_of (s : chars) : outcome pyfloat :=
  match Py.float s with
  | Some f => Ok f
  | None => Raise ValueError
  end.

(** [x or d] for a string [x]. *)
Definition or_else (x d : string) : string :=
  match x with
  | EmptyString => d
  | _ => x
  end.

(** [x or d] for a string or [None]. *)
Definition or_else_opt (x : option string) (d : string) : string :=
  match x with
  | Some s => or_else s d
  | None => d
  end.

(** Truth value of a string or [None]. *)
Definition truthy (x : option string) : bool :=
  match x with
  | Some (String _ _) => true
  | _ => false
  end.

(* ===================================================================== *)
(** ** Data model *)
(* ===================================================================== *)

(** [class Business] *)
Record Business := mkBusiness {
  name : option string;
  address : string;
  website : string;
  phone_number : string;
  reviews_count : Z;
  reviews_average : pyfloat;
  latitude : option pyfloat;
  longitude : option pyfloat
}.

(** [Business()] *)
Definition new_Business : Business :=
  {| name := None;
     address := "No Address";
     website := "No Website";
     phone_number := "No Phone";
     reviews_count := 0;
     reviews_average := float_zero;
     latitude := None;
     longitude := None |}.

(** The tuple [(business.name, business.address, business.phone_number)]. *)
Abbreviation IdentityKey := (option string * string * string)%type.

Definition unique_key (business : Business) : IdentityKey :=
  (name business, address business, phone_number business).

(** [class BusinessList] *)
Record BusinessList := mkBusinessList {
  business_list : list Business;
  save_at : string;
  seen_businesses : gset IdentityKey
}.

(** [BusinessList()] *)
Definition new_BusinessList : BusinessList :=
  {| business_list := []; save_at := "output"; seen_businesses := ∅ |}.

(** [add_business]: the result and the list object after the call. *)
Definition add_business (self : BusinessList) (business : Business)
  : bool * BusinessList :=
  let unique_key := unique_key business in
  if decide (unique_key ∉ seen_businesses self) then
    (true,
     {| business_list := business_list self ++ [business];
        save_at := save_at self;
        seen_businesses := seen_businesses self ∪ {[unique_key]} |})
  else (false, self).

(** [self.business_list.clear()] *)
Definition clear (self : BusinessList) : BusinessList :=
  {| business_list := [];
     save_at := save_at self;
     seen_businesses := seen_businesses self |}.

(** A pandas table: its column labels and one row per record. *)
Record DataFrame := mkDataFrame {
  columns : list string;
  rows : list Business
}.

Definition Business_fields : list string :=
  ["name"; "address"; "website"; "phone_number"; "reviews_count";
   "reviews_average"; "latitude"; "longitude"].

(** [dataframe]: [json_normalize] takes the columns from the records it is
    given, so that no record gives no column. *)
Definition dataframe (self : BusinessList) : DataFrame :=
  {| columns := match business_list self with
                | [] => []
                | _ :: _ => Business_fields
                end;
     rows := business_list self |}.

(** *** Files *)

Inductive csv_line :=
| Header (cols : list string)
| Row (b : Business).

Inductive node :=
| Dir
| File (lines : list csv_line).

(** What [to_csv] writes for a table. *)
Definition to_csv_lines (df : DataFrame) (header : bool) : list csv_line :=
  (if header then [Header (columns df)] else []) ++ map Row (rows df).

Definition path_exists (files : gmap string node) (p : string) : bool :=
  bool_decide (is_Some (files !! p)).

(** [save_to_csv].  Paths are opaque names; the file is opened inside
    [save_at], which has to be a directory, and the path of the file must
    not be one.  This is what the code does for a [save_at] and a
    [filename] that are single names, as ["output"] and
    ["Scraped_results"] are: directories between the parts of a nested
    path are not looked at. *)
Definition save_to_csv (self : BusinessList) (filename : string)
    (append : bool) (files : gmap string node) : outcome (gmap string node) :=
  let files1 :=
    if negb (path_exists files (save_at self))
    then <[save_at self := Dir]> files else files in
  let file_path := save_at self +:+ "/" +:+ filename +:+ ".csv" in
  let header := negb (append && path_exists files1 file_path) in
  let new_lines := to_csv_lines (dataframe self) header in
  match files1 !! save_at self, files1 !! file_path with
  | Some Dir, Some (File old) =>
      Ok (<[file_path := File (if append then old ++ new_lines else new_lines)]> files1)
  | Some Dir, None => Ok (<[file_path := File new_lines]> files1)
  | _, _ => Raise OSError
  end.

(* ===================================================================== *)
(** ** Helpers *)
(* ===================================================================== *)

(** [extract_coordinates_from_url] *)
Definition extract_coordinates_from_url (url : string)
  : outcome (option pyfloat * option pyfloat) :=
  let body : outcome (option pyfloat * option pyfloat) :=
    segment ← index_last (split (of_string "/@") (of_string url));
    coordinates ← index (split (of_string "/") segment) 0;
    t0 ← index (split (of_string ",") coordinates) 0;
    lat ← float_of t0;
    t1 ← index (split (of_string ",") coordinates) 1;
    lng ← float_of t1;
    Ok (Some lat, Some lng) in
  match body with
  | Raise IndexError | Raise ValueError => Ok (None, None)
  | r => r
  end.

(** The text [" · Visited link"]; the middle dot is code point 183. *)
Definition visited_link : chars :=
  of_string " " ++ [ascii_of_nat 183] ++ of_string " Visited link".

(** [clean_business_name] *)
Definition clean_business_name (name : string) : string :=
  to_string (strip (replace visited_link [] (of_string name))).

(* ===================================================================== *)
(** ** The page driver *)
(* ===================================================================== *)

(** The browser is outside the program.  A run is checked against a
    script of what the driver answers, call by call: every call returns a
    value or raises.  The fixed waits ([wait_for_timeout]) change nothing
    in the program's variables and are left out.  The start and the end of
    the browser are the answers of a [Browser]. *)

(** Answers while one listing is handled, in the order of the calls. *)
Record ListingView := mkListingView {
  click : outcome unit;                     (* listing.click() *)
  aria_label : outcome (option string);     (* listing.get_attribute('aria-label') *)
  address_text : outcome string;            (* address block, .first.inner_text() *)
  website_text : outcome string;            (* authority block, .first.inner_text() *)
  phone_text : outcome string;              (* phone block, .first.inner_text() *)
  rating_label : outcome (option string);   (* rating, .first.get_attribute('aria-label') *)
  reviews_text : outcome string;            (* reviews button, .first.inner_text() *)
  page_url : string                         (* page.url *)
}.

(** Answers during one round of the scroll loop. *)
Record PageView := mkPageView {
  listings : outcome (list ListingView);    (* page.locator(...).all() *)
  mouse_wheel : outcome unit;               (* page.mouse.wheel(0, 5000) *)
  end_of_list_visible : outcome bool        (* locator(...).is_visible() *)
}.

(** Answers during one search: [search] is the first exception of the
    block that opens the map and submits the query, if there is one. *)
Record SearchView := mkSearchView {
  choice_index : nat;                       (* the draw of random.choice *)
  search : outcome unit;
  anchor_count : outcome Z;                 (* page.locator(...).count() *)
  pages : nat -> PageView
}.

(** The script of a run: the [j]-th search of the [c]-th category. *)
Abbreviation World := (nat -> nat -> SearchView).

(** *** The reads of Playwright

    A locator waits for its element: [inner_text] and [get_attribute]
    return once the element is there and raise [TimeoutError] when none
    has shown up within the timeout.  An element is given as [None] when
    the page has none, and else by its text, or by the value of the
    attribute asked for ([None] when it lacks the attribute). *)

Module Playwright.

Definition inner_text (element : option string) : outcome string :=
  match element with
  | Some text => Ok text
  | None => Raise PlaywrightTimeoutError
  end.

Definition get_attribute (element : option (option string))
  : outcome (option string) :=
  match element with
  | Some value => Ok value
  | None => Raise PlaywrightTimeoutError
  end.

End Playwright.

(** The detail panel that a click on a listing opens: the label of the
    listing and, for each block that the program reads, what the page has
    for it. *)
Record Panel := mkPanel {
  label : option string;
  address_block : option string;
  authority_block : option string;
  phone_block : option string;
  rating_image : option (option string);
  reviews_button : option string;
  address_bar : string
}.

(** The answers of the driver on a panel, the click having succeeded. *)
Definition view_of (panel : Panel) : ListingView :=
  {| click := Ok ();
     aria_label := Ok (label panel);
     address_text := Playwright.inner_text (address_block panel);
     website_text := Playwright.inner_text (authority_block panel);
     phone_text := Playwright.inner_text (phone_block panel);
     rating_label := Playwright.get_attribute (rating_image panel);
     reviews_text := Playwright.inner_text (reviews_button panel);
     page_url := address_bar panel |}.

(* ===================================================================== *)
(** ** What one listing gives *)
(* ===================================================================== *)

(** The rating: [business.reviews_average] after the assignment that is
    made when the label is there. *)
Definition reviews_average_of (reviews_avg : option string) : outcome pyfloat :=
  if truthy reviews_avg then
    let text := of_string (default EmptyString reviews_avg) in
    match re_search_number (replace (of_string ",") (of_string ".") text) with
    | Some m => float_of m
    | None => Ok float_zero
    end
  else Ok (reviews_average new_Business).

(** The number of reviews, likewise. *)
Definition reviews_count_of (text : string) : outcome Z :=
  if truthy (Some text) then
    match re_search_digits (replace (of_string ",") [] (of_string text)) with
    | Some m => int_of_digits m
    | None => Ok 0
    end
  else Ok (reviews_count new_Business).

(** The body of the loop over the listings, up to the record that is
    offered to [add_business]. *)
Definition extract_listing (listing : ListingView) : outcome Business :=
  _ ← click listing;
  label ← aria_label listing;
  let name := clean_business_name (or_else_opt label "Unknown") in
  a ← address_text listing;
  let address := or_else a "No Address" in
  w ← website_text listing;
  let website := or_else w "No Website" in
  p ← phone_text listing;
  let phone_number := or_else p "No Phone" in
  reviews_avg ← rating_label listing;
  reviews_average ← reviews_average_of reviews_avg;
  reviews_count ← reviews_text listing;
  reviews_count ← reviews_count_of reviews_count;
  '(latitude, longitude) ← extract_coordinates_from_url (page_url listing);
  Ok {| name := Some name;
        address := address;
        website := website;
        phone_number := phone_number;
        reviews_count := reviews_count;
        reviews_average := reviews_average;
        latitude := latitude;
        longitude := longitude |}.

(* ===================================================================== *)
(** ** The orchestrator *)
(* ===================================================================== *)

Abbreviation Location := (string * string)%type.

(** What the operator is shown: [st.write], [status_text.text] and
    [progress_bar.progress]. *)
Inductive event :=
| ScrapingFor (business_type : string)
| Searching (business_type : string) (location : Location)
| TimeoutFor (business_type : string) (location : Location)
| NoResultsFor (business_type : string) (location : Location)
| ProgressBar (progress total_listings : Z)
| Scraped (progress total_listings : Z) (name : option string).

Definition search_for (business_type : string) (location : Location) : string :=
  business_type +:+ " in " +:+ location.1 +:+ ", " +:+ location.2.

(** The text of each message. *)
Definition message (e : event) : string :=
  match e with
  | ScrapingFor ty => "Scraping for: " +:+ ty
  | Searching ty loc => "Searching: " +:+ search_for ty loc
  | TimeoutFor ty loc => "Timeout for " +:+ search_for ty loc +:+ ". Skipping..."
  | NoResultsFor ty loc =>
      "No results for " +:+ search_for ty loc +:+ ". Moving to next city."
  | ProgressBar p t => str_of_Z p +:+ "/" +:+ str_of_Z t
  | Scraped p t n =>
      "Scraped " +:+ str_of_Z p +:+ " of " +:+ str_of_Z t +:+ ": "
      +:+ default "None" n
  end.

(** The variables of [scrape_businesses] and the files on disk. *)
Record State := mkState {
  the_list : BusinessList;                  (* business_list *)
  progress : Z;
  listings_scraped : Z;
  cities_states_copy : list Location;
  shown : list event;
  files : gmap string node
}.

Definition show (e : event) (st : State) : State :=
  {| the_list := the_list st; progress := progress st;
     listings_scraped := listings_scraped st;
     cities_states_copy := cities_states_copy st;
     shown := shown st ++ [e]; files := files st |}.

Definition set_pool (pool : list Location) (st : State) : State :=
  {| the_list := the_list st; progress := progress st;
     listings_scraped := listings_scraped st;
     cities_states_copy := pool;
     shown := shown st; files := files st |}.

(** How a piece of the run ends: it returns, it raises, or it is still at
    work when the rounds allowed to the scroll loop are used up.  In each
    case the state reached is kept. *)
Inductive ending (A : Type) :=
| Returned (a : A)
| Raised (e : exn)
| Unfinished.
Arguments Returned {A} a.
Arguments Raised {A} e.
Arguments Unfinished {A}.

(** [after r k]: [k] goes on from the state that [r] returned with; a
    raise or an unfinished loop ends the whole. *)
Definition after {A} (r : ending unit * State)
    (k : State -> ending A * State) : ending A * State :=
  match r with
  | (Returned _, st) => k st
  | (Raised e, st) => (Raised e, st)
  | (Unfinished, st) => (Unfinished, st)
  end.

Section Run.

Variable num_listings : Z.
Variable total_listings : Z.
Variable cities_states : list Location.

(** Lines 146-150: the record is offered to the list, and counted when it
    is new.  The fraction given to the progress bar is kept as the pair of
    [progress] and [total_listings]. *)
Definition offer (business : Business) (st : State) : State :=
  let '(added, l) := add_business (the_list st) business in
  if added then
    let progress := progress st + 1 in
    {| the_list := l; progress := progress;
       listings_scraped := listings_scraped st + 1;
       cities_states_copy := cities_states_copy st;
       shown := shown st ++ [ProgressBar progress total_listings;
                             Scraped progress total_listings (name business)];
       files := files st |}
  else st.

(** Lines 121-150: [for listing in listings], left at once when the
    quota is met. *)
Fixpoint for_listings (ls : list ListingView) (st : State) : ending unit * State :=
  match ls with
  | [] => (Returned (), st)
  | listing :: rest =>
      if num_listings <=? listings_scraped st then (Returned (), st)
      else
        match extract_listing listing with
        | Raise e => (Raised e, st)
        | Ok business => for_listings rest (offer business st)
        end
  end.

(** Lines 119-155: the inner [while listings_scraped < num_listings],
    round [k] on: the listings in view, then the scroll and the look at the
    end-of-list text.  [fuel] bounds the number of rounds. *)
Fixpoint scroll_loop (fuel : nat) (view : nat -> PageView) (k : nat) (st : State)
  : ending unit * State :=
  if listings_scraped st <? num_listings then
    match fuel with
    | O => (Unfinished, st)
    | S fuel' =>
        match listings (view k) with
        | Raise e => (Raised e, st)
        | Ok ls =>
            after (for_listings ls st) (fun st1 =>
              match mouse_wheel (view k) with
              | Raise e => (Raised e, st1)
              | Ok _ =>
                  match end_of_list_visible (view k) with
                  | Raise e => (Raised e, st1)
                  | Ok true => (Returned (), st1)
                  | Ok false => scroll_loop fuel' view (S k) st1
                  end
              end)
        end
    end
  else (Returned (), st).

(** Lines 99-100: a location is drawn and leaves the pool. *)
Definition draw (i : nat) (pool : list Location)
  : outcome (Location * list Location) :=
  loc ← choice i pool;
  rest ← remove loc pool;
  Ok (loc, rest).

(** Lines 98-155: the outer [while], search [j] on.  Each round takes a
    location out of the pool, so [n] rounds are enough when [n] is the size
    of the pool. *)
Fixpoint search_loop (fuel n : nat) (business_type : string)
    (script : nat -> SearchView) (j : nat) (st : State) : ending unit * State :=
  if (listings_scraped st <? num_listings)
     && negb (bool_decide (cities_states_copy st = [])) then
    match n with
    | O => (Unfinished, st)
    | S n' =>
        let sv := script j in
        match draw (choice_index sv) (cities_states_copy st) with
        | Raise e => (Raised e, st)
        | Ok (loc, rest) =>
            let st1 := show (Searching business_type loc) (set_pool rest st) in
            match search sv with
            | Raise PlaywrightTimeoutError =>
                search_loop fuel n' business_type script (S j)
                  (show (TimeoutFor business_type loc) st1)
            | Raise e => (Raised e, st1)
            | Ok _ =>
                match anchor_count sv with
                | Raise e => (Raised e, st1)
                | Ok current_count =>
                    if current_count =? 0 then
                      search_loop fuel n' business_type script (S j)
                        (show (NoResultsFor business_type loc) st1)
                    else
                      after (scroll_loop fuel (pages sv) 0 st1)
                        (search_loop fuel n' business_type script (S j))
                end
            end
        end
    end
  else (Returned (), st).

(** Lines 157-159: the records of the category go to the file and leave
    the list. *)
Definition flush (st : State) : ending unit * State :=
  match business_list (the_list st) with
  | [] => (Returned (), st)
  | _ :: _ =>
      match save_to_csv (the_list st) "Scraped_results" true (files st) with
      | Raise e => (Raised e, st)
      | Ok fs =>
          (Returned (),
           {| the_list := clear (the_list st); progress := progress st;
              listings_scraped := listings_scraped st;
              cities_states_copy := cities_states_copy st;
              shown := shown st; files := fs |})
      end
  end.

(** The start of a category: lines 94-96. *)
Definition enter_category (business_type : string) (st : State) : State :=
  {| the_list := the_list st; progress := progress st;
     listings_scraped := 0;
     cities_states_copy := cities_states;
     shown := shown st ++ [ScrapingFor business_type]; files := files st |}.

(** One category: the searches, then the flush. *)
Definition category (fuel : nat) (script : nat -> SearchView)
    (business_type : string) (st : State) : ending unit * State :=
  after (search_loop fuel (length cities_states) business_type script 0
           (enter_category business_type st))
    flush.

(** Lines 93-159: [for selected_business_type in selected_business_types],
    category [c] on. *)
Fixpoint for_business_types (fuel : nat) (world : World) (c : nat)
    (types : list string) (st : State) : ending unit * State :=
  match types with
  | [] => (Returned (), st)
  | business_type :: rest =>
      after (category fuel (world c) business_type st)
        (for_business_types fuel world (S c) rest)
  end.

End Run.

(** The state in which [scrape_businesses] starts. *)
Definition initial_state (disk : gmap string node) : State :=
  {| the_list := new_BusinessList; progress := 0; listings_scraped := 0;
     cities_states_copy := []; shown := []; files := disk |}.

(** [scrape_businesses] in a browser that has started and that closes
    (lines 84-87, 93-159 and 162): how the call ends (with the table it
    returns) and the state it leaves.  [progress_bar] and [status_text]
    are the [shown] messages; [world] and [disk] are the driver's answers
    and the files found at the start. *)
Definition scrape_businesses (selected_business_types : list string)
    (num_listings : Z) (headless : bool) (cities_states : list Location)
    (world : World) (disk : gmap string node) (fuel : nat)
  : ending DataFrame * State :=
  let total_listings := Z.of_nat (length selected_business_types) * num_listings in
  after (for_business_types num_listings total_listings cities_states fuel
           world 0 selected_business_types (initial_state disk))
    (fun st => (Returned (dataframe (the_list st)), st)).

(** The start and the end of the browser, lines 89-91 and 161: what each
    call answers. *)
Record Browser := mkBrowser {
  sync_playwright : outcome unit;           (* with sync_playwright() as p *)
  launch : bool -> outcome unit;            (* p.chromium.launch(headless=headless) *)
  new_page : outcome unit;                  (* browser.new_page() *)
  close : outcome unit                      (* browser.close() *)
}.

(** Lines 89-91. *)
Definition start (browser : Browser) (headless : bool) : outcome unit :=
  _ ← sync_playwright browser;
  _ ← launch browser headless;
  new_page browser.

(** [scrape_businesses], lines 82-162, with the start and the end of the
    browser: an exception of the start leaves the function before the loop
    over the categories, and [browser.close()] is reached only when this
    loop has come to its end. *)
Definition scrape_businesses_in (browser : Browser)
    (selected_business_types : list string)
    (num_listings : Z) (headless : bool) (cities_states : list Location)
    (world : World) (disk : gmap string node) (fuel : nat)
  : ending DataFrame * State :=
  let total_listings := Z.of_nat (length selected_business_types) * num_listings in
  match start browser headless with
  | Raise e => (Raised e, initial_state disk)
  | Ok _ =>
      after (for_business_types num_listings total_listings cities_states fuel
               world 0 selected_business_types (initial_state disk))
        (fun st =>
           match close browser with
           | Raise e => (Raised e, st)
           | Ok _ => (Returned (dataframe (the_list st)), st)
           end)
  end.

(* ===================================================================== *)
(** ** Sample runs *)
(* ===================================================================== *)

Module Samples.

(** A listing all of whose reads return. *)
Definition listing_of (label addr web phone : string) : ListingView :=
  {| click := Ok ();
     aria_label := Ok (Some label);
     address_text := Ok addr;
     website_text := Ok web;
     phone_text := Ok phone;
     rating_label := Ok (Some "4,5 stars");
     reviews_text := Ok "1,234 reviews";
     page_url := "https://www.google.com/maps/place/X/@40.7128,-74.0060,15z/data=!3m1" |}.

Definition gym_a : ListingView :=
  listing_of "Iron Gym" "1 Main St" "irongym.example" "555-0100".
Definition gym_b : ListingView :=
  listing_of "Flex Gym" "2 Oak Ave" EmptyString "555-0101".

(** A listing of which only the web site and the page address can be
    read: no label, no address, no phone, no rating. *)
Definition bare_listing (web url : string) : ListingView :=
  {| click := Ok ();
     aria_label := Ok None;
     address_text := Ok EmptyString;
     website_text := Ok web;
     phone_text := Ok EmptyString;
     rating_label := Ok None;
     reviews_text := Ok EmptyString;
     page_url := url |}.

Definition iron_gym : Business :=
  {| name := Some "Iron Gym"; address := "1 Main St";
     website := "irongym.example"; phone_number := "555-0100";
     reviews_count := 1234; reviews_average := Fdec false 45 (-1);
     latitude := Some (Fdec false 407128 (-4));
     longitude := Some (Fdec true 740060 (-4)) |}.

Definition flex_gym : Business :=
  {| name := Some "Flex Gym"; address := "2 Oak Ave";
     website := "No Website"; phone_number := "555-0101";
     reviews_count := 1234; reviews_average := Fdec false 45 (-1);
     latitude := Some (Fdec false 407128 (-4));
     longitude := Some (Fdec true 740060 (-4)) |}.

Definition nameless_a : ListingView :=
  bare_listing "a.example" "https://www.google.com/maps/place/A/@1.5,2.5,15z".
Definition nameless_b : ListingView :=
  bare_listing EmptyString "https://www.google.com/maps".

Definition unknown_a : Business :=
  {| name := Some "Unknown"; address := "No Address";
     website := "a.example"; phone_number := "No Phone";
     reviews_count := 0; reviews_average := float_zero;
     latitude := Some (Fdec false 15 (-1));
     longitude := Some (Fdec false 25 (-1)) |}.

Definition unknown_b : Business :=
  {| name := Some "Unknown"; address := "No Address";
     website := "No Website"; phone_number := "No Phone";
     reviews_count := 0; reviews_average := float_zero;
     latitude := None; longitude := None |}.

(** A page that shows [ls] and does not show the end-of-list text. *)
Definition page_of (ls : list ListingView) : PageView :=
  {| listings := Ok ls; mouse_wheel := Ok (); end_of_list_visible := Ok false |}.

(** A search that succeeds and shows [ls] on every round. *)
Definition search_of (i : nat) (ls : list ListingView) : SearchView :=
  {| choice_index := i; search := Ok (); anchor_count := Ok (Z.of_nat (length ls));
     pages := fun _ => page_of ls |}.

(** A listing on which the click times out. *)
Definition stuck_listing : ListingView :=
  {| click := Raise PlaywrightTimeoutError;
     aria_label := Ok (Some "Iron Gym");
     address_text := Ok "1 Main St";
     website_text := Ok "irongym.example";
     phone_text := Ok "555-0100";
     rating_label := Ok (Some "4,5 stars");
     reviews_text := Ok "1,234 reviews";
     page_url := "https://www.google.com/maps" |}.

(** A panel without an address block; the web site and the phone are
    there. *)
Definition no_address_panel : Panel :=
  {| label := Some "Iron Gym";
     address_block := None;
     authority_block := Some "irongym.example";
     phone_block := Some "555-0100";
     rating_image := Some (Some "4,5 stars");
     reviews_button := Some "1,234 reviews";
     address_bar := "https://www.google.com/maps" |}.

Definition stuck_world : World := fun _ _ => search_of 0 [stuck_listing].

Definition no_address_world : World :=
  fun _ _ => search_of 0 [view_of no_address_panel].

(** A panel of a place without reviews: no rating image and no reviews
    button; the address, the web site and the phone are there. *)
Definition no_rating_panel : Panel :=
  {| label := Some "Iron Gym";
     address_block := Some "1 Main St";
     authority_block := Some "irongym.example";
     phone_block := Some "555-0100";
     rating_image := None;
     reviews_button := None;
     address_bar := "https://www.google.com/maps" |}.

Definition no_rating_world : World :=
  fun _ _ => search_of 0 [view_of no_rating_panel].

(** A browser that starts and closes. *)
Definition chromium : Browser :=
  {| sync_playwright := Ok (); launch := fun _ => Ok (); new_page := Ok ();
     close := Ok () |}.

(** The results panel shows the same single listing after every scroll and
    never shows the end-of-list text. *)
Definition stalled_view : nat -> PageView := fun _ => page_of [gym_a].

(** The end-of-list text shows after the second scroll. *)
Definition ending_view : nat -> PageView :=
  fun k =>
    {| listings := Ok [gym_a]; mouse_wheel := Ok ();
       end_of_list_visible := Ok (Nat.eqb k 1) |}.

(** Every search times out. *)
Definition timeout_world : World :=
  fun _ _ =>
    {| choice_index := 0; search := Raise PlaywrightTimeoutError;
       anchor_count := Ok 0; pages := fun _ => page_of [] |}.

(** Every search shows one listing, and the end of the list after the
    second scroll. *)
Definition ending_world : World :=
  fun _ _ =>
    {| choice_index := 0; search := Ok (); anchor_count := Ok 1;
       pages := ending_view |}.

Definition texas : list Location := [("Austin", "TX"); ("Dallas", "TX")].

(** The scenario of the specification: one category, a quota of two, a
    first search with three listings, one of them seen twice. *)
Definition gyms_world : World :=
  fun _ _ => search_of 1 [gym_a; gym_a; gym_b].

End Samples.

(* ===================================================================== *)
(** ** Notions used in the statements *)
(* ===================================================================== *)

(** What happens to the list object during a run: records are offered to
    it, and the list of records is emptied after each category. *)
Inductive store_call :=
| Add (business : Business)
| Clear.

(** The calls in order, with the answer of every [add_business]. *)
Fixpoint replay (calls : list store_call) (self : BusinessList)
  : list (Business * bool) * BusinessList :=
  match calls with
  | [] => ([], self)
  | Add b :: rest =>
      let '(r, self1) := add_business self b in
      let '(answers, final) := replay rest self1 in
      ((b, r) :: answers, final)
  | Clear :: rest => replay rest (clear self)
  end.

Definition offered_keys (answers : list (Business * bool)) : list IdentityKey :=
  (fun x => unique_key x.1) <$> answers.

(** The records for which [add_business] answered [True]. *)
Definition accepted (answers : list (Business * bool)) : list Business :=
  fst <$> List.filter snd answers.

(** The label, the address and the phone of the listing give nothing. *)
Definition unreadable (listing : ListingView) : Prop :=
  (aria_label listing = Ok None ∨ aria_label listing = Ok (Some EmptyString))
  ∧ address_text listing = Ok EmptyString
  ∧ phone_text listing = Ok EmptyString.

(** The key of a record whose name, address and phone are the defaults. *)
Definition defaults_key : IdentityKey :=
  (Some "Unknown", "No Address", "No Phone").

(** The path that [save_to_csv] writes to. *)
Definition csv_path (dir filename : string) : string :=
  dir +:+ "/" +:+ filename +:+ ".csv".

(** [save_to_csv(filename, append=True)] for one list object after the
    other. *)
Fixpoint save_all (selfs : list BusinessList) (filename : string)
    (disk : gmap string node) : outcome (gmap string node) :=
  match selfs with
  | [] => Ok disk
  | self :: rest =>
      match save_to_csv self filename true disk with
      | Ok disk1 => save_all rest filename disk1
      | Raise e => Raise e
      end
  end.

(** A text in which [\d] matches nowhere. *)
Definition no_digit (s : string) : Prop :=
  Forall (λ c, is_digit c = false) (of_string s).

(** The loop has come to an end within [bound] rounds. *)
Definition stops_within (num total : Z) (bound : nat)
    (view : nat → PageView) (st : State) : Prop :=
  (scroll_loop num total bound view 0 st).1 ≠ Unfinished.

(** The locations of the searches that were announced. *)
Definition searched (evs : list event) : list Location :=
  omap (λ e, match e with
             | Searching _ loc => Some loc
             | _ => None
             end) evs.

(** What holds of the state [r] in which the search loop, started in
    [st], is left: the searches announced since then and the pool that is
    left make up the pool at the start; a return means that the quota is
    met or the pool is empty; a cut means that the quota is not met. *)
Definition explored (num : Z) (st : State) (r : ending unit * State) : Prop :=
  (∃ new, shown r.2 = shown st ++ new
          ∧ searched new ++ cities_states_copy r.2 ≡ₚ cities_states_copy st)
  ∧ (∀ u, r.1 = Returned u →
          num ≤ listings_scraped r.2 ∨ cities_states_copy r.2 = [])
  ∧ (r.1 = Unfinished → listings_scraped r.2 < num).

(** The text up to the first [c]. *)
Fixpoint until (c : ascii) (s : chars) : chars :=
  match s with
  | x :: r => if eqc c x then [] else x :: until c r
  | [] => []
  end.

(** The marker that comes before the coordinates. *)
Definition slash_at : chars := of_string "/@".

(** The letters [A-Z] and [a-z]. *)
Definition is_letter (c : ascii) : bool :=
  let n := code c in
  ((65 <=? n) && (n <=? 90) || (97 <=? n) && (n <=? 122))%nat.

(** A character that is in no text that [float] accepts: no digit, no
    letter, no white space, no sign, point or underscore. *)
Definition foreign (c : ascii) : bool :=
  negb (is_digit c || is_letter c || is_ascii_space c
        || (code c =? 133)%nat || (code c =? 160)%nat
        || eqc c "+" || eqc c "-" || eqc c "." || eqc c "_").

(** What may follow the longitude: nothing, a comma or a slash. *)
Definition ends_token (tail : chars) : Prop :=
  match tail with
  | [] => True
  | c :: _ => c = ","%char ∨ c = "/"%char
  end.

(** What a scheme is made of after its first letter: letters, digits,
    [+], [-] and [.]. *)
Definition scheme_char (c : ascii) : bool :=
  is_letter c || is_digit c || eqc c "+" || eqc c "-" || eqc c ".".

(** Scheme characters up to a colon. *)
Fixpoint scheme_rest (s : chars) : bool :=
  match s with
  | c :: r => if eqc c ":" then true else scheme_char c && scheme_rest r
  | [] => false
  end.

(** An absolute address, as [page.url] gives it: it begins with a scheme,
    a letter and then scheme characters, and a colon. *)
Definition absolute_url (url : string) : bool :=
  match of_string url with
  | c :: r => is_letter c && scheme_rest r
  | [] => false
  end.

(** The file that a run writes to. *)
Definition results_path : string := csv_path "output" "Scraped_results".

(** The state of a run that found no results file: the file, when it is
    there, is the header and one row per record flushed so far; the
    records in the file and in the list have pairwise different keys, all
    of them seen. *)
Definition tidy (st : State) : Prop :=
  save_at (the_list st) = "output"
  ∧ ∃ rows,
      (files st !! results_path = None ∧ rows = []
       ∨ files st !! results_path
         = Some (File (Header Business_fields :: map Row rows)))
      ∧ NoDup (unique_key <$> (rows ++ business_list (the_list st)))
      ∧ ∀ b, b ∈ rows ++ business_list (the_list st) →
             unique_key b ∈ seen_businesses (the_list st).

(** The fractions given to the progress bar, in the order shown. *)
Definition progress_shown (evs : list event) : list (Z * Z) :=
  omap (λ e, match e with
             | ProgressBar p t => Some (p, t)
             | _ => None
             end) evs.

(** The progress bar has been given [1/total], [2/total], ... up to the
    number of records counted. *)
Definition counted (total : Z) (st : State) : Prop :=
  0 ≤ progress st
  ∧ progress_shown (shown st) = (λ k, (k, total)) <$> seqZ 1 (progress st).

(** In a run that found no results file, the records counted are the rows
    of the file and the records still in the list. *)
Definition ledger (st : State) : Prop :=
  save_at (the_list st) = "output"
  ∧ ∃ rows,
      (files st !! results_path = None ∧ rows = []
       ∨ files st !! results_path
         = Some (File (Header Business_fields :: map Row rows)))
      ∧ Z.of_nat (length rows + length (business_list (the_list st)))
        = progress st.

(** Within a category that a run entered in state [st0]: nothing is
    written, and the records counted and listed since then are the
    [listings_scraped], which stay within the quota. *)
Definition within (num : Z) (st0 st : State) : Prop :=
  files st = files st0
  ∧ 0 ≤ listings_scraped st ≤ Z.max num 0
  ∧ progress st = progress st0 + listings_scraped st
  ∧ Z.of_nat (length (business_list (the_list st)))
    = Z.of_nat (length (business_list (the_list st0))) + listings_scraped st.

(** A search that finds nothing: it times out, or no result anchor
    shows. *)
Definition barren (sv : SearchView) : Prop :=
  search sv = Raise PlaywrightTimeoutError
  ∨ search sv = Ok () ∧ anchor_count sv = Ok 0.

(** The state after the categories [types] were entered and left with
    nothing done. *)
Definition passed_through (cities_states : list Location)
    (types : list string) (st : State) : State :=
  fold_left (λ st ty, enter_category cities_states ty st) types st.

(** The result of [extract_coordinates_from_url] from the text between the
    last ["/@"] and the next ["/"]. *)
Definition coordinates_of (coordinates : chars)
  : option pyfloat * option pyfloat :=
  match split (of_string ",") coordinates with
  | t0 :: t1 :: _ =>
      match Py.float t0, Py.float t1 with
      | Some lat, Some lng => (Some lat, Some lng)
      | _, _ => (None, None)
      end
  | _ => (None, None)
  end.

(** No white space at the start and at the end. *)
Definition trimmed (s : chars) : Prop :=
  match s with
  | c :: _ => is_space c = false
  | [] => True
  end
  ∧ match last s with
    | Some c => is_space c = false
    | None => True
    end.

(** A run of digits that is not empty. *)
Definition digits (d : chars) : Prop :=
  d ≠ [] ∧ Forall (λ c, is_digit c = true) d.

(** The text does not go on with a digit. *)
Definition no_digit_next (rest : chars) : Prop :=
  match rest with
  | c :: _ => is_digit c = false
  | [] => True
  end.

(** The text goes on neither with a digit nor with a comma or a point and
    a digit. *)
Definition whole_number_next (rest : chars) : Prop :=
  match rest with
  | c :: r =>
      is_digit c = false
      ∧ (c = ","%char ∨ c = "."%char → no_digit_next r)
  | [] => True
  end.

(** Digits and commas, a digit first. *)
Definition grouped (body : chars) : Prop :=
  match body with
  | c :: _ => is_digit c = true
  | [] => False
  end
  ∧ Forall (λ c, is_digit c = true ∨ c = ","%char) body.

(** The text goes on neither with a digit nor with a comma. *)
Definition group_ends (rest : chars) : Prop :=
  match rest with
  | c :: _ => is_digit c = false ∧ c ≠ ","%char
  | [] => True
  end.

(** [s] with every [c] replaced by [new]. *)
Fixpoint substituted (c : ascii) (new s : chars) : chars :=
  match s with
  | x :: r => (if eqc c x then new else [x]) ++ substituted c new r
  | [] => []
  end.

(** A name without a slash and without a null character. *)
Definition flat_name (s : string) : Prop :=
  Forall (λ c, c ≠ "/"%char ∧ c ≠ "000"%char) (of_string s).

(** A name that is one part of a path and names a directory of its own:
    not empty, not ["."] and not [".."]. *)
Definition path_component (s : string) : Prop :=
  flat_name s ∧ s ≠ EmptyString ∧ s ≠ "." ∧ s ≠ "..".

(** The browser starts: the three calls of lines 89-91 return. *)
Definition started (browser : Browser) (headless : bool) : Prop :=
  sync_playwright browser = Ok () ∧ launch browser headless = Ok ()
  ∧ new_page browser = Ok ().

(** A call of the driver that returns. *)
Definition returns {A} (x : outcome A) : Prop := ∃ a, x = Ok a.

(** A listing on which every call of the driver returns, the text of the
    reviews button having at most 4300 characters. *)
Definition answering (listing : ListingView) : Prop :=
  returns (click listing) ∧ returns (aria_label listing)
  ∧ returns (address_text listing) ∧ returns (website_text listing)
  ∧ returns (phone_text listing) ∧ returns (rating_label listing)
  ∧ ∃ text, reviews_text listing = Ok text ∧ (String.length text ≤ 4300)%nat.

(** A round of the scroll loop in which every call returns. *)
Definition steady_page (pv : PageView) : Prop :=
  (∃ ls, listings pv = Ok ls ∧ Forall answering ls)
  ∧ returns (mouse_wheel pv) ∧ returns (end_of_list_visible pv).

(** A search that times out in the block that catches it, or all of whose
    calls return. *)
Definition steady_search (sv : SearchView) : Prop :=
  search sv = Raise PlaywrightTimeoutError
  ∨ returns (search sv) ∧ returns (anchor_count sv)
    ∧ ∀ k, steady_page (pages sv k).

(** A disk on which the results file can be written: ["output"] is a
    directory or free, and the path of the file is a file or free. *)
Definition writable (fs : gmap string node) : Prop :=
  (fs !! "output" = None ∨ fs !! "output" = Some Dir)
  ∧ (fs !! results_path = None ∨ ∃ lines, fs !! results_path = Some (File lines)).

(* ===================================================================== *)
(** ** Proof steps that come back *)
(* ===================================================================== *)

(** Unfold the sequencing of calls that may raise. *)
Ltac run_bind := unfold mbind, outcome_bind, bind.

(** Nothing was shown in between: the list of messages grew by [[]]. *)
Ltac nothing_new := exists []; by rewrite app_nil_r.

(** The loop condition on the quota is open, or closed. *)
Ltac quota_unmet :=
  replace (listings_scraped _ <? _) with true by (symmetry; by apply Z.ltb_lt).
Ltac quota_met :=
  replace (listings_scraped _ <? _) with false
    by (symmetry; apply Z.ltb_ge; lia).

(* ===================================================================== *)
(** ** The deduplication store *)
(* ===================================================================== *)

Lemma add_business_new self b :
  unique_key b ∉ seen_businesses self →
  add_business self b =
    (true, {| business_list := business_list self ++ [b];
              save_at := save_at self;
              seen_businesses := seen_businesses self ∪ {[unique_key b]} |}).
Proof. intros H. unfold add_business. by rewrite decide_True. Qed.

Lemma add_business_seen self b :
  unique_key b ∈ seen_businesses self → add_business self b = (false, self).
Proof. intros H. unfold add_business. rewrite decide_False; [done | tauto]. Qed.

Lemma add_business_answer self b :
  (add_business self b).1 = true ↔ unique_key b ∉ seen_businesses self.
Proof.
  unfold add_business. case_decide; simpl; [tauto |].
  split; [discriminate | tauto].
Qed.

Lemma add_business_seen_after self b :
  seen_businesses (add_business self b).2 = seen_businesses self ∪ {[unique_key b]}.
Proof.
  unfold add_business. case_decide as H; simpl; [done |].
  apply set_eq. intros k.
  rewrite elem_of_union, elem_of_singleton. split; [by left |].
  by intros [Hk | ->].
Qed.

(** The keys seen after a replay are those seen before and those offered. *)
Lemma replay_seen calls : ∀ self,
  seen_businesses (replay calls self).2
  = seen_businesses self ∪ list_to_set (offered_keys (replay calls self).1).
Proof.
  induction calls as [| [b |] rest IH]; intros self; simpl.
  - unfold offered_keys. simpl. by rewrite (right_id_L ∅ (∪)).
  - pose proof (add_business_seen_after self b) as Hs.
    destruct (add_business self b) as [r self1]; simpl in Hs.
    specialize (IH self1). destruct (replay rest self1) as [answers final].
    unfold offered_keys in *. simpl in *. by rewrite IH, Hs, (assoc_L (∪)).
  - apply (IH (clear self)).
Qed.

(** An answer is [True] exactly when the key is neither seen at the start
    nor offered before. *)
Lemma replay_answers calls : ∀ self i b r,
  (replay calls self).1 !! i = Some (b, r) →
  r = true ↔
    (unique_key b ∉ seen_businesses self)
    ∧ (unique_key b ∉ offered_keys (take i (replay calls self).1)).
Proof.
  induction calls as [| [b0 |] rest IH]; intros self i b r; simpl.
  - by rewrite lookup_nil.
  - pose proof (add_business_seen_after self b0) as Hs.
    pose proof (add_business_answer self b0) as Ha.
    destruct (add_business self b0) as [r0 self1]; simpl in Hs, Ha.
    specialize (IH self1). destruct (replay rest self1) as [answers final].
    simpl in *. destruct i as [| i]; simpl.
    + intros [= -> ->]. rewrite Ha. unfold offered_keys. simpl.
      pose proof (not_elem_of_nil (unique_key b)). tauto.
    + intros Hi. rewrite (IH i b r Hi), Hs. unfold offered_keys. simpl.
      rewrite not_elem_of_cons, not_elem_of_union, not_elem_of_singleton. tauto.
  - apply (IH (clear self)).
Qed.

(** No key is accepted twice, and none that was seen at the start. *)
Lemma replay_accepted_NoDup calls : ∀ self,
  NoDup (unique_key <$> accepted (replay calls self).1)
  ∧ ∀ b, b ∈ accepted (replay calls self).1 →
         unique_key b ∉ seen_businesses self.
Proof.
  induction calls as [| [b0 |] rest IH]; intros self; simpl.
  - split; [constructor | intros b Hb; by apply elem_of_nil in Hb].
  - pose proof (add_business_seen_after self b0) as Hs.
    pose proof (add_business_answer self b0) as Ha.
    destruct (add_business self b0) as [r0 self1]; simpl in Hs, Ha.
    destruct (IH self1) as [Hnd Hfresh].
    destruct (replay rest self1) as [answers final]. simpl in *.
    assert (Hlater : ∀ b, b ∈ accepted answers →
              (unique_key b ∉ seen_businesses self)
              ∧ unique_key b ≠ unique_key b0).
    { intros b Hb. apply Hfresh in Hb. rewrite Hs in Hb.
      by rewrite not_elem_of_union, not_elem_of_singleton in Hb. }
    unfold accepted in *. simpl. destruct r0; simpl.
    + split.
      * constructor; [| done]. intros Hin.
        apply list_elem_of_fmap in Hin as (b & Hk & Hb).
        apply Hlater in Hb as [_ Hne]. by apply Hne.
      * intros b Hb. apply elem_of_cons in Hb as [-> | Hb].
        -- by apply Ha.
        -- by apply Hlater in Hb as [Hb _].
    + split; [done |]. intros b Hb. by apply Hlater in Hb as [Hb _].
  - apply (IH (clear self)).
Qed.

(** C1. Whatever records are offered to the list of a run, and whenever
    the list is emptied in between: no two accepted records have the same
    [(name, address, phone_number)]; [add_business] answers [True] exactly
    for a record whose name, address and phone number together differ from
    those of every record offered before, and then appends it; a call with
    a triple that was seen answers [False] and leaves the list and the set
    of triples as they were.  The web site, the reviews and the
    coordinates play no part. *)
Theorem add_business_first_occurrence_only (calls : list store_call) :
  let answers := (replay calls new_BusinessList).1 in
  NoDup ((λ b, (name b, address b, phone_number b)) <$> accepted answers)
  ∧ (∀ i b r, answers !! i = Some (b, r) →
       (r = true ↔
        ∀ j b' r', (j < i)%nat → answers !! j = Some (b', r') →
          (name b', address b', phone_number b')
          ≠ (name b, address b, phone_number b)))
  ∧ (∀ i j b b' r r', (i < j)%nat →
       answers !! i = Some (b, r) → answers !! j = Some (b', r') →
       name b = name b' → address b = address b' →
       phone_number b = phone_number b' → r' = false)
  ∧ (∀ self b,
       (name b, address b, phone_number b) ∉ seen_businesses self →
       add_business self b =
         (true, {| business_list := business_list self ++ [b];
                   save_at := save_at self;
                   seen_businesses :=
                     seen_businesses self
                     ∪ {[ (name b, address b, phone_number b) ]} |}))
  ∧ (∀ self b,
       (name b, address b, phone_number b) ∈ seen_businesses self →
       add_business self b = (false, self)).
Proof.
  intros answers.
  split; [exact (proj1 (replay_accepted_NoDup calls new_BusinessList)) |].
  assert (Hfirst : ∀ i b r, answers !! i = Some (b, r) →
            (r = true ↔
             ∀ j b' r', (j < i)%nat → answers !! j = Some (b', r') →
               (name b', address b', phone_number b')
               ≠ (name b, address b, phone_number b))).
  { intros i b r Hi. subst answers.
    rewrite (replay_answers _ _ _ _ _ Hi). simpl.
    pose proof (not_elem_of_empty (C := gset IdentityKey) (unique_key b)) as He.
    split.
    - intros Hnew j b' r' Hj Hb' Heq.
      assert (Hin : unique_key b
                    ∈ offered_keys (take i (replay calls new_BusinessList).1)).
      { unfold offered_keys. apply list_elem_of_fmap.
        exists (b', r'). split; [by symmetry |].
        apply list_elem_of_lookup. exists j. by rewrite lookup_take_lt. }
      tauto.
    - intros Hall.
      assert (Hout : unique_key b
                     ∉ offered_keys (take i (replay calls new_BusinessList).1)).
      { unfold offered_keys. intros Hin.
        apply list_elem_of_fmap in Hin as ([b' r'] & Heq & Hin).
        apply list_elem_of_lookup in Hin as [j Hj].
        apply lookup_take_Some in Hj as [Hj Hlt].
        by apply (Hall j b' r' Hlt Hj). }
      tauto. }
  split; [exact Hfirst |]. split; [| split].
  - intros i j b b' r r' Hij Hi Hj Hn Ha Hp.
    destruct r'; [| done]. exfalso.
    apply (proj1 (Hfirst j b' true Hj) eq_refl i b r Hij Hi).
    by rewrite Hn, Ha, Hp.
  - exact add_business_new.
  - exact add_business_seen.
Qed.

(** Two gyms are offered, the list is emptied, and the first gym is
    offered again: the second gym, which differs from the first in name,
    address and phone number, is accepted, and the first gym is refused
    when it comes back. *)
Lemma add_business_first_occurrence_only_witness :
  let answers :=
    (replay [Add Samples.iron_gym; Add Samples.flex_gym; Clear;
             Add Samples.iron_gym] new_BusinessList).1 in
  (0 < 2)%nat
  ∧ answers !! 0%nat = Some (Samples.iron_gym, true)
  ∧ answers !! 1%nat = Some (Samples.flex_gym, true)
  ∧ answers !! 2%nat = Some (Samples.iron_gym, false)
  ∧ (∀ j b' r', (j < 1)%nat → answers !! j = Some (b', r') →
       (name b', address b', phone_number b')
       ≠ (Some "Flex Gym", "2 Oak Ave", "555-0101"))
  ∧ false = false.
Proof.
  intros answers.
  assert (H0 : answers !! 0%nat = Some (Samples.iron_gym, true))
    by (vm_compute; reflexivity).
  assert (H1 : answers !! 1%nat = Some (Samples.flex_gym, true))
    by (vm_compute; reflexivity).
  assert (H2 : answers !! 2%nat = Some (Samples.iron_gym, false))
    by (vm_compute; reflexivity).
  split; [lia |]. split; [exact H0 |]. split; [exact H1 |].
  split; [exact H2 |].
  destruct (add_business_first_occurrence_only
              [Add Samples.iron_gym; Add Samples.flex_gym; Clear;
               Add Samples.iron_gym]) as (_ & Hfirst & Hlater & _).
  split.
  - exact (proj1 (Hfirst 1%nat Samples.flex_gym true H1) eq_refl).
  - apply (Hlater 0%nat 2%nat Samples.iron_gym Samples.iron_gym true false);
      [lia | exact H0 | exact H2 | reflexivity | reflexivity | reflexivity].
Defined.

(** *** Records made of defaults *)

Lemma replay_seen_mono calls self k :
  k ∈ seen_businesses self → k ∈ seen_businesses (replay calls self).2.
Proof. intros H. rewrite replay_seen. apply elem_of_union. by left. Qed.

Lemma clean_business_name_Unknown : clean_business_name "Unknown" = "Unknown".
Proof. reflexivity. Qed.

(** What [extract_listing] returns, field by field. *)
Lemma extract_listing_Ok listing b :
  extract_listing listing = Ok b →
  ∃ label a w p,
    aria_label listing = Ok label ∧ address_text listing = Ok a
    ∧ website_text listing = Ok w ∧ phone_text listing = Ok p
    ∧ name b = Some (clean_business_name (or_else_opt label "Unknown"))
    ∧ address b = or_else a "No Address"
    ∧ website b = or_else w "No Website"
    ∧ phone_number b = or_else p "No Phone".
Proof.
  unfold extract_listing. run_bind.
  destruct (click listing) as [u |]; [| done].
  destruct (aria_label listing) as [label |]; [| done].
  destruct (address_text listing) as [a |]; [| done].
  destruct (website_text listing) as [w |]; [| done].
  destruct (phone_text listing) as [p |]; [| done].
  destruct (rating_label listing); [| done].
  destruct (reviews_average_of _); [| done].
  destruct (reviews_text listing); [| done].
  destruct (reviews_count_of _); [| done].
  destruct (extract_coordinates_from_url _) as [[lat lng] |]; [| done].
  intros [= <-]. exists label, a, w, p. by simpl.
Qed.

Lemma extract_listing_unreadable listing b :
  unreadable listing → extract_listing listing = Ok b →
  unique_key b = defaults_key.
Proof.
  intros (Hl & Ha & Hp) Hb.
  apply extract_listing_Ok in Hb
    as (label & a & w & p & El & Ea & _ & Ep & Hn & Had & _ & Hph).
  rewrite Ha in Ea. rewrite Hp in Ep. injection Ea as <-. injection Ep as <-.
  unfold unique_key, defaults_key. rewrite Hn, Had, Hph.
  destruct Hl as [Hl | Hl]; rewrite Hl in El; injection El as <-; reflexivity.
Qed.

(** C10. The key is taken from the fields after defaulting: two listings
    whose label, address and phone give nothing yield the key
    [("Unknown", "No Address", "No Phone")], and once the first of them has
    been offered, the second is refused by [add_business], whatever else
    differs between them and whatever happened to the list in between. *)
Theorem defaulted_records_collide (self : BusinessList)
    (calls : list store_call) (l1 l2 : ListingView) (b1 b2 : Business) :
  unreadable l1 → unreadable l2 →
  extract_listing l1 = Ok b1 → extract_listing l2 = Ok b2 →
  unique_key b1 = defaults_key
  ∧ unique_key b2 = defaults_key
  ∧ let later := (replay calls (add_business self b1).2).2 in
    add_business later b2 = (false, later).
Proof.
  intros U1 U2 E1 E2.
  pose proof (extract_listing_unreadable _ _ U1 E1) as K1.
  pose proof (extract_listing_unreadable _ _ U2 E2) as K2.
  split; [done |]. split; [done |]. intros later.
  apply add_business_seen. subst later. apply replay_seen_mono.
  rewrite add_business_seen_after, K2, <- K1.
  apply elem_of_union. right. by apply elem_of_singleton.
Qed.

(** Two nameless listings that differ in web site and page address: the
    second is refused. *)
Lemma defaulted_records_collide_witness :
  unreadable Samples.nameless_a ∧ unreadable Samples.nameless_b
  ∧ extract_listing Samples.nameless_a = Ok Samples.unknown_a
  ∧ extract_listing Samples.nameless_b = Ok Samples.unknown_b
  ∧ unique_key Samples.unknown_a = defaults_key
  ∧ unique_key Samples.unknown_b = defaults_key
  ∧ let later :=
      (replay [Clear; Add Samples.iron_gym]
         (add_business new_BusinessList Samples.unknown_a).2).2 in
    add_business later Samples.unknown_b = (false, later).
Proof.
  assert (U1 : unreadable Samples.nameless_a).
  { split; [by left |]. split; reflexivity. }
  assert (U2 : unreadable Samples.nameless_b).
  { split; [by left |]. split; reflexivity. }
  assert (E1 : extract_listing Samples.nameless_a = Ok Samples.unknown_a)
    by (vm_compute; reflexivity).
  assert (E2 : extract_listing Samples.nameless_b = Ok Samples.unknown_b)
    by (vm_compute; reflexivity).
  split; [exact U1 |]. split; [exact U2 |].
  split; [exact E1 |]. split; [exact E2 |].
  exact (defaulted_records_collide new_BusinessList
           [Clear; Add Samples.iron_gym] _ _ _ _ U1 U2 E1 E2).
Defined.

(* ===================================================================== *)
(** ** The file of results *)
(* ===================================================================== *)

Lemma append_longer (a b : string) : a +:+ b = a → b = EmptyString.
Proof.
  induction a as [| c a IH]; simpl; [done |]. intros [= H]. by apply IH.
Qed.

Lemma csv_path_ne dir filename : csv_path dir filename ≠ dir.
Proof. unfold csv_path. intros H. by apply append_longer in H. Qed.

(** One appending call: a new file gets the header and the rows, a file
    that is there gets the rows. *)
Lemma save_to_csv_append self filename disk disk' :
  save_to_csv self filename true disk = Ok disk' →
  let path := csv_path (save_at self) filename in
  (disk !! path = None
   ∧ disk' !! path =
       Some (File (Header (columns (dataframe self)) :: map Row (business_list self))))
  ∨ (∃ old, disk !! path = Some (File old)
     ∧ disk' !! path = Some (File (old ++ map Row (business_list self)))).
Proof.
  unfold save_to_csv. fold (csv_path (save_at self) filename).
  set (path := csv_path (save_at self) filename).
  set (disk1 := if negb (path_exists disk (save_at self))
                then <[save_at self:=Dir]> disk else disk).
  assert (Hsame : disk1 !! path = disk !! path).
  { subst disk1. destruct (negb _); [| done].
    apply lookup_insert_ne. intros H. symmetry in H. by apply csv_path_ne in H. }
  intros H. simpl.
  destruct (disk1 !! save_at self) as [[| ?] |]; try done.
  unfold path_exists in H. rewrite Hsame in *.
  destruct (disk !! path) as [[| old] |] eqn:Hp; try done.
  - right. exists old. split; [done |]. injection H as <-.
    rewrite lookup_insert_eq. unfold to_csv_lines. by simpl.
  - left. split; [done |]. injection H as <-.
    rewrite lookup_insert_eq. unfold to_csv_lines. by simpl.
Qed.

(** Appending to a file that is there never writes a header. *)
Lemma save_all_existing dir filename selfs : ∀ disk disk' old,
  Forall (λ self, save_at self = dir) selfs →
  disk !! csv_path dir filename = Some (File old) →
  save_all selfs filename disk = Ok disk' →
  disk' !! csv_path dir filename
  = Some (File (old ++ map Row (concat (business_list <$> selfs)))).
Proof.
  induction selfs as [| self rest IH]; intros disk disk' old Hdir Hold; simpl.
  - intros [= <-]. by rewrite app_nil_r.
  - apply Forall_cons in Hdir as [Hself Hrest].
    destruct (save_to_csv self filename true disk) as [disk1 |] eqn:Hsave;
      [| done].
    apply save_to_csv_append in Hsave. rewrite Hself in Hsave. simpl in Hsave.
    destruct Hsave as [[Hnone _] | (old' & Hold' & Hnew)]; [congruence |].
    rewrite Hold in Hold'. injection Hold' as <-.
    intros Hall. rewrite (IH _ _ _ Hrest Hnew Hall).
    by rewrite map_app, app_assoc.
Qed.

(** C9. Whatever sequence of [save_to_csv(filename, append=True)] calls is
    made on one destination: when the file is not there, the first call
    creates it with the header row, and all that follows in the file are
    rows; when the file is there, only rows are added.  The header row is
    written once, by the write that creates the file. *)
Theorem header_written_once (dir filename : string)
    (selfs : list BusinessList) (disk disk' : gmap string node) :
  Forall (λ self, save_at self = dir) selfs →
  save_all selfs filename disk = Ok disk' →
  let path := csv_path dir filename in
  let records := concat (business_list <$> selfs) in
  match selfs, disk !! path with
  | [], _ => disk' = disk
  | first :: _, None =>
      disk' !! path =
        Some (File (Header (columns (dataframe first)) :: map Row records))
  | _ :: _, Some (File old) => disk' !! path = Some (File (old ++ map Row records))
  | _ :: _, Some Dir => False
  end.
Proof.
  intros Hdir Hall path records. subst path records.
  destruct selfs as [| self rest]; simpl in Hall; [by injection Hall |].
  apply Forall_cons in Hdir as [Hself Hrest].
  destruct (save_to_csv self filename true disk) as [disk1 |] eqn:Hsave;
    [| done].
  apply save_to_csv_append in Hsave. rewrite Hself in Hsave. simpl in Hsave.
  destruct Hsave as [[Hnone Hnew] | (old & Hold & Hnew)].
  - rewrite Hnone.
    rewrite (save_all_existing dir filename rest _ _ _ Hrest Hnew Hall).
    simpl. by rewrite map_app.
  - rewrite Hold.
    rewrite (save_all_existing dir filename rest _ _ _ Hrest Hnew Hall).
    simpl. by rewrite map_app, app_assoc.
Qed.

(** Two flushes into a directory that is not there yet: one header, two
    rows. *)
Lemma header_written_once_witness :
  let a := {| business_list := [Samples.iron_gym]; save_at := "output";
              seen_businesses := ∅ |} in
  let b := {| business_list := [Samples.flex_gym]; save_at := "output";
              seen_businesses := ∅ |} in
  let disk' : gmap string node :=
    <[csv_path "output" "Scraped_results" :=
        File [Header Business_fields; Row Samples.iron_gym; Row Samples.flex_gym]]>
      (<["output" := Dir]> ∅) in
  Forall (λ self, save_at self = "output") [a; b]
  ∧ save_all [a; b] "Scraped_results" ∅ = Ok disk'
  ∧ disk' !! csv_path "output" "Scraped_results"
    = Some (File [Header Business_fields; Row Samples.iron_gym;
                  Row Samples.flex_gym]).
Proof.
  intros a b disk'.
  assert (Hdir : Forall (λ self, save_at self = "output") [a; b])
    by (repeat constructor).
  assert (Hall : save_all [a; b] "Scraped_results" ∅ = Ok disk')
    by (vm_compute; reflexivity).
  split; [exact Hdir |]. split; [exact Hall |].
  exact (header_written_once "output" "Scraped_results" [a; b] ∅ disk' Hdir Hall).
Defined.

(* ===================================================================== *)
(** ** Reviews *)
(* ===================================================================== *)

Lemma span_digits_none s :
  Forall (λ c, is_digit c = false) s → span_digits s = ([], s).
Proof. intros H. destruct H as [| c s Hc Hs]; simpl; [done |]. by rewrite Hc. Qed.

Lemma re_search_number_none s :
  Forall (λ c, is_digit c = false) s → re_search_number s = None.
Proof.
  induction 1 as [| c s Hc Hs IH]; [done |].
  simpl. unfold re_number_at, re_decimal, re_digits. simpl. by rewrite Hc.
Qed.

Lemma re_search_digits_none s :
  Forall (λ c, is_digit c = false) s → re_search_digits s = None.
Proof.
  induction 1 as [| c s Hc Hs IH]; [done |].
  simpl. unfold re_digits. simpl. by rewrite Hc.
Qed.

(** [replace] keeps a property that holds of the text and of what is put
    in. *)
Lemma replace_rounds_Forall (P : ascii → Prop) old new n : ∀ s,
  Forall P new → Forall P s → Forall P (replace_rounds n old new s).
Proof.
  induction n as [| n IH]; intros s Hnew Hs; simpl; [done |].
  destruct (find old s) as [i |]; [| done].
  apply Forall_app. split; [by apply Forall_take |].
  apply Forall_app. split; [done |]. apply IH; [done |]. by apply Forall_drop.
Qed.

Lemma replace_Forall (P : ascii → Prop) old new s :
  Forall P new → Forall P s → Forall P (replace old new s).
Proof. apply replace_rounds_Forall. Qed.

(** All the fields that [extract_listing] fills in from the reads. *)
Lemma extract_listing_reviews listing b :
  extract_listing listing = Ok b →
  ∃ label text,
    rating_label listing = Ok label ∧ reviews_text listing = Ok text
    ∧ reviews_average_of label = Ok (reviews_average b)
    ∧ reviews_count_of text = Ok (reviews_count b).
Proof.
  unfold extract_listing. run_bind.
  destruct (click listing) as [u |]; [| done].
  destruct (aria_label listing) as [l |]; [| done].
  destruct (address_text listing) as [a |]; [| done].
  destruct (website_text listing) as [w |]; [| done].
  destruct (phone_text listing) as [p |]; [| done].
  destruct (rating_label listing) as [label |]; [| done].
  destruct (reviews_average_of label) as [avg |] eqn:Havg; [| done].
  destruct (reviews_text listing) as [text |]; [| done].
  destruct (reviews_count_of text) as [cnt |] eqn:Hcnt; [| done].
  destruct (extract_coordinates_from_url _) as [[lat lng] |]; [| done].
  intros [= <-]. exists label, text. by simpl.
Qed.

(* ===================================================================== *)
(** ** The table that is returned *)
(* ===================================================================== *)

Lemma flush_empties st u st' :
  flush st = (Returned u, st') → business_list (the_list st') = [].
Proof.
  unfold flush. destruct (business_list (the_list st)) eqn:Hl.
  - by intros [= _ <-].
  - destruct (save_to_csv _ _ _ _); [| done]. by intros [= _ <-].
Qed.

Lemma category_empties num total cs fuel script ty st u st' :
  category num total cs fuel script ty st = (Returned u, st') →
  business_list (the_list st') = [].
Proof.
  unfold category, after.
  destruct (search_loop _ _ _ _ _ _ _ _) as [[v | e |] st1].
  - apply flush_empties.
  - done.
  - done.
Qed.

Lemma for_business_types_empties num total cs fuel world types :
  ∀ c st u st',
  business_list (the_list st) = [] →
  for_business_types num total cs fuel world c types st = (Returned u, st') →
  business_list (the_list st') = [].
Proof.
  induction types as [| ty rest IH]; intros c st u st' Hst; simpl.
  - by intros [= _ <-].
  - unfold after.
    destruct (category _ _ _ _ _ _ _) as [[v | e |] st1] eqn:Hc; [| done | done].
    apply IH. by apply category_empties in Hc.
Qed.

(** C5 on the code. Whenever [scrape_businesses] returns, the table it
    returns has no row and no column: the list of records is emptied after
    every category, before the table is made from it.  The accepted
    records are in the file only. *)
Theorem scrape_businesses_returns_empty_table
    (selected_business_types : list string) (num_listings : Z)
    (headless : bool) (cities_states : list Location) (world : World)
    (disk : gmap string node) (fuel : nat) (df : DataFrame) (st : State) :
  scrape_businesses selected_business_types num_listings headless
    cities_states world disk fuel = (Returned df, st) →
  df = {| columns := []; rows := [] |}.
Proof.
  unfold scrape_businesses, after.
  destruct (for_business_types _ _ _ _ _ _ _ _) as [[u | e |] st1] eqn:Hrun;
    [| done | done].
  intros [= <- <-].
  apply for_business_types_empties in Hrun; [| done].
  unfold dataframe. by rewrite Hrun.
Qed.

(** The run of the specification: two records reach the file, none the
    table. *)
Lemma scrape_businesses_returns_empty_table_witness :
  ∃ st,
    scrape_businesses ["Gyms"] 2 true Samples.texas Samples.gyms_world ∅ 5
    = (Returned {| columns := []; rows := [] |}, st)
    ∧ files st !! csv_path "output" "Scraped_results"
      = Some (File [Header Business_fields; Row Samples.iron_gym;
                    Row Samples.flex_gym]).
Proof.
  destruct (scrape_businesses ["Gyms"] 2 true Samples.texas Samples.gyms_world ∅ 5)
    as [[df | e |] st] eqn:Hrun.
  - exists st.
    pose proof (scrape_businesses_returns_empty_table _ _ _ _ _ _ _ _ _ Hrun) as ->.
    split; [reflexivity |].
    assert (Hst : st = (scrape_businesses ["Gyms"] 2 true Samples.texas
                          Samples.gyms_world ∅ 5).2) by (by rewrite Hrun).
    rewrite Hst. vm_compute. reflexivity.
  - exfalso. vm_compute in Hrun. discriminate Hrun.
  - exfalso. vm_compute in Hrun. discriminate Hrun.
Defined.

(* ===================================================================== *)
(** ** Drawing locations *)
(* ===================================================================== *)

Lemma remove_elem (x : Location) (l : list Location) :
  x ∈ l → ∃ k, remove x l = Ok k ∧ l ≡ₚ x :: k.
Proof.
  induction l as [| y l IH]; intros Hx; [by apply elem_of_nil in Hx |].
  simpl. destruct (decide (x = y)) as [-> | Hne].
  - by exists l.
  - apply elem_of_cons in Hx as [-> | Hx]; [done |].
    destruct (IH Hx) as (k & -> & Hp). exists (y :: k). split; [done |].
    rewrite Hp. apply Permutation_swap.
Qed.

Lemma choice_elem (i : nat) (l : list Location) :
  l ≠ [] → ∃ x, choice i l = Ok x ∧ x ∈ l.
Proof.
  intros Hl. unfold choice, index.
  assert (Hlt : (i mod length l < length l)%nat).
  { apply Nat.mod_upper_bound. destruct l; [done | simpl; lia]. }
  destruct (lookup_lt_is_Some_2 l _ Hlt) as [x Hx]. rewrite Hx.
  exists x. split; [done |]. by eapply list_elem_of_lookup_2.
Qed.

(** Drawing from a pool that is not empty never fails, and takes one
    entry out of the pool. *)
Lemma draw_Ok (i : nat) (pool : list Location) :
  pool ≠ [] → ∃ loc rest, draw i pool = Ok (loc, rest) ∧ pool ≡ₚ loc :: rest.
Proof.
  intros Hp. destruct (choice_elem i pool Hp) as (loc & Hc & Hin).
  destruct (remove_elem loc pool Hin) as (rest & Hr & Hperm).
  exists loc, rest. split; [| done].
  unfold draw. run_bind. by rewrite Hc, Hr.
Qed.

Lemma draw_inv (i : nat) (pool : list Location) loc rest :
  draw i pool = Ok (loc, rest) → pool ≡ₚ loc :: rest.
Proof.
  intros Hd. destruct pool as [| l0 pool]; [done |].
  destruct (draw_Ok i (l0 :: pool)) as (loc' & rest' & Hd' & Hp); [done |].
  rewrite Hd in Hd'. by injection Hd' as -> ->.
Qed.

(* ===================================================================== *)
(** ** Timeouts while listings are harvested *)
(* ===================================================================== *)

Lemma extract_listing_click_raises listing e :
  click listing = Raise e → extract_listing listing = Raise e.
Proof. intros H. unfold extract_listing. by rewrite H. Qed.

Lemma for_listings_raises num total listing more st e :
  listings_scraped st < num → extract_listing listing = Raise e →
  for_listings num total (listing :: more) st = (Raised e, st).
Proof.
  intros Hq He. cbn [for_listings].
  replace (num <=? listings_scraped st) with false
    by (symmetry; apply Z.leb_gt; lia).
  by rewrite He.
Qed.

(** A round of the scroll loop, as long as the quota is not met. *)
Lemma scroll_loop_round num total fuel view k st ls :
  listings_scraped st < num → listings (view k) = Ok ls →
  scroll_loop num total (S fuel) view k st
  = after (for_listings num total ls st) (fun st1 =>
      match mouse_wheel (view k) with
      | Raise e => (Raised e, st1)
      | Ok _ =>
          match end_of_list_visible (view k) with
          | Raise e => (Raised e, st1)
          | Ok true => (Returned (), st1)
          | Ok false => scroll_loop num total fuel view (S k) st1
          end
      end).
Proof.
  intros Hq Hls. cbn [scroll_loop].
  quota_unmet.
  by rewrite Hls.
Qed.

(** A round of the search loop that gets as far as the listings. *)
Lemma search_loop_round num total fuel n ty script j st loc rest count :
  listings_scraped st < num →
  draw (choice_index (script j)) (cities_states_copy st) = Ok (loc, rest) →
  search (script j) = Ok () → anchor_count (script j) = Ok count →
  count ≠ 0 →
  search_loop num total fuel (S n) ty script j st
  = after (scroll_loop num total fuel (pages (script j)) 0
             (show (Searching ty loc) (set_pool rest st)))
      (search_loop num total fuel n ty script (S j)).
Proof.
  intros Hq Hdraw Hsearch Hcount Hne. cbn [search_loop].
  quota_unmet.
  assert (Hpool : cities_states_copy st ≠ []).
  { intros Hnil. rewrite Hnil in Hdraw. discriminate Hdraw. }
  rewrite bool_decide_false by done. cbn [negb andb].
  rewrite Hdraw, Hsearch, Hcount.
  by replace (count =? 0) with false by (symmetry; by apply Z.eqb_neq).
Qed.

(** C4 on the code. A timeout of the click on a listing is caught
    nowhere: it ends [scrape_businesses] in the first category, with
    nothing written and the other categories never started. *)
Theorem harvest_timeout_aborts_run (business_type : string)
    (others : list string) (num_listings : Z) (headless : bool)
    (cities_states : list Location) (world : World)
    (disk : gmap string node) (fuel : nat)
    (listing : ListingView) (more : list ListingView) (count : Z) :
  0 < num_listings → cities_states ≠ [] →
  search (world 0%nat 0%nat) = Ok () →
  anchor_count (world 0%nat 0%nat) = Ok count → count ≠ 0 →
  listings (pages (world 0%nat 0%nat) 0%nat) = Ok (listing :: more) →
  click listing = Raise PlaywrightTimeoutError →
  let run := scrape_businesses (business_type :: others) num_listings
               headless cities_states world disk (S fuel) in
  run.1 = Raised PlaywrightTimeoutError
  ∧ files run.2 = disk
  ∧ ∃ loc, shown run.2 = [ScrapingFor business_type; Searching business_type loc].
Proof.
  intros Hnum Hcs Hsearch Hcount Hne Hls Hclick run. subst run.
  unfold scrape_businesses. cbn [for_business_types]. unfold category.
  destruct (draw_Ok (choice_index (world 0%nat 0%nat)) cities_states Hcs)
    as (loc & rest & Hdraw & _).
  destruct cities_states as [| l0 cs]; [done |]. cbn [length].
  rewrite (search_loop_round _ _ _ _ _ _ _ _ loc rest count);
    [| done | done | done | done | done].
  rewrite (scroll_loop_round _ _ _ _ _ _ (listing :: more)); [| done | done].
  rewrite (for_listings_raises _ _ _ _ _ PlaywrightTimeoutError);
    [| done | by apply extract_listing_click_raises].
  cbn [after fst snd].
  split; [done |]. split; [done |]. by exists loc.
Qed.

(** Two categories, and a click that times out in the first. *)
Lemma harvest_timeout_aborts_run_witness :
  let run := scrape_businesses ["Gyms"; "Salons"] 2 true Samples.texas
               Samples.stuck_world ∅ 1 in
  0 < 2 ∧ Samples.texas ≠ []
  ∧ search (Samples.stuck_world 0%nat 0%nat) = Ok ()
  ∧ anchor_count (Samples.stuck_world 0%nat 0%nat) = Ok 1
  ∧ 1 ≠ 0
  ∧ listings (pages (Samples.stuck_world 0%nat 0%nat) 0%nat)
    = Ok [Samples.stuck_listing]
  ∧ click Samples.stuck_listing = Raise PlaywrightTimeoutError
  ∧ run.1 = Raised PlaywrightTimeoutError
  ∧ files run.2 = ∅
  ∧ ∃ loc, shown run.2 = [ScrapingFor "Gyms"; Searching "Gyms" loc].
Proof.
  intros run.
  assert (H1 : 0 < 2) by lia.
  assert (H2 : Samples.texas ≠ []) by discriminate.
  assert (H3 : (1 : Z) ≠ 0) by lia.
  split; [exact H1 |]. split; [exact H2 |]. split; [reflexivity |].
  split; [reflexivity |]. split; [exact H3 |]. split; [reflexivity |].
  split; [reflexivity |].
  exact (harvest_timeout_aborts_run "Gyms" ["Salons"] 2 true Samples.texas
           Samples.stuck_world ∅ 0 Samples.stuck_listing [] 1
           H1 H2 eq_refl eq_refl H3 eq_refl eq_refl).
Defined.

(** The sibling path: a timeout while the search is opened is caught, a
    message is shown and the loop goes on with the next location. *)
Lemma search_timeout_is_skipped num total fuel n ty script j st loc rest :
  listings_scraped st < num →
  draw (choice_index (script j)) (cities_states_copy st) = Ok (loc, rest) →
  search (script j) = Raise PlaywrightTimeoutError →
  search_loop num total fuel (S n) ty script j st
  = search_loop num total fuel n ty script (S j)
      (show (TimeoutFor ty loc) (show (Searching ty loc) (set_pool rest st))).
Proof.
  intros Hq Hdraw Hsearch. cbn [search_loop].
  quota_unmet.
  assert (Hpool : cities_states_copy st ≠ []).
  { intros Hnil. rewrite Hnil in Hdraw. discriminate Hdraw. }
  rewrite bool_decide_false by done. cbn [negb andb].
  by rewrite Hdraw, Hsearch.
Qed.

(* ===================================================================== *)
(** ** Fields that cannot be read *)
(* ===================================================================== *)

(** A read that raises ends the extraction of the listing. *)
Lemma read_raise_propagates (listing : ListingView) (e : exn)
    (label : option string) (a w : string) :
  click listing = Ok () → aria_label listing = Ok label →
  (address_text listing = Raise e → extract_listing listing = Raise e)
  ∧ (address_text listing = Ok a → website_text listing = Raise e →
     extract_listing listing = Raise e)
  ∧ (address_text listing = Ok a → website_text listing = Ok w →
     phone_text listing = Raise e → extract_listing listing = Raise e).
Proof.
  intros Hc Hl. unfold extract_listing. rewrite Hc, Hl.
  run_bind. split; [| split].
  - by intros ->.
  - by intros -> ->.
  - by intros -> -> ->.
Qed.

(** C2 on the code. When the address block, the web site block or the
    phone block is not in the panel, the extraction of the listing raises
    [TimeoutError]: no default is taken and the fields that come after are
    not read.  The defaults are taken only for blocks that are there with
    an empty text. *)
Theorem absent_block_raises (panel : Panel) :
  (address_block panel = None →
   extract_listing (view_of panel) = Raise PlaywrightTimeoutError)
  ∧ (is_Some (address_block panel) → authority_block panel = None →
     extract_listing (view_of panel) = Raise PlaywrightTimeoutError)
  ∧ (is_Some (address_block panel) → is_Some (authority_block panel) →
     phone_block panel = None →
     extract_listing (view_of panel) = Raise PlaywrightTimeoutError)
  ∧ (∀ b, extract_listing (view_of panel) = Ok b →
       ∃ a w p,
         address_block panel = Some a ∧ authority_block panel = Some w
         ∧ phone_block panel = Some p
         ∧ address b = or_else a "No Address"
         ∧ website b = or_else w "No Website"
         ∧ phone_number b = or_else p "No Phone").
Proof.
  destruct (read_raise_propagates (view_of panel) PlaywrightTimeoutError
              (label panel) (default EmptyString (address_block panel))
              (default EmptyString (authority_block panel)) eq_refl eq_refl)
    as (Ha & Hw & Hp).
  split; [| split; [| split]].
  - intros Hnone. apply Ha. cbn. by rewrite Hnone.
  - intros [a Hsome] Hnone. apply Hw; cbn; by rewrite ?Hsome, ?Hnone.
  - intros [a Hsa] [w Hsw] Hnone. apply Hp; cbn; by rewrite ?Hsa, ?Hsw, ?Hnone.
  - intros b Hb. apply extract_listing_Ok in Hb
      as (l & a & w & p & _ & Ea & Ew & Ep & _ & Hba & Hbw & Hbp).
    cbn in Ea, Ew, Ep.
    destruct (address_block panel) as [a' |]; [| done].
    destruct (authority_block panel) as [w' |]; [| done].
    destruct (phone_block panel) as [p' |]; [| done].
    injection Ea as ->. injection Ew as ->. injection Ep as ->.
    by exists a, w, p.
Qed.

(** A panel without an address block, with web site and phone. *)
Lemma absent_block_raises_witness :
  address_block Samples.no_address_panel = None
  ∧ authority_block Samples.no_address_panel = Some "irongym.example"
  ∧ phone_block Samples.no_address_panel = Some "555-0100"
  ∧ extract_listing (view_of Samples.no_address_panel)
    = Raise PlaywrightTimeoutError.
Proof.
  repeat (split; [reflexivity |]).
  exact (proj1 (absent_block_raises Samples.no_address_panel) eq_refl).
Defined.

(** The whole run ends there. *)
Lemma missing_address_aborts_run :
  (scrape_businesses ["Gyms"; "Salons"] 2 true Samples.texas
     Samples.no_address_world ∅ 1).1 = Raised PlaywrightTimeoutError.
Proof. vm_compute. reflexivity. Qed.

(** What does hold: a read that returns an empty text gives the default,
    each field on its own. *)
Lemma empty_field_defaults listing b :
  extract_listing listing = Ok b →
  (address_text listing = Ok EmptyString → address b = "No Address")
  ∧ (website_text listing = Ok EmptyString → website b = "No Website")
  ∧ (phone_text listing = Ok EmptyString → phone_number b = "No Phone").
Proof.
  intros Hb. apply extract_listing_Ok in Hb
    as (label & a & w & p & _ & Ea & Ew & Ep & _ & Ha & Hw & Hp).
  rewrite Ea, Ew, Ep, Ha, Hw, Hp.
  repeat split; by intros [= ->].
Qed.

(* ===================================================================== *)
(** ** The scroll loop *)
(* ===================================================================== *)

Lemma for_listings_finishes num total ls : ∀ st,
  (for_listings num total ls st).1 ≠ Unfinished.
Proof.
  induction ls as [| listing rest IH]; intros st; simpl; [done |].
  destruct (num <=? listings_scraped st); [done |].
  destruct (extract_listing listing); [apply IH | done].
Qed.

Lemma extract_gym_a : extract_listing Samples.gym_a = Ok Samples.iron_gym.
Proof. vm_compute. reflexivity. Qed.

Lemma offer_seen total b st :
  unique_key b ∈ seen_businesses (the_list st) → offer total b st = st.
Proof. intros H. unfold offer. by rewrite add_business_seen. Qed.

(** Once the one listing of the stalled panel is in the list, a round
    changes nothing, and the loop keeps going. *)
Lemma stalled_keeps_running fuel : ∀ k st,
  listings_scraped st = 1 →
  unique_key Samples.iron_gym ∈ seen_businesses (the_list st) →
  (scroll_loop 2 2 fuel Samples.stalled_view k st).1 = Unfinished.
Proof.
  induction fuel as [| fuel IH]; intros k st Hq Hseen.
  - cbn [scroll_loop]. by rewrite Hq.
  - rewrite (scroll_loop_round _ _ _ _ _ _ [Samples.gym_a]);
      [| lia | reflexivity].
    cbn [for_listings]. rewrite Hq. cbn [Z.leb Z.compare Pos.compare Pos.compare_cont].
    rewrite extract_gym_a, (offer_seen _ _ _ Hseen).
    cbn [after].
    cbn [Samples.stalled_view Samples.page_of mouse_wheel end_of_list_visible].
    by apply IH.
Qed.

(** C3 as stated fails: with a quota of two and a panel that shows the
    same single listing after every scroll, without the end-of-list text,
    the listing count stays the same from the first scroll on and the loop
    is still running after any number of rounds. *)
Lemma stalled_panel_never_stops :
  ¬ ∃ bound, stops_within 2 2 bound Samples.stalled_view (initial_state ∅).
Proof.
  intros [bound Hstop]. apply Hstop. clear Hstop.
  destruct bound as [| fuel]; [reflexivity |].
  rewrite (scroll_loop_round _ _ _ _ _ _ [Samples.gym_a]);
    [| by cbn | reflexivity].
  cbn [for_listings initial_state listings_scraped].
  cbn [Z.leb Z.compare]. rewrite extract_gym_a.
  unfold offer. rewrite add_business_new by (cbn; apply not_elem_of_empty).
  cbn [the_list progress listings_scraped Z.add Z.leb Z.compare Pos.compare
       Pos.compare_cont after].
  cbn [Samples.stalled_view Samples.page_of mouse_wheel end_of_list_visible].
  apply stalled_keeps_running; [reflexivity |].
  cbn. apply elem_of_union. right. by apply elem_of_singleton.
Qed.

Lemma scroll_loop_quota_met num total fuel view k st :
  num ≤ listings_scraped st →
  scroll_loop num total fuel view k st = (Returned (), st).
Proof.
  intros Hq. destruct fuel; cbn [scroll_loop];
    by quota_met.
Qed.

Lemma scroll_loop_stops num total view n : ∀ k st,
  end_of_list_visible (view (k + n)%nat) = Ok true →
  (scroll_loop num total (S n) view k st).1 ≠ Unfinished.
Proof.
  induction n as [| n IH]; intros k st Hend.
  - destruct (Z.lt_ge_cases (listings_scraped st) num) as [Hq | Hq];
      [| by rewrite scroll_loop_quota_met].
    destruct (listings (view k)) as [ls | e] eqn:Hls.
    + rewrite (scroll_loop_round _ _ _ _ _ _ ls) by done.
      pose proof (for_listings_finishes num total ls st) as Hfin.
      destruct (for_listings num total ls st) as [[u | e |] st1];
        [| done | done].
      cbn [after]. rewrite Nat.add_0_r in Hend. rewrite Hend.
      by destruct (mouse_wheel (view k)).
    + cbn [scroll_loop].
      quota_unmet.
      by rewrite Hls.
  - destruct (Z.lt_ge_cases (listings_scraped st) num) as [Hq | Hq];
      [| by rewrite scroll_loop_quota_met].
    destruct (listings (view k)) as [ls | e] eqn:Hls.
    + rewrite (scroll_loop_round _ _ _ _ _ _ ls) by done.
      pose proof (for_listings_finishes num total ls st) as Hfin.
      destruct (for_listings num total ls st) as [[u | e |] st1];
        [| done | done].
      cbn [after]. destruct (mouse_wheel (view k)); [| done].
      destruct (end_of_list_visible (view k)) as [[|] | e]; [done | | done].
      apply IH. by replace (S k + n)%nat with (k + S n)%nat by lia.
    + cbn [scroll_loop].
      quota_unmet.
      by rewrite Hls.
Qed.

Lemma scroll_loop_returned num total view fuel : ∀ k st u st',
  scroll_loop num total fuel view k st = (Returned u, st') →
  num ≤ listings_scraped st'
  ∨ ∃ m, (m < fuel)%nat ∧ end_of_list_visible (view (k + m)%nat) = Ok true.
Proof.
  induction fuel as [| fuel IH]; intros k st u st'.
  - cbn [scroll_loop]. destruct (listings_scraped st <? num) eqn:Hq; [done |].
    intros [= _ <-]. left. by apply Z.ltb_ge.
  - destruct (Z.lt_ge_cases (listings_scraped st) num) as [Hq | Hq].
    2: { rewrite scroll_loop_quota_met by done. intros [= _ <-]. by left. }
    destruct (listings (view k)) as [ls | e] eqn:Hls.
    + rewrite (scroll_loop_round _ _ _ _ _ _ ls) by done.
      destruct (for_listings num total ls st) as [[v | e |] st1];
        [| done | done].
      cbn [after]. destruct (mouse_wheel (view k)); [| done].
      destruct (end_of_list_visible (view k)) as [[|] | e] eqn:Hend;
        [| | done].
      * intros _. right. exists 0%nat. split; [lia |].
        by rewrite Nat.add_0_r.
      * intros Hrec. apply IH in Hrec as [Hmet | (m & Hm & Hend')];
          [by left |].
        right. exists (S m). split; [lia |].
        by replace (k + S m)%nat with (S k + m)%nat by lia.
    + cbn [scroll_loop].
      quota_unmet.
      by rewrite Hls.
Qed.

(** C3 as amended. The scroll loop of a search has come to an end after
    [n + 1] rounds at the latest when the end-of-list text is visible
    after the scroll of round [n]; it does not run at all when the quota is
    met; and when it returns, the quota is met or the end-of-list text was
    seen in one of the rounds.  A listing count that stays the same plays
    no part. *)
Theorem scroll_loop_ends_at_end_of_list (num total : Z)
    (view : nat → PageView) (st : State) :
  (∀ n, end_of_list_visible (view n) = Ok true →
        stops_within num total (S n) view st)
  ∧ (∀ fuel, num ≤ listings_scraped st →
        scroll_loop num total fuel view 0 st = (Returned (), st))
  ∧ (∀ fuel u st', scroll_loop num total fuel view 0 st = (Returned u, st') →
        num ≤ listings_scraped st'
        ∨ ∃ m, (m < fuel)%nat ∧ end_of_list_visible (view m) = Ok true).
Proof.
  split; [| split].
  - intros n Hend. unfold stops_within. by apply scroll_loop_stops.
  - intros fuel Hq. by apply scroll_loop_quota_met.
  - intros fuel u st' Hret. by apply scroll_loop_returned in Hret.
Qed.

(** The end-of-list text shows after the second scroll: two rounds. *)
Lemma scroll_loop_ends_at_end_of_list_witness :
  end_of_list_visible (Samples.ending_view 1) = Ok true
  ∧ stops_within 2 2 2 Samples.ending_view (initial_state ∅).
Proof.
  split; [reflexivity |].
  exact (proj1 (scroll_loop_ends_at_end_of_list 2 2 Samples.ending_view
                  (initial_state ∅)) 1%nat eq_refl).
Defined.

(* ===================================================================== *)
(** ** The search loop of a category *)
(* ===================================================================== *)

Lemma searched_app a b : searched (a ++ b) = searched a ++ searched b.
Proof. apply omap_app. Qed.

Lemma offer_frame total b st :
  cities_states_copy (offer total b st) = cities_states_copy st
  ∧ ∃ extra, shown (offer total b st) = shown st ++ extra ∧ searched extra = [].
Proof.
  unfold offer. destruct (add_business (the_list st) b) as [[|] l]; cbn.
  - split; [done |]. by eexists.
  - split; [done |]. nothing_new.
Qed.

Lemma for_listings_frame num total ls : ∀ st,
  let r := for_listings num total ls st in
  cities_states_copy r.2 = cities_states_copy st
  ∧ ∃ extra, shown r.2 = shown st ++ extra ∧ searched extra = [].
Proof.
  induction ls as [| listing rest IH]; intros st; cbn [for_listings].
  - split; [done |]. nothing_new.
  - destruct (num <=? listings_scraped st).
    { split; [done |]. nothing_new. }
    destruct (extract_listing listing) as [b | e].
    2: { split; [done |]. nothing_new. }
    destruct (IH (offer total b st)) as (Hp & extra & Hs & He).
    destruct (offer_frame total b st) as (Hp0 & extra0 & Hs0 & He0).
    cbn zeta. split; [congruence |].
    exists (extra0 ++ extra). rewrite Hs, Hs0, app_assoc. split; [done |].
    by rewrite searched_app, He0, He.
Qed.

(** The scroll loop leaves the pool alone and announces no search; when it
    is cut short, the quota is not met. *)
Lemma scroll_loop_frame num total view fuel : ∀ k st,
  let r := scroll_loop num total fuel view k st in
  cities_states_copy r.2 = cities_states_copy st
  ∧ (∃ extra, shown r.2 = shown st ++ extra ∧ searched extra = [])
  ∧ (r.1 = Unfinished → listings_scraped r.2 < num).
Proof.
  assert (Hstay : ∀ (e : ending unit) (st : State),
            e ≠ Unfinished →
            cities_states_copy (e, st).2 = cities_states_copy st
            ∧ (∃ extra, shown (e, st).2 = shown st ++ extra ∧ searched extra = [])
            ∧ ((e, st).1 = Unfinished → listings_scraped (e, st).2 < num)).
  { intros e st He. split; [done |]. split; [| done].
    nothing_new. }
  induction fuel as [| fuel IH]; intros k st; cbn [scroll_loop].
  - destruct (listings_scraped st <? num) eqn:Hq; [| by apply Hstay].
    split; [done |]. split; [nothing_new |].
    intros _. by apply Z.ltb_lt.
  - destruct (listings_scraped st <? num) eqn:Hq; [| by apply Hstay].
    destruct (listings (view k)) as [ls | e]; [| by apply Hstay].
    pose proof (for_listings_frame num total ls st) as (Hp1 & extra1 & Hs1 & He1).
    pose proof (for_listings_finishes num total ls st) as Hfin.
    destruct (for_listings num total ls st) as [[u | e |] st1];
      cbn [after fst snd] in *; [| | done].
    2: { split; [done |]. split; [| done]. by exists extra1. }
    assert (Hvia : ∀ (e : ending unit),
              e ≠ Unfinished →
              cities_states_copy (e, st1).2 = cities_states_copy st
              ∧ (∃ extra, shown (e, st1).2 = shown st ++ extra ∧ searched extra = [])
              ∧ ((e, st1).1 = Unfinished → listings_scraped (e, st1).2 < num)).
    { intros e He. split; [done |]. split; [| done]. by exists extra1. }
    destruct (mouse_wheel (view k)); [| by apply Hvia].
    destruct (end_of_list_visible (view k)) as [[|] | e];
      [by apply Hvia | | by apply Hvia].
    destruct (IH (S k) st1) as (Hp & (extra & Hs & He) & Hun).
    split; [congruence |]. split; [| done].
    exists (extra1 ++ extra). rewrite Hs, Hs1, app_assoc. split; [done |].
    by rewrite searched_app, He1, He.
Qed.

Lemma explored_raised num st e : explored num st (Raised e, st).
Proof.
  split; [| by split]. nothing_new.
Qed.

Lemma explored_trans num st st1 pre r :
  shown st1 = shown st ++ pre →
  searched pre ++ cities_states_copy st1 ≡ₚ cities_states_copy st →
  explored num st1 r → explored num st r.
Proof.
  intros Hs Hp ((new & Hs' & Hp') & Hret & Hun).
  split; [| by split].
  exists (pre ++ new). split; [by rewrite Hs', Hs, app_assoc |].
  by rewrite searched_app, <- app_assoc, Hp'.
Qed.

Lemma search_loop_explored num total fuel ty script n : ∀ j st,
  explored num st (search_loop num total fuel n ty script j st).
Proof.
  assert (Hstay : ∀ st,
            (listings_scraped st <? num)
            && negb (bool_decide (cities_states_copy st = [])) = false →
            explored num st (Returned (), st)).
  { intros st Hcond. split; [| split]; [| | done].
    - nothing_new.
    - intros _ _. apply andb_false_iff in Hcond as [Hq | Hnil].
      + left. by apply Z.ltb_ge.
      + right. apply negb_false_iff in Hnil. by apply bool_decide_eq_true in Hnil. }
  induction n as [| n IH]; intros j st; cbn [search_loop].
  - destruct (_ && _) eqn:Hcond; [| by apply Hstay].
    split; [| split]; [| done |].
    + nothing_new.
    + intros _. apply andb_true_iff in Hcond as [Hq _]. by apply Z.ltb_lt.
  - destruct (_ && _) eqn:Hcond; [| by apply Hstay].
    destruct (draw _ _) as [[loc rest] | e] eqn:Hdraw;
      [| apply explored_raised].
    apply draw_inv in Hdraw.
    set (st1 := show (Searching ty loc) (set_pool rest st)).
    assert (Hst1 : ∀ r, explored num st1 r → explored num st r).
    { intros r Hr.
      apply (explored_trans num st st1 [Searching ty loc]); [done | | done].
      cbn. by symmetry. }
    assert (Hnext : ∀ ev, searched [ev] = [] →
              explored num st
                (search_loop num total fuel n ty script (S j) (show ev st1))).
    { intros ev Hev. apply Hst1.
      apply (explored_trans num st1 (show ev st1) [ev]); [done | |].
      - by rewrite Hev.
      - by apply IH. }
    destruct (search (script j)) as [u | e].
    2: { destruct e; try (apply Hst1, explored_raised). by apply Hnext. }
    destruct (anchor_count (script j)) as [count | e];
      [| apply Hst1, explored_raised].
    destruct (count =? 0); [by apply Hnext |].
    apply Hst1.
    pose proof (scroll_loop_frame num total (pages (script j)) fuel 0%nat st1)
      as (Hp & (extra & Hs & He) & Hun).
    destruct (scroll_loop num total fuel (pages (script j)) 0 st1)
      as [[u' | e |] st2]; cbn [after fst snd] in *.
    + apply (explored_trans num st1 st2 extra); [done | by rewrite He, Hp |].
      apply IH.
    + apply (explored_trans num st1 st2 extra); [done | by rewrite He, Hp |].
      apply explored_raised.
    + apply (explored_trans num st1 st2 extra); [done | by rewrite He, Hp |].
      split; [| split]; [| done | by intros _; apply Hun].
      nothing_new.
Qed.

(** The loop does not run when the quota is met or the pool is empty. *)
Lemma search_loop_stops_at_once num total fuel n ty script j st :
  num ≤ listings_scraped st ∨ cities_states_copy st = [] →
  search_loop num total fuel n ty script j st = (Returned (), st).
Proof.
  intros Hstop.
  assert (Hcond : (listings_scraped st <? num)
                  && negb (bool_decide (cities_states_copy st = [])) = false).
  { destruct Hstop as [Hq | Hnil].
    - by quota_met.
    - rewrite bool_decide_true by done. apply andb_false_r. }
  destruct n; cbn [search_loop]; by rewrite Hcond.
Qed.

(** Otherwise it draws a location and announces the search. *)
Lemma search_loop_draws_first num total fuel n ty script j st :
  listings_scraped st < num → cities_states_copy st ≠ [] →
  ∃ loc more,
    loc ∈ cities_states_copy st
    ∧ shown (search_loop num total fuel (S n) ty script j st).2
      = shown st ++ Searching ty loc :: more.
Proof.
  intros Hq Hpool.
  destruct (draw_Ok (choice_index (script j)) _ Hpool)
    as (loc & rest & Hdraw & Hperm).
  exists loc.
  assert (Hin : loc ∈ cities_states_copy st).
  { rewrite Hperm. apply elem_of_cons. by left. }
  set (st1 := show (Searching ty loc) (set_pool rest st)).
  assert (Hfrom : ∀ st2 pre, shown st2 = shown st1 ++ pre →
            ∃ more, shown st2 = shown st ++ Searching ty loc :: more).
  { intros st2 pre Hs. exists pre. rewrite Hs. cbn. by rewrite <- app_assoc. }
  assert (Hloop : ∀ st2 pre, shown st2 = shown st1 ++ pre →
            ∃ more, shown (search_loop num total fuel n ty script (S j) st2).2
                    = shown st ++ Searching ty loc :: more).
  { intros st2 pre Hs2.
    destruct (search_loop_explored num total fuel ty script n (S j) st2)
      as ((new & Hs & _) & _).
    apply (Hfrom _ (pre ++ new)). by rewrite Hs, Hs2, app_assoc. }
  assert (Hhere : ∃ more, shown st1 = shown st ++ Searching ty loc :: more).
  { apply (Hfrom st1 []). by rewrite app_nil_r. }
  cut (∃ more, shown (search_loop num total fuel (S n) ty script j st).2
               = shown st ++ Searching ty loc :: more).
  { intros [more Hm]. by exists more. }
  cbn [search_loop].
  quota_unmet.
  rewrite bool_decide_false by done. cbn [negb andb]. rewrite Hdraw.
  fold st1.
  destruct (search (script j)) as [u | e].
  2: { destruct e; try exact Hhere. by apply (Hloop _ [TimeoutFor ty loc]). }
  destruct (anchor_count (script j)) as [count | e]; [| exact Hhere].
  destruct (count =? 0); [by apply (Hloop _ [NoResultsFor ty loc]) |].
  pose proof (scroll_loop_frame num total (pages (script j)) fuel 0%nat st1)
    as (_ & (extra & Hs & _) & _).
  destruct (scroll_loop num total fuel (pages (script j)) 0 st1)
    as [[u' | e |] st2]; cbn [after fst snd] in *.
  - by apply (Hloop _ extra).
  - by apply (Hfrom _ extra).
  - by apply (Hfrom _ extra).
Qed.

(** The bound on the rounds of the search loop plays no part once it is
    at least the size of the pool: each round takes a location out. *)
Lemma search_loop_bound_irrelevant num total fuel ty script n : ∀ m j st,
  (length (cities_states_copy st) ≤ n)%nat →
  (length (cities_states_copy st) ≤ m)%nat →
  search_loop num total fuel n ty script j st
  = search_loop num total fuel m ty script j st.
Proof.
  assert (Hempty : ∀ st, (length (cities_states_copy st) ≤ 0)%nat →
            (listings_scraped st <? num)
            && negb (bool_decide (cities_states_copy st = [])) = false).
  { intros st Hlen. destruct (cities_states_copy st); [| simpl in Hlen; lia].
    rewrite bool_decide_true by done. apply andb_false_r. }
  induction n as [| n IH]; intros m j st Hn Hm.
  - destruct m; cbn [search_loop]; by rewrite (Hempty st Hn).
  - destruct m as [| m]; [cbn [search_loop]; by rewrite (Hempty st Hm) |].
    cbn [search_loop]. destruct (_ && _); [| done].
    destruct (draw _ _) as [[loc rest] | e] eqn:Hdraw; [| done].
    apply draw_inv, Permutation_length in Hdraw. simpl in Hdraw.
    set (st1 := show (Searching ty loc) (set_pool rest st)).
    destruct (search (script j)) as [u | e].
    2: { destruct e; try done. apply IH; cbn; lia. }
    destruct (anchor_count (script j)) as [count | e]; [| done].
    destruct (count =? 0); [apply IH; cbn; lia |].
    pose proof (scroll_loop_frame num total (pages (script j)) fuel 0%nat st1)
      as (Hp & _).
    destruct (scroll_loop num total fuel (pages (script j)) 0 st1)
      as [[u' | e |] st2]; cbn [after fst snd] in *; [| done | done].
    apply IH; rewrite Hp; cbn; lia.
Qed.

(** C8. In the search loop of a category every draw takes its location
    out of the pool: the locations searched and the locations left make up
    the list the category started with, so that none is searched more
    often than it is listed.  The loop returns only when the quota is met
    or the pool is empty, returns at once in that case, and draws a
    location otherwise; when it is cut short, that is within a scroll loop
    with the quota unmet, never for want of locations. *)
Theorem locations_drawn_without_replacement (num total : Z)
    (cities_states : list Location) (fuel : nat) (ty : string)
    (script : nat → SearchView) (st : State) :
  let start := enter_category cities_states ty st in
  let run := search_loop num total fuel (length cities_states) ty script 0 start in
  (∃ new, shown run.2 = shown start ++ new
     ∧ searched new ++ cities_states_copy run.2 ≡ₚ cities_states
     ∧ (NoDup cities_states → NoDup (searched new)))
  ∧ (∀ u, run.1 = Returned u →
       num ≤ listings_scraped run.2 ∨ cities_states_copy run.2 = [])
  ∧ (run.1 = Unfinished → listings_scraped run.2 < num)
  ∧ (∀ n, (length cities_states ≤ n)%nat →
       search_loop num total fuel n ty script 0 start = run)
  ∧ (∀ n j st0,
       num ≤ listings_scraped st0 ∨ cities_states_copy st0 = [] →
       search_loop num total fuel n ty script j st0 = (Returned (), st0))
  ∧ (∀ n j st0,
       listings_scraped st0 < num → cities_states_copy st0 ≠ [] →
       ∃ loc more,
         loc ∈ cities_states_copy st0
         ∧ shown (search_loop num total fuel (S n) ty script j st0).2
           = shown st0 ++ Searching ty loc :: more).
Proof.
  intros start run.
  destruct (search_loop_explored num total fuel ty script
              (length cities_states) 0%nat start)
    as ((new & Hs & Hp) & Hret & Hun).
  fold run in Hs, Hp, Hret, Hun.
  change (cities_states_copy start) with cities_states in Hp.
  split; [| split; [| split; [| split; [| split]]]].
  - exists new. split; [done |]. split; [done |].
    intros Hnd. rewrite <- Hp in Hnd. by apply NoDup_app in Hnd as [? _].
  - done.
  - done.
  - intros n Hn. subst run. by apply search_loop_bound_irrelevant.
  - intros n j st0. apply search_loop_stops_at_once.
  - intros n j st0. apply search_loop_draws_first.
Qed.

(** The run of the specification stops with the quota met and one
    location left. *)
Lemma locations_drawn_without_replacement_witness :
  let start := enter_category Samples.texas "Gyms" (initial_state ∅) in
  let run := search_loop 2 2 5 2 "Gyms" (Samples.gyms_world 0%nat) 0 start in
  run.1 = Returned ()
  ∧ (2 ≤ listings_scraped run.2 ∨ cities_states_copy run.2 = []).
Proof.
  intros start run.
  assert (Hret : run.1 = Returned ()) by (vm_compute; reflexivity).
  split; [exact Hret |].
  destruct (locations_drawn_without_replacement 2 2 Samples.texas 5 "Gyms"
              (Samples.gyms_world 0%nat) (initial_state ∅))
    as (_ & Hstop & _).
  exact (Hstop () Hret).
Defined.

(* ===================================================================== *)
(** ** Facts about [find] and [split] *)
(* ===================================================================== *)

Lemma eqc_true a b : eqc a b = true ↔ a = b.
Proof. apply Ascii.eqb_eq. Qed.

Lemma eqc_false a b : eqc a b = false ↔ a ≠ b.
Proof. apply Ascii.eqb_neq. Qed.

Lemma starts_with_app sep r : starts_with sep (sep ++ r) = true.
Proof.
  induction sep as [| a sep IH]; simpl; [done |].
  rewrite IH. by rewrite (proj2 (eqc_true a a)).
Qed.

Lemma starts_with_inv sep : ∀ s,
  starts_with sep s = true → ∃ r, s = sep ++ r.
Proof.
  induction sep as [| a sep IH]; intros s; simpl.
  - intros _. by exists s.
  - destruct s as [| b s]; [done |].
    intros H. apply andb_true_iff in H as [Hab Hs].
    apply eqc_true in Hab as ->. destruct (IH s Hs) as [r ->]. by exists r.
Qed.

Lemma find_nil sep : sep ≠ [] → find sep [] = None.
Proof. intros H. destruct sep; [done | reflexivity]. Qed.

(** [find] gives a place where the separator starts. *)
Lemma find_Some_starts sep : ∀ s i,
  find sep s = Some i → starts_with sep (drop i s) = true ∧ (i ≤ length s)%nat.
Proof.
  induction s as [| c s IH]; intros i; simpl.
  - destruct (starts_with sep []) eqn:H; [| done].
    intros [= <-]. by rewrite drop_0.
  - destruct (starts_with sep (c :: s)) eqn:H.
    + intros [= <-]. rewrite drop_0. split; [done | lia].
    + destruct (find sep s) as [i' |] eqn:Hf; [| done].
      simpl. intros [= <-]. destruct (IH i' eq_refl). simpl. split; [done | lia].
Qed.

Lemma find_unfold sep s :
  find sep s = if starts_with sep s then Some 0%nat
               else match s with
                    | [] => None
                    | _ :: s' => S <$> find sep s'
                    end.
Proof. by destruct s. Qed.

(** An occurrence at [length pre] bounds the leftmost one. *)
Lemma find_before sep seg : ∀ pre,
  ∃ i, find sep (pre ++ sep ++ seg) = Some i ∧ (i ≤ length pre)%nat.
Proof.
  induction pre as [| c pre (i & Hi & Hle)].
  - exists 0%nat. rewrite find_unfold. simpl. by rewrite starts_with_app.
  - rewrite find_unfold. simpl. destruct (starts_with sep _).
    + exists 0%nat. split; [done | lia].
    + exists (S i). rewrite Hi. split; [done | lia].
Qed.

(** The rounds given to [split] are enough. *)
Lemma split_rounds_enough sep : sep ≠ [] → ∀ n m s,
  (length s ≤ n)%nat → (length s ≤ m)%nat →
  split_rounds n sep s = split_rounds m sep s.
Proof.
  intros Hsep.
  assert (Hnil : ∀ k s, (length s ≤ 0)%nat → split_rounds k sep s = [s]).
  { intros k s Hs. destruct s; [| simpl in Hs; lia].
    destruct k; [done |]. cbn [split_rounds]. by rewrite find_nil. }
  induction n as [| n IH]; intros m s Hn Hm.
  - by rewrite !Hnil.
  - destruct m as [| m]; [by rewrite !Hnil |].
    cbn [split_rounds]. destruct (find sep s) as [i |] eqn:Hf; [| done].
    f_equal.
    assert (Hlen : (length (drop (i + length sep) s) < length s)%nat).
    { apply find_Some_starts in Hf as [Hst _].
      apply starts_with_inv in Hst as [r Hr].
      assert (Hd : length (drop i s) = (length sep + length r)%nat)
        by (by rewrite Hr, length_app).
      rewrite length_drop in *. destruct sep; [done |]. simpl in *. lia. }
    apply IH; lia.
Qed.

Lemma split_none sep s : find sep s = None → split sep s = [s].
Proof.
  intros H. unfold split. destruct (length s); cbn [split_rounds]; by rewrite ?H.
Qed.

Lemma split_step sep s i :
  sep ≠ [] → find sep s = Some i →
  split sep s = take i s :: split sep (drop (i + length sep) s).
Proof.
  intros Hsep Hf. unfold split.
  destruct (length s) as [| n] eqn:Hn.
  - destruct s; [| done]. by rewrite find_nil in Hf.
  - cbn [split_rounds]. rewrite Hf. f_equal.
    apply split_rounds_enough; [done | | done].
    assert (Hpos : (0 < length sep)%nat) by (destruct sep; [done | simpl; lia]).
    rewrite length_drop. lia.
Qed.

Lemma find_char c : ∀ s,
  match find [c] s with
  | Some i => take i s = until c s ∧ ∃ r, drop i s = c :: r
  | None => until c s = s ∧ c ∉ s
  end.
Proof.
  induction s as [| x s IH]; [split; [done | apply not_elem_of_nil] |].
  cbn [find starts_with until]. rewrite andb_true_r.
  destruct (eqc c x) eqn:Hcx.
  - apply eqc_true in Hcx as ->. split; [done |]. by exists s.
  - apply eqc_false in Hcx. destruct (find [c] s) as [i |]; simpl.
    + destruct IH as [Ht Hd]. split; [by rewrite Ht | done].
    + destruct IH as [Hu Hn]. split; [by rewrite Hu |].
      apply not_elem_of_cons. by split.
Qed.

(** The first piece of a split at a character. *)
Lemma split_char_head c s : ∃ more, split [c] s = until c s :: more.
Proof.
  pose proof (find_char c s) as H.
  destruct (find [c] s) as [i |] eqn:Hf.
  - rewrite (split_step _ _ i) by done. destruct H as [-> _]. by eexists.
  - rewrite split_none by done. destruct H as [-> _]. by eexists.
Qed.

Lemma split_char_none c s : c ∉ s → split [c] s = [s].
Proof.
  intros Hc. pose proof (find_char c s) as H.
  destruct (find [c] s) as [i |] eqn:Hf; [| by apply split_none].
  destruct H as [_ [r Hr]]. exfalso. apply Hc.
  rewrite <- (take_drop i s), Hr. apply elem_of_app. right.
  apply elem_of_cons. by left.
Qed.

Lemma until_app c x y : c ∉ x → until c (x ++ y) = x ++ until c y.
Proof.
  induction x as [| a x IH]; intros Hc; simpl; [done |].
  apply not_elem_of_cons in Hc as [Hne Hc].
  rewrite (proj2 (eqc_false c a)) by done. by rewrite IH.
Qed.

Lemma until_here c y : until c (c :: y) = [].
Proof. simpl. by rewrite (proj2 (eqc_true c c)). Qed.

Lemma split_char_cut c x y :
  c ∉ x → split [c] (x ++ c :: y) = x :: split [c] y.
Proof.
  intros Hc. pose proof (find_char c (x ++ c :: y)) as H.
  destruct (find [c] (x ++ c :: y)) as [i |] eqn:Hf.
  - destruct H as [Ht [r Hr]].
    rewrite until_app, until_here, app_nil_r in Ht by done.
    assert (Hi : i = length x).
    { apply (f_equal length) in Ht. rewrite length_take in Ht.
      apply find_Some_starts in Hf as [_ Hle].
      assert (Hr' := f_equal length Hr). rewrite length_drop in Hr'.
      rewrite length_app in *. simpl in *. lia. }
    rewrite (split_step _ _ i) by done. subst i. f_equal.
    + by rewrite take_app_length.
    + f_equal. cbn [length]. rewrite drop_app_ge by lia.
      by replace (length x + 1 - length x)%nat with 1%nat by lia.
  - destruct H as [_ Hn]. exfalso. apply Hn, elem_of_app. right.
    apply elem_of_cons. by left.
Qed.

Lemma last_cons_Some {A} (x y : A) (l : list A) :
  last l = Some y → last (x :: l) = Some y.
Proof. by destruct l. Qed.

(** The last piece of the split at ["/@"] is what follows its last
    occurrence. *)
Lemma last_segment seg :
  find slash_at seg = None →
  ∀ pre, last (split slash_at (pre ++ slash_at ++ seg)) = Some seg.
Proof.
  intros Hseg pre. remember (length pre) as n eqn:Hn. revert pre Hn.
  induction n as [n IH] using lt_wf_ind. intros pre Hn.
  destruct (find_before slash_at seg pre) as (i & Hi & Hle).
  rewrite (split_step _ _ i) by done. apply last_cons_Some.
  apply find_Some_starts in Hi as [Hst _].
  destruct (decide (i = length pre)) as [-> | Hlt].
  - rewrite drop_app_ge by lia.
    replace (length pre + length slash_at - length pre)%nat with 2%nat
      by (cbn; lia).
    cbn [slash_at of_string list_ascii_of_string app drop].
    by rewrite split_none.
  - rewrite drop_app_le in Hst by lia.
    destruct (decide (S i = length pre)) as [Hone | Htwo].
    + exfalso.
      destruct (drop i pre) as [| x [| y r]] eqn:Hd.
      * apply (f_equal length) in Hd. rewrite length_drop in Hd. simpl in Hd. lia.
      * cbn in Hst. rewrite andb_false_r in Hst. done.
      * apply (f_equal length) in Hd. rewrite length_drop in Hd. simpl in Hd. lia.
    + change (length slash_at) with 2%nat.
      rewrite drop_app_le by lia.
      apply (IH (length (drop (i + 2) pre))); [| done].
      rewrite length_drop. lia.
Qed.

(* ===================================================================== *)
(** ** What [float] refuses *)
(* ===================================================================== *)

Lemma foreign_facts x :
  foreign x = true →
  float_blank x = x ∧ lower x = x ∧ is_digit x = false
  ∧ is_ascii_space x = false ∧ is_letter x = false
  ∧ eqc x "+" = false ∧ eqc x "-" = false ∧ eqc x "." = false
  ∧ eqc x "_" = false ∧ eqc (lower x) "e" = false.
Proof.
  destruct x as [[] [] [] [] [] [] [] []]; vm_compute; intros H;
    first [discriminate H | repeat split].
Qed.

Lemma foreign_not_in x (w : chars) :
  foreign x = true → Forall (λ c, foreign c = false) w → x ∉ w.
Proof.
  intros Hx Hw Hin. rewrite Forall_forall in Hw.
  specialize (Hw x Hin). congruence.
Qed.

Lemma lstrip_ascii_keeps x : ∀ s,
  is_ascii_space x = false → x ∈ s → x ∈ lstrip_ascii s.
Proof.
  induction s as [| c s IH]; intros Hx Hin; [done |]. simpl.
  destruct (is_ascii_space c) eqn:Hc; [| done].
  apply elem_of_cons in Hin as [-> | Hin]; [congruence | by apply IH].
Qed.

Lemma elem_of_rev (x : ascii) (l : chars) : x ∈ rev l ↔ x ∈ l.
Proof. rewrite !list_elem_of_In. symmetry. apply in_rev. Qed.

Lemma strip_ascii_keeps x s :
  is_ascii_space x = false → x ∈ s → x ∈ strip_ascii s.
Proof.
  intros Hx Hin. unfold strip_ascii.
  apply elem_of_rev, lstrip_ascii_keeps; [done |].
  apply elem_of_rev. by apply lstrip_ascii_keeps.
Qed.

Lemma take_sign_keeps x s :
  eqc x "+" = false → eqc x "-" = false → x ∈ s → x ∈ (take_sign s).2.
Proof.
  intros Hp Hm Hin. destruct s as [| c s]; [done |]. simpl.
  destruct (eqc c "+") eqn:Hcp.
  { apply eqc_true in Hcp as ->.
    apply elem_of_cons in Hin as [-> | Hin]; [cbn in Hp; congruence | done]. }
  destruct (eqc c "-") eqn:Hcm; [| done].
  apply eqc_true in Hcm as ->.
  apply elem_of_cons in Hin as [-> | Hin]; [cbn in Hm; congruence | done].
Qed.

Lemma span_digits_spec : ∀ s,
  s = (span_digits s).1 ++ (span_digits s).2
  ∧ Forall (λ c, is_digit c = true) (span_digits s).1.
Proof.
  induction s as [| c s [IH1 IH2]]; simpl; [by split |].
  destruct (is_digit c) eqn:Hc; [| by split].
  destruct (span_digits s) as [d r]. simpl in *. split; [by f_equal |].
  by constructor.
Qed.

Lemma span_digits_keeps x s :
  is_digit x = false → x ∈ s → x ∈ (span_digits s).2.
Proof.
  intros Hx Hin. destruct (span_digits_spec s) as [Hs Hd].
  rewrite Hs in Hin. apply elem_of_app in Hin as [Hin | Hin]; [| done].
  rewrite Forall_forall in Hd. specialize (Hd x Hin). congruence.
Qed.

Lemma float_number_rejects neg x s :
  foreign x = true → x ∈ s → float_number neg s = None.
Proof.
  intros Hx Hin.
  destruct (foreign_facts x Hx)
    as (_ & Hlow & Hdig & _ & _ & Hplus & Hminus & Hpoint & _ & He).
  unfold float_number.
  pose proof (span_digits_keeps x s Hdig Hin) as H1.
  destruct (span_digits s) as [ip s1]. simpl in H1.
  assert (H2 : x ∈ (match s1 with
                    | c :: r => if eqc c "." then span_digits r else ([], s1)
                    | [] => ([], [])
                    end).2).
  { destruct s1 as [| c r]; [done |].
    destruct (eqc c ".") eqn:Hc; [| done].
    apply eqc_true in Hc as ->. apply span_digits_keeps; [done |].
    apply elem_of_cons in H1 as [-> | H1]; [cbn in Hpoint; congruence | done]. }
  destruct (match s1 with
            | c :: r => if eqc c "." then span_digits r else ([], s1)
            | [] => ([], [])
            end) as [fp s2].
  simpl in H2. destruct (bool_decide (ip ++ fp = [])); [done |].
  destruct s2 as [| c r]; [by apply elem_of_nil in H2 |].
  destruct (eqc (lower c) "e") eqn:Hc; [| done].
  assert (Hr : x ∈ r).
  { apply elem_of_cons in H2 as [-> | H2]; [congruence | done]. }
  pose proof (take_sign_keeps x r Hplus Hminus Hr) as H3.
  destruct (take_sign r) as [eneg r1]. simpl in H3.
  pose proof (span_digits_keeps x r1 Hdig H3) as H4.
  destruct (span_digits r1) as [ed r2]. simpl in H4.
  destruct r2; [by apply elem_of_nil in H4 |].
  rewrite (bool_decide_false (_ :: _ = [])) by done.
  by rewrite orb_true_r.
Qed.

(** [float] raises [ValueError] on a text with a foreign character. *)
Lemma float_rejects s x :
  x ∈ s → foreign x = true → Py.float s = None.
Proof.
  intros Hin Hx.
  destruct (foreign_facts x Hx)
    as (Hblank & Hlow & Hdig & Hsp & Hlet & Hplus & Hminus & Hpoint & Hund & He).
  unfold Py.float, drop_underscores.
  destruct (underscores_ok _ _); [| done]. cbn [mbind option_bind].
  set (s1 := List.filter _ _).
  assert (H1 : x ∈ s1).
  { apply list_elem_of_In, filter_In. split.
    - apply list_elem_of_In. rewrite <- Hblank. by apply list_elem_of_fmap_2.
    - by rewrite Hund. }
  pose proof (take_sign_keeps x _ Hplus Hminus (strip_ascii_keeps x s1 Hsp H1))
    as H2.
  destruct (take_sign (strip_ascii s1)) as [neg s2]. simpl in H2.
  assert (H3 : x ∈ map lower s2).
  { rewrite <- Hlow. by apply list_elem_of_fmap_2. }
  assert (Hword : ∀ w, Forall (λ c, foreign c = false) (of_string w) →
            bool_decide (map lower s2 = of_string w) = false).
  { intros w Hw. apply bool_decide_eq_false. intros Heq. rewrite Heq in H3.
    by apply (foreign_not_in x (of_string w)). }
  rewrite !Hword by (repeat constructor). cbn [orb].
  by apply (float_number_rejects neg x).
Qed.

(* ===================================================================== *)
(** ** Coordinates *)
(* ===================================================================== *)

Lemma of_to_string (l : chars) : of_string (to_string l) = l.
Proof. apply list_ascii_of_string_of_list_ascii. Qed.

(** The result, from the pieces that the three splits give. *)
Lemma extract_coordinates_by_tokens url segment coordinates rest t0 more :
  last (split slash_at (of_string url)) = Some segment →
  split (of_string "/") segment = coordinates :: rest →
  split (of_string ",") coordinates = t0 :: more →
  extract_coordinates_from_url url
  = Ok (match Py.float t0, more with
        | Some lat, t1 :: _ =>
            match Py.float t1 with
            | Some lng => (Some lat, Some lng)
            | None => (None, None)
            end
        | _, _ => (None, None)
        end).
Proof.
  intros Hseg Hcoord Htok. unfold extract_coordinates_from_url.
  run_bind. unfold index_last, index, float_of.
  fold slash_at. rewrite Hseg, Hcoord. cbn [lookup list_lookup].
  rewrite Htok. cbn [lookup list_lookup].
  destruct (Py.float t0) as [lat |]; [| done].
  destruct more as [| t1 more']; [done |]. cbn [lookup list_lookup].
  by destruct (Py.float t1).
Qed.

(** [extract_coordinates_from_url] never raises: what its body can raise
    is caught. *)
Lemma extract_coordinates_total url :
  ∃ r, extract_coordinates_from_url url = Ok r.
Proof.
  unfold extract_coordinates_from_url.
  run_bind. unfold index_last, index, float_of.
  destruct (last _) as [segment |]; [| by eexists].
  destruct (_ !! 0%nat) as [coordinates |]; [| by eexists].
  destruct (_ !! 0%nat) as [t0 |]; [| by eexists].
  destruct (Py.float t0); [| by eexists].
  destruct (_ !! 1%nat) as [t1 |]; [| by eexists].
  destruct (Py.float t1); by eexists.
Qed.

(** The tokens of a segment that begins with two comma-separated
    tokens. *)
Lemma tokens_of_segment pre t0 t1 tail :
  let segment := t0 ++ ","%char :: t1 ++ tail in
  "/"%char ∉ t0 → ","%char ∉ t0 → "/"%char ∉ t1 → ","%char ∉ t1 →
  ends_token tail → find slash_at segment = None →
  ∃ coordinates rest more,
    last (split slash_at (pre ++ slash_at ++ segment)) = Some segment
    ∧ split (of_string "/") segment = coordinates :: rest
    ∧ split (of_string ",") coordinates = t0 :: t1 :: more.
Proof.
  intros segment Hs0 Hc0 Hs1 Hc1 Htail Hfree.
  destruct (split_char_head "/" segment) as [rest Hrest].
  assert (Hslash : "/"%char ∉ t0 ++ ","%char :: t1).
  { intros Hin. apply elem_of_app in Hin as [Hin | Hin]; [done |].
    apply elem_of_cons in Hin as [Hin | Hin]; [discriminate Hin | done]. }
  assert (Hcoord : ∃ y, until "/" segment = t0 ++ ","%char :: t1 ++ y
                        ∧ (y = [] ∨ ∃ z, y = ","%char :: z)).
  { exists (until "/" tail). split.
    - subst segment.
      replace (t0 ++ ","%char :: t1 ++ tail)
        with ((t0 ++ ","%char :: t1) ++ tail) by (by rewrite <- app_assoc).
      rewrite until_app by done. by rewrite <- app_assoc.
    - destruct tail as [| c tail]; [by left |].
      destruct Htail as [-> | ->]; [right | left]; cbn; by eauto. }
  destruct Hcoord as (y & Hy & Hshape).
  exists (until "/" segment), rest.
  assert (Htok : ∃ more, split (of_string ",") (until "/" segment)
                         = t0 :: t1 :: more).
  { rewrite Hy. change (of_string ",") with [","%char].
    rewrite split_char_cut by done.
    destruct Hshape as [-> | [z ->]].
    - rewrite app_nil_r, split_char_none by done. by eexists.
    - rewrite split_char_cut by done. by eexists. }
  destruct Htok as [more Htok]. exists more.
  split; [by apply last_segment |]. by split.
Qed.

Lemma scheme_char_facts c :
  scheme_char c = true ∨ eqc c ":" = true →
  eqc "/" c = false ∧ eqc "," c = false.
Proof.
  destruct c as [[] [] [] [] [] [] [] []]; vm_compute; intros [H | H];
    first [discriminate H | by split].
Qed.

Lemma scheme_rest_colon : ∀ s,
  scheme_rest s = true → ":"%char ∈ until "," (until "/" s).
Proof.
  induction s as [| c s IH]; [done |]. cbn [scheme_rest until].
  destruct (eqc c ":") eqn:Hc.
  - destruct (scheme_char_facts c) as [-> Hcomma]; [by right |].
    cbn [until]. rewrite Hcomma. apply eqc_true in Hc as ->.
    intros _. apply elem_of_cons. by left.
  - intros H. apply andb_true_iff in H as [Hsc Hrest].
    destruct (scheme_char_facts c) as [-> Hcomma]; [by left |].
    cbn [until]. rewrite Hcomma. apply elem_of_cons. right. by apply IH.
Qed.

Lemma absolute_url_colon url :
  absolute_url url = true →
  ":"%char ∈ until "," (until "/" (of_string url)).
Proof.
  unfold absolute_url. destruct (of_string url) as [| c r]; [done |].
  intros H. apply andb_true_iff in H as [Hc Hr].
  destruct (scheme_char_facts c) as [Hs Hcomma].
  { left. unfold scheme_char. by rewrite Hc. }
  cbn [until]. rewrite Hs. cbn [until]. rewrite Hcomma.
  apply elem_of_cons. right. by apply scheme_rest_colon.
Qed.

Lemma float_Some_no_separator t f :
  Py.float t = Some f → ("/"%char ∉ t) ∧ (","%char ∉ t).
Proof.
  intros Hf. split; intros Hin.
  - by rewrite (float_rejects t "/" Hin eq_refl) in Hf.
  - by rewrite (float_rejects t "," Hin eq_refl) in Hf.
Qed.

(** C6. [extract_coordinates_from_url] never raises.  An address whose
    last ["/@"] segment begins with [lat,lng], two texts that [float]
    reads, followed by nothing, a comma or a slash, gives the two floats:
    [".../@40.7128,-74.0060,15z"] gives (40.7128, -74.0060).  An absolute
    address without ["/@"], a segment without a second component, and a
    segment whose first or second token is no number give
    [(None, None)]. *)
Theorem extract_coordinates_total_and_correct :
  (∀ url, ∃ r, extract_coordinates_from_url url = Ok r)
  ∧ extract_coordinates_from_url ".../@40.7128,-74.0060,15z"
    = Ok (Some (Fdec false 407128 (-4)), Some (Fdec true 740060 (-4)))
  ∧ (∀ pre lat lng tail a b,
       Py.float lat = Some a → Py.float lng = Some b →
       ends_token tail →
       find slash_at (lat ++ ","%char :: lng ++ tail) = None →
       extract_coordinates_from_url
         (to_string (pre ++ slash_at ++ lat ++ ","%char :: lng ++ tail))
       = Ok (Some a, Some b))
  ∧ (∀ url,
       absolute_url url = true → find slash_at (of_string url) = None →
       extract_coordinates_from_url url = Ok (None, None))
  ∧ (∀ pre segment,
       find slash_at segment = None → ","%char ∉ until "/" segment →
       extract_coordinates_from_url (to_string (pre ++ slash_at ++ segment))
       = Ok (None, None))
  ∧ (∀ pre t0 t1 tail,
       "/"%char ∉ t0 → ","%char ∉ t0 → "/"%char ∉ t1 → ","%char ∉ t1 →
       ends_token tail →
       find slash_at (t0 ++ ","%char :: t1 ++ tail) = None →
       Py.float t0 = None ∨ Py.float t1 = None →
       extract_coordinates_from_url
         (to_string (pre ++ slash_at ++ t0 ++ ","%char :: t1 ++ tail))
       = Ok (None, None)).
Proof.
  split; [apply extract_coordinates_total |].
  split; [vm_compute; reflexivity |].
  split; [| split; [| split]].
  - intros pre lat lng tail a b Ha Hb Htail Hfree.
    destruct (float_Some_no_separator _ _ Ha) as [Hs0 Hc0].
    destruct (float_Some_no_separator _ _ Hb) as [Hs1 Hc1].
    destruct (tokens_of_segment pre lat lng tail Hs0 Hc0 Hs1 Hc1 Htail Hfree)
      as (coordinates & rest & more & Hseg & Hcoord & Htok).
    rewrite (extract_coordinates_by_tokens _ _ _ _ _ _
               ltac:(rewrite of_to_string; exact Hseg) Hcoord Htok).
    by rewrite Ha, Hb.
  - intros url Habs Hfree.
    destruct (split_char_head "/" (of_string url)) as [rest Hcoord].
    destruct (split_char_head "," (until "/" (of_string url))) as [more Htok].
    rewrite (extract_coordinates_by_tokens url (of_string url) _ _ _ _
               ltac:(by rewrite split_none) Hcoord Htok).
    by rewrite (float_rejects _ ":" (absolute_url_colon url Habs) eq_refl).
  - intros pre segment Hfree Hcomma.
    destruct (split_char_head "/" segment) as [rest Hcoord].
    rewrite (extract_coordinates_by_tokens _ segment _ rest (until "/" segment) []
               ltac:(rewrite of_to_string; by apply last_segment) Hcoord
               ltac:(by apply split_char_none)).
    by destruct (Py.float _).
  - intros pre t0 t1 tail Hs0 Hc0 Hs1 Hc1 Htail Hfree Hnone.
    destruct (tokens_of_segment pre t0 t1 tail Hs0 Hc0 Hs1 Hc1 Htail Hfree)
      as (coordinates & rest & more & Hseg & Hcoord & Htok).
    rewrite (extract_coordinates_by_tokens _ _ _ _ _ _
               ltac:(rewrite of_to_string; exact Hseg) Hcoord Htok).
    destruct Hnone as [-> | ->]; [done |]. by destruct (Py.float t0).
Qed.

(** A text that is no address but a bare pair is read as one. *)
Remark bare_pair_is_read :
  extract_coordinates_from_url "1.5,2.5"
  = Ok (Some (Fdec false 15 (-1)), Some (Fdec false 25 (-1))).
Proof. vm_compute. reflexivity. Qed.

(** The start page of the map has no coordinates. *)
Lemma extract_coordinates_total_and_correct_witness :
  absolute_url "https://www.google.com/maps" = true
  ∧ find slash_at (of_string "https://www.google.com/maps") = None
  ∧ extract_coordinates_from_url "https://www.google.com/maps" = Ok (None, None).
Proof.
  split; [reflexivity |]. split; [reflexivity |].
  destruct extract_coordinates_total_and_correct as (_ & _ & _ & Habs & _).
  exact (Habs "https://www.google.com/maps" eq_refl eq_refl).
Defined.

(* ===================================================================== *)
(** ** The results file of a run *)
(* ===================================================================== *)

Lemma show_tidy ev st : tidy st → tidy (show ev st).
Proof. done. Qed.

Lemma set_pool_tidy pool st : tidy st → tidy (set_pool pool st).
Proof. done. Qed.

Lemma offer_tidy total b st : tidy st → tidy (offer total b st).
Proof.
  intros (Hdir & rows & Hfile & Hnd & Hseen). unfold offer.
  destruct (decide (unique_key b ∈ seen_businesses (the_list st))) as [Hin | Hnew].
  { rewrite add_business_seen by done. split; [done |]. by exists rows. }
  rewrite add_business_new by done. split; [done |]. exists rows. cbn.
  split; [done |]. rewrite app_assoc. split.
  - rewrite fmap_app. apply NoDup_app. split; [done |]. split.
    + intros k Hk Hk'. apply list_elem_of_singleton in Hk' as ->.
      apply list_elem_of_fmap in Hk as (b' & Hkey & Hb').
      apply Hnew. rewrite Hkey. by apply Hseen.
    + apply NoDup_singleton.
  - intros b' Hb'. apply elem_of_app in Hb' as [Hb' | Hb'].
    + apply elem_of_union. left. by apply Hseen.
    + apply list_elem_of_singleton in Hb' as ->.
      apply elem_of_union. right. by apply elem_of_singleton.
Qed.

Lemma after_tidy {A} r (k : State → ending A * State) :
  tidy r.2 → (∀ st, tidy st → tidy (k st).2) → tidy (after r k).2.
Proof. intros Hr Hk. destruct r as [[u | e |] st]; simpl in *; auto. Qed.

Lemma for_listings_tidy num total ls : ∀ st,
  tidy st → tidy (for_listings num total ls st).2.
Proof.
  induction ls as [| listing rest IH]; intros st Hst; cbn [for_listings];
    [done |].
  destruct (num <=? listings_scraped st); [done |].
  destruct (extract_listing listing) as [b | e]; [| done].
  by apply IH, offer_tidy.
Qed.

Lemma scroll_loop_tidy num total view fuel : ∀ k st,
  tidy st → tidy (scroll_loop num total fuel view k st).2.
Proof.
  induction fuel as [| fuel IH]; intros k st Hst; cbn [scroll_loop].
  - by destruct (listings_scraped st <? num).
  - destruct (listings_scraped st <? num); [| done].
    destruct (listings (view k)) as [ls | e]; [| done].
    apply after_tidy; [by apply for_listings_tidy |].
    intros st1 Hst1. destruct (mouse_wheel (view k)); [| done].
    destruct (end_of_list_visible (view k)) as [[|] | e]; [done | | done].
    by apply IH.
Qed.

Lemma search_loop_tidy num total fuel ty script n : ∀ j st,
  tidy st → tidy (search_loop num total fuel n ty script j st).2.
Proof.
  induction n as [| n IH]; intros j st Hst; cbn [search_loop].
  - by destruct (_ && _).
  - destruct (_ && _); [| done].
    destruct (draw _ _) as [[loc rest] | e]; [| done].
    destruct (search (script j)) as [u | e].
    2: { destruct e; try done. by apply IH. }
    destruct (anchor_count (script j)) as [count | e]; [| done].
    destruct (count =? 0); [by apply IH |].
    apply after_tidy; [by apply scroll_loop_tidy |].
    intros st2 Hst2. by apply IH.
Qed.

Lemma flush_tidy st : tidy st → tidy (flush st).2.
Proof.
  intros (Hdir & rows & Hfile & Hnd & Hseen). unfold flush.
  destruct (business_list (the_list st)) as [| b0 l] eqn:Hl.
  { split; [done |]. exists rows. cbn [snd]. by rewrite Hl. }
  destruct (save_to_csv _ _ _ _) as [fs |] eqn:Hsave.
  2: { split; [done |]. exists rows. cbn [snd]. by rewrite Hl. }
  apply save_to_csv_append in Hsave. rewrite Hdir in Hsave.
  fold results_path in Hsave. cbn [snd]. split; [done |].
  exists (rows ++ b0 :: l). cbn [files the_list clear business_list seen_businesses].
  rewrite app_nil_r. split; [| by split].
  right. unfold dataframe in Hsave. rewrite Hl in Hsave.
  destruct Hsave as [[Hnone Hnew] | (old & Hold & Hnew)].
  - destruct Hfile as [[_ ->] | Hfile]; [done | congruence].
  - destruct Hfile as [[Hfile _] | Hfile]; [congruence |].
    rewrite Hfile in Hold. injection Hold as <-.
    rewrite Hnew. by rewrite map_app.
Qed.

Lemma for_business_types_tidy num total cs fuel world types : ∀ c st,
  tidy st → tidy (for_business_types num total cs fuel world c types st).2.
Proof.
  induction types as [| ty rest IH]; intros c st Hst;
    cbn [for_business_types]; [done |].
  apply after_tidy; [| intros st1 Hst1; by apply IH].
  unfold category. apply after_tidy; [| intros st1; apply flush_tidy].
  by apply search_loop_tidy.
Qed.

(** X1. However a run that found no results file ends, with whatever
    answers of the driver: the file, if it has been written, is the header
    followed by rows of pairwise different [(name, address, phone_number)]. *)
Lemma run_results_file (selected_business_types : list string)
    (num_listings : Z) (headless : bool) (cities_states : list Location)
    (world : World) (disk : gmap string node) (fuel : nat) :
  disk !! results_path = None →
  let st := (scrape_businesses selected_business_types num_listings headless
               cities_states world disk fuel).2 in
  files st !! results_path = None
  ∨ ∃ rows,
      files st !! results_path
      = Some (File (Header Business_fields :: map Row rows))
      ∧ NoDup (unique_key <$> rows).
Proof.
  intros Hnone st.
  assert (Hst : tidy st).
  { subst st. unfold scrape_businesses. apply after_tidy; [| done].
    apply for_business_types_tidy. split; [done |]. exists [].
    split; [by left |]. split; [constructor |].
    intros b Hb. by apply elem_of_nil in Hb. }
  destruct Hst as (_ & rows & [[Hfile _] | Hfile] & Hnd & _); [by left |].
  right. exists rows. split; [done |].
  rewrite fmap_app in Hnd. by apply NoDup_app in Hnd as [? _].
Qed.

(* ===================================================================== *)
(** ** What the loops keep *)
(* ===================================================================== *)

Section Keeps.

Variables num total : Z.
Variable P : State → Prop.
Hypothesis Hshow : ∀ ev st, progress_shown [ev] = [] → P st → P (show ev st).
Hypothesis Hpool : ∀ pool st, P st → P (set_pool pool st).
Hypothesis Hoffer :
  ∀ b st, listings_scraped st < num → P st → P (offer total b st).

Lemma for_listings_keeps ls : ∀ st,
  P st → P (for_listings num total ls st).2.
Proof.
  induction ls as [| listing rest IH]; intros st Hst; cbn [for_listings];
    [done |].
  destruct (num <=? listings_scraped st) eqn:Hq; [done |].
  destruct (extract_listing listing) as [b | e]; [| done].
  apply IH, Hoffer; [| done]. by apply Z.leb_gt.
Qed.

Lemma after_keeps {A} r (k : State → ending A * State) :
  P r.2 → (∀ st, P st → P (k st).2) → P (after r k).2.
Proof. intros Hr Hk. destruct r as [[u | e |] st]; simpl in *; auto. Qed.

Lemma scroll_loop_keeps view fuel : ∀ k st,
  P st → P (scroll_loop num total fuel view k st).2.
Proof.
  induction fuel as [| fuel IH]; intros k st Hst; cbn [scroll_loop].
  - by destruct (listings_scraped st <? num).
  - destruct (listings_scraped st <? num); [| done].
    destruct (listings (view k)) as [ls | e]; [| done].
    apply after_keeps; [by apply for_listings_keeps |].
    intros st1 Hst1. destruct (mouse_wheel (view k)); [| done].
    destruct (end_of_list_visible (view k)) as [[|] | e]; [done | | done].
    by apply IH.
Qed.

Lemma search_loop_keeps fuel ty script n : ∀ j st,
  P st → P (search_loop num total fuel n ty script j st).2.
Proof.
  induction n as [| n IH]; intros j st Hst; cbn [search_loop].
  - by destruct (_ && _).
  - destruct (_ && _); [| done].
    destruct (draw _ _) as [[loc rest] | e]; [| done].
    assert (Hst1 : P (show (Searching ty loc) (set_pool rest st))).
    { apply Hshow; [done |]. by apply Hpool. }
    destruct (search (script j)) as [u | e].
    2: { destruct e; try done. apply IH. by apply Hshow. }
    destruct (anchor_count (script j)) as [count | e]; [| done].
    destruct (count =? 0); [apply IH; by apply Hshow |].
    apply after_keeps; [by apply scroll_loop_keeps |].
    intros st2 Hst2. by apply IH.
Qed.

Variable cities_states : list Location.
Hypothesis Henter : ∀ ty st, P st → P (enter_category cities_states ty st).
Hypothesis Hflush : ∀ st, P st → P (flush st).2.

Lemma for_business_types_keeps fuel world types : ∀ c st,
  P st → P (for_business_types num total cities_states fuel world c types st).2.
Proof.
  induction types as [| ty rest IH]; intros c st Hst;
    cbn [for_business_types]; [done |].
  apply after_keeps; [| intros st1 Hst1; by apply IH].
  unfold category. apply after_keeps; [| done].
  by apply search_loop_keeps, Henter.
Qed.

End Keeps.

(* ===================================================================== *)
(** ** The progress bar *)
(* ===================================================================== *)

Lemma progress_shown_app a b :
  progress_shown (a ++ b) = progress_shown a ++ progress_shown b.
Proof. apply omap_app. Qed.

Lemma counted_show total ev st :
  progress_shown [ev] = [] → counted total st → counted total (show ev st).
Proof.
  intros Hev [Hp Hs]. split; [done |]. cbn [shown show progress].
  by rewrite progress_shown_app, Hev, app_nil_r.
Qed.

Lemma counted_offer total b st : counted total st → counted total (offer total b st).
Proof.
  intros [Hp Hs]. unfold offer.
  destruct (add_business (the_list st) b) as [[|] l]; [| done].
  split; cbn [progress shown]; [lia |].
  rewrite progress_shown_app, Hs. cbn.
  rewrite (seqZ_app 1 (progress st) 1), fmap_app by lia.
  by replace (1 + progress st) with (progress st + 1) by lia.
Qed.

Lemma counted_flush total st : counted total st → counted total (flush st).2.
Proof.
  intros Hst. unfold flush. destruct (business_list (the_list st)); [done |].
  by destruct (save_to_csv _ _ _ _).
Qed.

(** The state that [after] leaves is the one its first part leaves when
    that does not return, and the one its second part leaves otherwise. *)
Lemma after_elim {A} r (k : State → ending A * State) (Q : State → Prop) :
  (∀ u, r.1 = Returned u → Q (k r.2).2) →
  ((∀ u, r.1 ≠ Returned u) → Q r.2) →
  Q (after r k).2.
Proof.
  intros Hret Hstop. destruct r as [[u | e |] st]; simpl in *.
  - by apply (Hret u).
  - by apply Hstop.
  - by apply Hstop.
Qed.

Lemma flush_progress st : progress (flush st).2 = progress st.
Proof.
  unfold flush. destruct (business_list (the_list st)); [done |].
  by destruct (save_to_csv _ _ _ _).
Qed.

(* ===================================================================== *)
(** ** The quota of a category *)
(* ===================================================================== *)

Lemma within_start num st0 :
  listings_scraped st0 = 0 → within num st0 st0.
Proof.
  intros H0. unfold within. rewrite H0. repeat split; lia.
Qed.

Lemma within_offer num total st0 b st :
  listings_scraped st < num → within num st0 st →
  within num st0 (offer total b st).
Proof.
  intros Hq (Hf & Hs & Hp & Hl). unfold offer.
  destruct (decide (unique_key b ∈ seen_businesses (the_list st))) as [Hin | Hnew].
  { by rewrite add_business_seen. }
  rewrite add_business_new by done.
  unfold within.
  cbn [files listings_scraped progress the_list business_list].
  rewrite length_app. cbn [length]. repeat split; first [done | lia].
Qed.

Lemma search_loop_within num total fuel ty script n j st0 st :
  within num st0 st →
  within num st0 (search_loop num total fuel n ty script j st).2.
Proof.
  apply (search_loop_keeps num total (within num st0)); [done | done |].
  intros b st1. apply within_offer.
Qed.

(** X2. The search loop of a category writes nothing and never counts more
    records than the quota: [listings_scraped] ends between 0 and
    [num_listings], the list and [progress] have grown by just that many;
    when the loop returns with locations left, the quota is met exactly. *)
Theorem category_stays_within_quota (num total : Z)
    (cities_states : list Location) (fuel : nat) (ty : string)
    (script : nat → SearchView) (st : State) :
  let start := enter_category cities_states ty st in
  let run := search_loop num total fuel (length cities_states) ty script 0 start in
  files run.2 = files st
  ∧ 0 ≤ listings_scraped run.2 ≤ Z.max num 0
  ∧ progress run.2 = progress st + listings_scraped run.2
  ∧ Z.of_nat (length (business_list (the_list run.2)))
    = Z.of_nat (length (business_list (the_list st))) + listings_scraped run.2
  ∧ (∀ u, run.1 = Returned u → cities_states_copy run.2 ≠ [] → 0 ≤ num →
       listings_scraped run.2 = num).
Proof.
  intros start run.
  assert (Hw : within num start run.2).
  { apply search_loop_within. by apply within_start. }
  destruct Hw as (Hf & Hs & Hp & Hl).
  split; [done |]. split; [done |]. split; [done |]. split; [done |].
  intros u Hret Hpool Hnum.
  destruct (search_loop_explored num total fuel ty script
              (length cities_states) 0%nat start) as (_ & Hstop & _).
  fold run in Hstop. destruct (Hstop u Hret) as [Hmet | Hnil]; [lia | done].
Qed.

(** The run of the specification: the quota of two is met with one
    location left. *)
Lemma category_stays_within_quota_witness :
  let start := enter_category Samples.texas "Gyms" (initial_state ∅) in
  let run := search_loop 2 2 5 2 "Gyms" (Samples.gyms_world 0%nat) 0 start in
  run.1 = Returned () ∧ cities_states_copy run.2 ≠ [] ∧ 0 ≤ 2
  ∧ listings_scraped run.2 = 2.
Proof.
  intros start run.
  assert (Hret : run.1 = Returned ()) by (vm_compute; reflexivity).
  assert (Hpool : cities_states_copy run.2 ≠ [])
    by (vm_compute; discriminate).
  assert (Hnum : 0 ≤ 2) by lia.
  split; [exact Hret |]. split; [exact Hpool |]. split; [exact Hnum |].
  destruct (category_stays_within_quota 2 2 Samples.texas 5 "Gyms"
              (Samples.gyms_world 0%nat) (initial_state ∅))
    as (_ & _ & _ & _ & Hexact).
  exact (Hexact () Hret Hpool Hnum).
Defined.

Lemma category_progress num total cs fuel script ty st :
  let st' := (category num total cs fuel script ty st).2 in
  progress st ≤ progress st' ≤ progress st + Z.max num 0.
Proof.
  intros st'. subst st'. unfold category.
  pose proof (search_loop_within num total fuel ty script (length cs) 0%nat
                (enter_category cs ty st) (enter_category cs ty st)
                (within_start num (enter_category cs ty st) eq_refl))
    as (_ & Hs & Hp & _).
  cbn [enter_category progress] in Hp.
  apply after_elim.
  - intros _ _. rewrite flush_progress. lia.
  - intros _. lia.
Qed.

Lemma for_business_types_progress num total cs fuel world types : ∀ c st,
  let st' := (for_business_types num total cs fuel world c types st).2 in
  progress st ≤ progress st'
  ≤ progress st + Z.of_nat (length types) * Z.max num 0.
Proof.
  induction types as [| ty rest IH]; intros c st; cbn [for_business_types].
  - cbn. lia.
  - pose proof (category_progress num total cs fuel (world c) ty st) as Hc.
    cbn zeta in Hc. cbn [length]. apply after_elim.
    + intros _ _. specialize (IH (S c) (category num total cs fuel (world c) ty st).2).
      cbn zeta in IH. lia.
    + intros _. lia.
Qed.

(** The state that [scrape_businesses] leaves is the one in which the loop
    over the categories ended. *)
Lemma scrape_businesses_state types num headless cs world disk fuel :
  (scrape_businesses types num headless cs world disk fuel).2
  = (for_business_types num (Z.of_nat (length types) * num) cs fuel world 0
       types (initial_state disk)).2.
Proof.
  unfold scrape_businesses.
  by destruct (for_business_types _ _ _ _ _ _ _ _) as [[u | e |] st].
Qed.

Lemma counted_run total types num headless cs world disk fuel :
  total = Z.of_nat (length types) * num →
  counted total (scrape_businesses types num headless cs world disk fuel).2.
Proof.
  intros ->. unfold scrape_businesses.
  apply (after_keeps (counted _)); [| done].
  apply (for_business_types_keeps num _ (counted _)).
  - apply counted_show.
  - done.
  - intros b st _. apply counted_offer.
  - intros ty st. by apply (counted_show _ (ScrapingFor ty)).
  - apply counted_flush.
  - split; [done |]. by rewrite seqZ_nil.
Qed.

(** X3. In every run, however it ends, the progress bar has been given
    [1/total], [2/total], ... in this order, one step for each record
    counted; the count never exceeds the number of categories times the
    quota, so that every fraction shown lies above 0 and at most at 1, and
    [total_listings] is not 0 when it is divided by. *)
Theorem progress_bar_counts_up (selected_business_types : list string)
    (num_listings : Z) (headless : bool) (cities_states : list Location)
    (world : World) (disk : gmap string node) (fuel : nat) :
  let total := Z.of_nat (length selected_business_types) * num_listings in
  let st := (scrape_businesses selected_business_types num_listings headless
               cities_states world disk fuel).2 in
  progress_shown (shown st) = (λ k, (k, total)) <$> seqZ 1 (progress st)
  ∧ 0 ≤ progress st
    ≤ Z.of_nat (length selected_business_types) * Z.max num_listings 0
  ∧ Forall (λ pt, 0 < pt.1 ≤ pt.2) (progress_shown (shown st)).
Proof.
  intros total st.
  destruct (counted_run total selected_business_types num_listings headless
              cities_states world disk fuel eq_refl) as [Hp Hs].
  fold st in Hp, Hs.
  assert (Hb : progress st
               ≤ Z.of_nat (length selected_business_types) * Z.max num_listings 0).
  { subst st. rewrite scrape_businesses_state.
    pose proof (for_business_types_progress num_listings total cities_states
                  fuel world selected_business_types 0%nat (initial_state disk))
      as Hrun. cbn zeta in Hrun. cbn [initial_state progress] in Hrun.
    unfold total in Hrun. lia. }
  split; [done |]. split; [lia |].
  rewrite Hs. apply Forall_fmap, Forall_seqZ. intros k Hk. cbn.
  split; [lia |]. subst total.
  destruct (Z.max_spec num_listings 0) as [[Hlt Hm] | [Hge Hm]];
    rewrite Hm in Hb; nia.
Qed.

(* ===================================================================== *)
(** ** Where the counted records are *)
(* ===================================================================== *)

(** The run of the specification, from an empty disk. *)
Lemma run_results_file_witness :
  let st := (scrape_businesses ["Gyms"] 2 true Samples.texas
               Samples.gyms_world ∅ 5).2 in
  (∅ : gmap string node) !! results_path = None
  ∧ (files st !! results_path = None
     ∨ ∃ rows,
         files st !! results_path
         = Some (File (Header Business_fields :: map Row rows))
         ∧ NoDup (unique_key <$> rows)).
Proof.
  intros st.
  assert (Hnone : (∅ : gmap string node) !! results_path = None)
    by apply lookup_empty.
  split; [exact Hnone |].
  exact (run_results_file ["Gyms"] 2 true Samples.texas Samples.gyms_world ∅ 5
           Hnone).
Defined.

Lemma ledger_offer total b st : ledger st → ledger (offer total b st).
Proof.
  intros (Hdir & rows & Hfile & Hlen). unfold offer.
  destruct (decide (unique_key b ∈ seen_businesses (the_list st))) as [Hin | Hnew].
  { rewrite add_business_seen by done. split; [done |]. by exists rows. }
  rewrite add_business_new by done. split; [done |]. exists rows.
  cbn [files the_list business_list progress]. split; [done |].
  rewrite length_app. cbn [length]. lia.
Qed.

Lemma ledger_flush st : ledger st → ledger (flush st).2.
Proof.
  intros (Hdir & rows & Hfile & Hlen). unfold flush.
  destruct (business_list (the_list st)) as [| b0 l] eqn:Hl.
  { split; [done |]. exists rows. cbn [snd]. by rewrite Hl. }
  destruct (save_to_csv _ _ _ _) as [fs |] eqn:Hsave.
  2: { split; [done |]. exists rows. cbn [snd]. by rewrite Hl. }
  apply save_to_csv_append in Hsave. rewrite Hdir in Hsave.
  fold results_path in Hsave. cbn [snd]. split; [done |].
  exists (rows ++ b0 :: l).
  cbn [files the_list clear business_list progress]. split.
  - right. unfold dataframe in Hsave. rewrite Hl in Hsave.
    destruct Hsave as [[Hnone Hnew] | (old & Hold & Hnew)].
    + destruct Hfile as [[_ ->] | Hfile]; [done | congruence].
    + destruct Hfile as [[Hfile _] | Hfile]; [congruence |].
      rewrite Hfile in Hold. injection Hold as <-.
      rewrite Hnew. by rewrite map_app.
  - cbn [length]. by rewrite Nat.add_0_r, length_app.
Qed.

Lemma ledger_run types num headless cs world disk fuel :
  disk !! results_path = None →
  ledger (scrape_businesses types num headless cs world disk fuel).2.
Proof.
  intros Hnone. unfold scrape_businesses.
  apply (after_keeps ledger); [| done].
  apply (for_business_types_keeps num _ ledger).
  - done.
  - done.
  - intros b st _. apply ledger_offer.
  - done.
  - apply ledger_flush.
  - split; [done |]. exists []. split; [by left | done].
Qed.

(** X4. In a run that found no results file, however it ends: the records
    counted by [progress] are the rows of the results file together with
    the records still in the list.  When the run returns, the list is
    empty and the file has one row for each record counted; when it ends
    by an exception, the records of the category at hand are in the list
    only. *)
Theorem counted_records_are_rows_or_listed
    (selected_business_types : list string) (num_listings : Z)
    (headless : bool) (cities_states : list Location) (world : World)
    (disk : gmap string node) (fuel : nat) :
  disk !! results_path = None →
  let run := scrape_businesses selected_business_types num_listings headless
               cities_states world disk fuel in
  ∃ rows,
    (files run.2 !! results_path = None ∧ rows = []
     ∨ files run.2 !! results_path
       = Some (File (Header Business_fields :: map Row rows)))
    ∧ Z.of_nat (length rows + length (business_list (the_list run.2)))
      = progress run.2
    ∧ (∀ df, run.1 = Returned df → Z.of_nat (length rows) = progress run.2).
Proof.
  intros Hnone run.
  destruct (ledger_run selected_business_types num_listings headless
              cities_states world disk fuel Hnone) as (_ & rows & Hfile & Hlen).
  fold run in Hfile, Hlen. exists rows. split; [done |]. split; [done |].
  intros df Hret.
  assert (Hempty : business_list (the_list run.2) = []).
  { subst run. unfold scrape_businesses in *.
    destruct (for_business_types _ _ _ _ _ _ _ _) as [[u | e |] st] eqn:Hrun;
      [| done | done].
    by apply for_business_types_empties in Hrun. }
  rewrite Hempty in Hlen. cbn [length] in Hlen. lia.
Qed.

(** The run of the specification: two rows for two records counted. *)
Lemma counted_records_are_rows_or_listed_witness :
  let run := scrape_businesses ["Gyms"] 2 true Samples.texas
               Samples.gyms_world ∅ 5 in
  (∅ : gmap string node) !! results_path = None
  ∧ ∃ rows,
      (files run.2 !! results_path = None ∧ rows = []
       ∨ files run.2 !! results_path
         = Some (File (Header Business_fields :: map Row rows)))
      ∧ Z.of_nat (length rows + length (business_list (the_list run.2)))
        = progress run.2
      ∧ (∀ df, run.1 = Returned df → Z.of_nat (length rows) = progress run.2).
Proof.
  intros run.
  assert (Hnone : (∅ : gmap string node) !! results_path = None)
    by apply lookup_empty.
  split; [exact Hnone |].
  exact (counted_records_are_rows_or_listed ["Gyms"] 2 true Samples.texas
           Samples.gyms_world ∅ 5 Hnone).
Defined.

(* ===================================================================== *)
(** ** Runs in which nothing is harvested *)
(* ===================================================================== *)

Lemma flush_nothing st :
  business_list (the_list st) = [] → flush st = (Returned (), st).
Proof. intros H. unfold flush. by rewrite H. Qed.

Lemma category_idle num total cs fuel script ty st :
  business_list (the_list st) = [] → num ≤ 0 ∨ cs = [] →
  category num total cs fuel script ty st = (Returned (), enter_category cs ty st).
Proof.
  intros Hl Hidle. unfold category.
  rewrite search_loop_stops_at_once.
  - cbn [after]. by apply flush_nothing.
  - cbn [enter_category listings_scraped cities_states_copy].
    destruct Hidle as [Hnum | Hcs]; [by left | by right].
Qed.

Lemma for_business_types_idle num total cs fuel world types : ∀ c st,
  business_list (the_list st) = [] → num ≤ 0 ∨ cs = [] →
  for_business_types num total cs fuel world c types st
  = (Returned (), passed_through cs types st).
Proof.
  induction types as [| ty rest IH]; intros c st Hl Hidle;
    cbn [for_business_types]; [done |].
  rewrite category_idle by done. cbn [after]. by rewrite IH.
Qed.

Lemma passed_through_state cs types : ∀ st,
  the_list (passed_through cs types st) = the_list st
  ∧ progress (passed_through cs types st) = progress st
  ∧ files (passed_through cs types st) = files st
  ∧ shown (passed_through cs types st) = shown st ++ (ScrapingFor <$> types).
Proof.
  induction types as [| ty rest IH]; intros st.
  - cbn. by rewrite app_nil_r.
  - destruct (IH (enter_category cs ty st)) as (Hl & Hp & Hf & Hs).
    unfold passed_through in *. cbn [fold_left].
    rewrite Hl, Hp, Hf, Hs. cbn. by rewrite <- app_assoc.
Qed.

Lemma start_started browser headless :
  started browser headless → start browser headless = Ok ().
Proof. intros (H1 & H2 & H3). unfold start. run_bind. by rewrite H1, H2, H3. Qed.

Lemma searched_ScrapingFor types : searched (ScrapingFor <$> types) = [].
Proof. by induction types. Qed.

(** X5. Without a category, with a quota of 0 or less, or without a
    location, a call of [scrape_businesses] searches nothing, counts
    nothing and writes no file and no directory, whatever the browser
    does.  An exception of the start of the browser ends the call before
    anything is shown; when the browser starts, the "Scraping for" line of
    each category is shown and nothing else, and the call returns an empty
    table when [browser.close()] returns and raises what it raises. *)
Theorem nothing_to_do_makes_no_search (browser : Browser)
    (selected_business_types : list string)
    (num_listings : Z) (headless : bool) (cities_states : list Location)
    (world : World) (disk : gmap string node) (fuel : nat) :
  selected_business_types = [] ∨ num_listings ≤ 0 ∨ cities_states = [] →
  let run := scrape_businesses_in browser selected_business_types num_listings
               headless cities_states world disk fuel in
  files run.2 = disk
  ∧ progress run.2 = 0
  ∧ the_list run.2 = new_BusinessList
  ∧ searched (shown run.2) = []
  ∧ (∀ e, start browser headless = Raise e →
       run.1 = Raised e ∧ shown run.2 = [])
  ∧ (started browser headless →
       shown run.2 = ScrapingFor <$> selected_business_types
       ∧ (∀ e, close browser = Raise e → run.1 = Raised e)
       ∧ (close browser = Ok () →
          run.1 = Returned {| columns := []; rows := [] |})).
Proof.
  intros Hidle run.
  assert (Hloop : for_business_types num_listings
                    (Z.of_nat (length selected_business_types) * num_listings)
                    cities_states fuel world 0 selected_business_types
                    (initial_state disk)
                  = (Returned (),
                     passed_through cities_states selected_business_types
                       (initial_state disk))).
  { destruct Hidle as [-> | Hidle]; [done |].
    by apply for_business_types_idle. }
  destruct (passed_through_state cities_states selected_business_types
              (initial_state disk)) as (Hl & Hp & Hf & Hs).
  cbn [initial_state the_list progress files shown app] in Hl, Hp, Hf, Hs.
  subst run. unfold scrape_businesses_in. rewrite Hloop. cbn [after].
  destruct (start browser headless) as [u | e0] eqn:Hstart.
  - destruct (close browser) as [[] | e1] eqn:Hclose; cbn [fst snd];
      rewrite Hf, Hp, Hl, Hs, searched_ScrapingFor;
      (split; [done |]); (split; [done |]); (split; [done |]);
      (split; [done |]); (split; [by intros e |]); intros _;
      (split; [done |]); split.
    + by intros e.
    + by intros _.
    + by intros e [= <-].
    + by intros.
  - cbn [fst snd initial_state files progress the_list shown].
    split; [done |]. split; [done |]. split; [done |]. split; [done |].
    split; [by intros e [= <-] |].
    intros Hst. apply start_started in Hst. congruence.
Qed.

(** A quota of 0 in a browser that starts and closes: two categories are
    named and nothing else happens. *)
Lemma nothing_to_do_makes_no_search_witness :
  let run := scrape_businesses_in Samples.chromium ["Gyms"; "Salons"] 0 true
               Samples.texas Samples.gyms_world ∅ 5 in
  (["Gyms"; "Salons"] = [] ∨ 0 ≤ 0 ∨ Samples.texas = [])
  ∧ started Samples.chromium true
  ∧ close Samples.chromium = Ok ()
  ∧ files run.2 = ∅
  ∧ shown run.2 = [ScrapingFor "Gyms"; ScrapingFor "Salons"]
  ∧ run.1 = Returned {| columns := []; rows := [] |}.
Proof.
  intros run.
  assert (Hidle : (["Gyms"; "Salons"] : list string) = [] ∨ 0 ≤ 0
                  ∨ Samples.texas = []) by (right; left; lia).
  assert (Hstart : started Samples.chromium true) by (by repeat split).
  assert (Hclose : close Samples.chromium = Ok ()) by reflexivity.
  split; [exact Hidle |]. split; [exact Hstart |]. split; [exact Hclose |].
  destruct (nothing_to_do_makes_no_search Samples.chromium ["Gyms"; "Salons"]
              0 true Samples.texas Samples.gyms_world ∅ 5 Hidle)
    as (Hfiles & _ & _ & _ & _ & Hrun).
  destruct (Hrun Hstart) as (Hshown & _ & Hret).
  split; [exact Hfiles |]. split; [exact Hshown |]. exact (Hret Hclose).
Defined.

(** With searches that find nothing the search loop uses up the pool and
    returns, and changes nothing but the pool and the messages. *)
Lemma search_loop_barren num total fuel ty script n :
  (∀ j, barren (script j)) → ∀ j st,
  (length (cities_states_copy st) ≤ n)%nat →
  ∃ st',
    search_loop num total fuel n ty script j st = (Returned (), st')
    ∧ the_list st' = the_list st ∧ progress st' = progress st
    ∧ files st' = files st ∧ listings_scraped st' = listings_scraped st.
Proof.
  intros Hbarren. induction n as [| n IH]; intros j st Hlen; cbn [search_loop].
  - destruct (cities_states_copy st) eqn:Hpool; [| simpl in Hlen; lia].
    rewrite bool_decide_true by done. rewrite andb_false_r. by exists st.
  - destruct (_ && _) eqn:Hcond; [| by exists st].
    apply andb_true_iff in Hcond as [_ Hpool].
    apply negb_true_iff, bool_decide_eq_false in Hpool.
    destruct (draw_Ok (choice_index (script j)) _ Hpool)
      as (loc & rest & Hdraw & Hperm).
    rewrite Hdraw.
    assert (Hrest : (length rest ≤ n)%nat).
    { apply Permutation_length in Hperm. simpl in Hperm. lia. }
    destruct (Hbarren j) as [Htime | [Hok Hzero]].
    + rewrite Htime.
      destruct (IH (S j) (show (TimeoutFor ty loc)
                           (show (Searching ty loc) (set_pool rest st))))
        as (st' & Hrun & Hl & Hp & Hf & Hs); [done |].
      exists st'. by rewrite Hrun, Hl, Hp, Hf, Hs.
    + rewrite Hok, Hzero. cbn [Z.eqb].
      destruct (IH (S j) (show (NoResultsFor ty loc)
                           (show (Searching ty loc) (set_pool rest st))))
        as (st' & Hrun & Hl & Hp & Hf & Hs); [done |].
      exists st'. by rewrite Hrun, Hl, Hp, Hf, Hs.
Qed.

Lemma searched_replicate_cons (cs : list Location) a b n :
  a ≡ₚ cs → b ≡ₚ mjoin (replicate n cs) →
  a ++ b ≡ₚ mjoin (replicate (S n) cs).
Proof. intros Ha Hb. cbn. by rewrite Ha, Hb. Qed.

Lemma for_business_types_barren num total cs fuel world types :
  (∀ c j, barren (world c j)) → ∀ c st,
  business_list (the_list st) = [] →
  ∃ st',
    for_business_types num total cs fuel world c types st = (Returned (), st')
    ∧ the_list st' = the_list st ∧ progress st' = progress st
    ∧ files st' = files st
    ∧ (0 < num →
       searched (shown st')
       ≡ₚ searched (shown st) ++ mjoin (replicate (length types) cs)).
Proof.
  intros Hbarren. induction types as [| ty rest IH]; intros c st Hl;
    cbn [for_business_types].
  - exists st. repeat split; try done. intros _. cbn. by rewrite app_nil_r.
  - unfold category.
    destruct (search_loop_barren num total fuel ty (world c) (length cs)
                (Hbarren c) 0%nat (enter_category cs ty st))
      as (st1 & Hrun & Hl1 & Hp1 & Hf1 & Hs1); [done |].
    destruct (search_loop_explored num total fuel ty (world c) (length cs)
                0%nat (enter_category cs ty st))
      as ((new & Hshown & Hperm) & Hstop & _).
    rewrite Hrun in *. cbn [fst snd after] in *.
    rewrite flush_nothing by (by rewrite Hl1).
    cbn [after].
    destruct (IH (S c) st1) as (st' & Hrest & Hl' & Hp' & Hf' & Hs');
      [by rewrite Hl1 |].
    exists st'. rewrite Hrest, Hl', Hp', Hf', Hl1, Hp1, Hf1.
    repeat split; try done.
    intros Hnum. rewrite (Hs' Hnum), Hshown.
    cbn [enter_category shown cities_states_copy listings_scraped] in *.
    rewrite !searched_app. cbn [searched omap]. rewrite app_nil_r.
    rewrite <- app_assoc. apply Permutation_app_head.
    apply searched_replicate_cons; [| done].
    destruct (Hstop () eq_refl) as [Hmet | Hnil]; [lia |].
    rewrite Hnil, app_nil_r in Hperm. done.
Qed.

(** X6. When the browser starts and closes and every search of a run
    times out or shows no result anchor, [scrape_businesses] returns, with
    any bound on the scroll rounds: no record is counted, nothing is
    written, and with a quota above 0 every location is searched once in
    every category. *)
Theorem fruitless_searches_do_not_end_the_run (browser : Browser)
    (selected_business_types : list string) (num_listings : Z)
    (headless : bool) (cities_states : list Location) (world : World)
    (disk : gmap string node) (fuel : nat) :
  started browser headless → close browser = Ok () →
  (∀ c j, barren (world c j)) →
  let run := scrape_businesses_in browser selected_business_types num_listings
               headless cities_states world disk fuel in
  run.1 = Returned {| columns := []; rows := [] |}
  ∧ files run.2 = disk
  ∧ progress run.2 = 0
  ∧ (0 < num_listings →
     searched (shown run.2)
     ≡ₚ mjoin (replicate (length selected_business_types) cities_states)).
Proof.
  intros Hstart Hclose Hbarren run. subst run. unfold scrape_businesses_in.
  rewrite (start_started _ _ Hstart), Hclose.
  destruct (for_business_types_barren num_listings
              (Z.of_nat (length selected_business_types) * num_listings)
              cities_states fuel world selected_business_types Hbarren
              0%nat (initial_state disk) eq_refl)
    as (st' & Hrun & Hl & Hp & Hf & Hs).
  rewrite Hrun. cbn [after fst snd]. unfold dataframe. rewrite Hl.
  repeat split; try done.
Qed.

(** Two categories, two locations, and every search times out. *)
Lemma fruitless_searches_do_not_end_the_run_witness :
  let run := scrape_businesses_in Samples.chromium ["Gyms"; "Salons"] 2 true
               Samples.texas Samples.timeout_world ∅ 0 in
  started Samples.chromium true
  ∧ close Samples.chromium = Ok ()
  ∧ (∀ c j, barren (Samples.timeout_world c j))
  ∧ run.1 = Returned {| columns := []; rows := [] |}
  ∧ files run.2 = ∅
  ∧ progress run.2 = 0
  ∧ (0 < 2 →
     searched (shown run.2) ≡ₚ mjoin (replicate 2 Samples.texas)).
Proof.
  intros run.
  assert (Hstart : started Samples.chromium true) by (by repeat split).
  assert (Hclose : close Samples.chromium = Ok ()) by reflexivity.
  assert (Hbarren : ∀ c j, barren (Samples.timeout_world c j))
    by (intros c j; by left).
  split; [exact Hstart |]. split; [exact Hclose |]. split; [exact Hbarren |].
  exact (fruitless_searches_do_not_end_the_run Samples.chromium
           ["Gyms"; "Salons"] 2 true Samples.texas Samples.timeout_world ∅ 0
           Hstart Hclose Hbarren).
Defined.

(* ===================================================================== *)
(** ** What [save_to_csv] does to the disk *)
(* ===================================================================== *)

(** The directory as [save_to_csv] leaves it: made when no path of that
    name exists. *)
Lemma save_to_csv_by_cases self filename append fs :
  let path := csv_path (save_at self) filename in
  let made := <[save_at self := Dir]> fs in
  let table := Header (columns (dataframe self)) :: map Row (business_list self) in
  save_to_csv self filename append fs
  = match fs !! save_at self, fs !! path with
    | (None | Some Dir), None => Ok (<[path := File table]> made)
    | (None | Some Dir), Some (File old) =>
        Ok (<[path := File (if append then old ++ map Row (business_list self)
                            else table)]> made)
    | _, _ => Raise OSError
    end.
Proof.
  intros path made table. unfold save_to_csv.
  fold (csv_path (save_at self) filename). fold path.
  assert (Hne : save_at self ≠ path).
  { intros H. symmetry in H. by apply csv_path_ne in H. }
  unfold path_exists.
  destruct (fs !! save_at self) as [[| lines] |] eqn:Hd.
  - rewrite bool_decide_true by by eexists. cbn [negb]. rewrite Hd.
    assert (Hmade : made = fs) by (by apply insert_id). rewrite Hmade.
    destruct (fs !! path) as [[| old] |] eqn:Hp; [done | |].
    + rewrite bool_decide_true by by eexists.
      destruct append; unfold to_csv_lines; by cbn.
    + rewrite bool_decide_false by (by intros [? ?]).
      rewrite andb_false_r. unfold to_csv_lines. by cbn.
  - rewrite bool_decide_true by by eexists. cbn [negb]. by rewrite Hd.
  - rewrite bool_decide_false by (by intros [? ?]). cbn [negb].
    rewrite lookup_insert_eq, lookup_insert_ne by done.
    destruct (fs !! path) as [[| old] |] eqn:Hp; [done | |].
    + rewrite bool_decide_true by by eexists.
      destruct append; unfold to_csv_lines; by cbn.
    + rewrite bool_decide_false by (by intros [? ?]).
      rewrite andb_false_r. unfold to_csv_lines. by cbn.
Qed.

(** X7. For a directory and a file name that are single names (no
    nested path, as with ["output"] and ["Scraped_results"]): a call of
    [save_to_csv] that succeeds leaves the directory and the file in place
    and touches no other path; nothing that was on disk is removed.  With
    [append=False] the file is the header and the rows of the list,
    whatever it held before. *)
Theorem save_to_csv_touches_two_paths (self : BusinessList) (filename : string)
    (append : bool) (fs fs' : gmap string node) :
  path_component (save_at self) → flat_name filename →
  save_to_csv self filename append fs = Ok fs' →
  let path := csv_path (save_at self) filename in
  fs' !! save_at self = Some Dir
  ∧ (∃ lines, fs' !! path = Some (File lines))
  ∧ (∀ p, p ≠ save_at self → p ≠ path → fs' !! p = fs !! p)
  ∧ (∀ p, is_Some (fs !! p) → is_Some (fs' !! p))
  ∧ (append = false →
     fs' !! path
     = Some (File (Header (columns (dataframe self))
                   :: map Row (business_list self)))).
Proof.
  intros _ _ Hsave path. rewrite save_to_csv_by_cases in Hsave.
  fold path in Hsave.
  assert (Hne : save_at self ≠ path).
  { intros H. symmetry in H. by apply csv_path_ne in H. }
  assert (Hshape : ∃ lines,
            fs' = <[path := File lines]> (<[save_at self := Dir]> fs)
            ∧ (append = false →
               lines = Header (columns (dataframe self))
                       :: map Row (business_list self))).
  { destruct (fs !! save_at self) as [[| ?] |];
      destruct (fs !! path) as [[| old] |]; try done;
      injection Hsave as <-; eexists; split; try done.
    all: by intros ->. }
  destruct Hshape as (lines & -> & Hlines).
  split; [by rewrite lookup_insert_ne, lookup_insert_eq |].
  split; [exists lines; by rewrite lookup_insert_eq |].
  split; [intros p Hp1 Hp2; by rewrite !lookup_insert_ne |].
  split.
  - intros p Hp. destruct (decide (p = path)) as [-> | Hp1].
    { rewrite lookup_insert_eq. by eexists. }
    rewrite lookup_insert_ne by done.
    destruct (decide (p = save_at self)) as [-> | Hp2].
    { rewrite lookup_insert_eq. by eexists. }
    by rewrite lookup_insert_ne.
  - intros Happ. by rewrite lookup_insert_eq, (Hlines Happ).
Qed.

(** One record is written over an old file, beside a file of another
    name. *)
Lemma save_to_csv_touches_two_paths_witness :
  let self := {| business_list := [Samples.iron_gym]; save_at := "output";
                 seen_businesses := ∅ |} in
  let fs : gmap string node :=
    {[ "output" := Dir; "output/Scraped_results.csv" := File [Row Samples.flex_gym];
       "notes.txt" := File [] ]} in
  let fs' : gmap string node :=
    {[ "output" := Dir;
       "output/Scraped_results.csv"
         := File [Header Business_fields; Row Samples.iron_gym];
       "notes.txt" := File [] ]} in
  path_component (save_at self) ∧ flat_name "Scraped_results"
  ∧ save_to_csv self "Scraped_results" false fs = Ok fs'
  ∧ fs' !! "output" = Some Dir
  ∧ fs' !! "notes.txt" = fs !! "notes.txt"
  ∧ fs' !! "output/Scraped_results.csv"
    = Some (File [Header Business_fields; Row Samples.iron_gym]).
Proof.
  intros self fs fs'.
  assert (Hsave : save_to_csv self "Scraped_results" false fs = Ok fs')
    by (vm_compute; reflexivity).
  assert (Hdir0 : path_component (save_at self)).
  { split; [| by repeat split].
    repeat (constructor; [by split |]). constructor. }
  assert (Hname : flat_name "Scraped_results").
  { repeat (constructor; [by split |]). constructor. }
  split; [exact Hdir0 |]. split; [exact Hname |]. split; [exact Hsave |].
  destruct (save_to_csv_touches_two_paths self "Scraped_results" false fs fs'
              Hdir0 Hname Hsave) as (Hdir & _ & Hframe & _ & Hover).
  split; [exact Hdir |]. split.
  - by apply Hframe.
  - exact (Hover eq_refl).
Defined.

(* ===================================================================== *)
(** ** The name of a business *)
(* ===================================================================== *)

Lemma lstrip_split s :
  ∃ pre, s = pre ++ lstrip s
         ∧ match lstrip s with
           | c :: _ => is_space c = false
           | [] => True
           end.
Proof.
  induction s as [| c s (pre & Hpre & Hhead)]; [by exists [] |].
  cbn [lstrip]. destruct (is_space c) eqn:Hc.
  - exists (c :: pre). split; [by rewrite Hpre at 1 | done].
  - by exists [].
Qed.

Lemma last_rev {A} (l : list A) : last (rev l) = head l.
Proof. destruct l as [| x l]; [done |]. simpl. by rewrite last_snoc. Qed.

Lemma strip_trimmed s : trimmed (strip s).
Proof.
  unfold strip, rstrip.
  destruct (lstrip_split s) as (_ & _ & Hhead).
  destruct (lstrip_split (rev (lstrip s))) as (pre & Hpre & Hlast).
  split.
  - apply (f_equal (@rev ascii)) in Hpre.
    rewrite rev_involutive, rev_app_distr in Hpre.
    destruct (rev (lstrip (rev (lstrip s)))) as [| c r]; [done |].
    rewrite Hpre in Hhead. exact Hhead.
  - rewrite last_rev. by destruct (lstrip (rev (lstrip s))).
Qed.

Lemma starts_with_app_long p : ∀ s t,
  (length p ≤ length s)%nat → starts_with p (s ++ t) = starts_with p s.
Proof.
  induction p as [| a p IH]; intros [| b s] t Hlen; simpl in *;
    [done | done | lia |].
  rewrite IH by lia. done.
Qed.

Lemma starts_with_app_short : ∀ s p t,
  (length s ≤ length p)%nat → starts_with p (s ++ t) = true →
  starts_with (drop (length s) p) t = true.
Proof.
  induction s as [| b s IH]; intros p t Hlen Hst; [done |].
  destruct p as [| a p]; [simpl in Hlen; lia |].
  simpl in Hst. apply andb_true_iff in Hst as [_ Hst].
  simpl in Hlen. apply IH; [lia | done].
Qed.

(** The marker does not overlap with itself. *)
Lemma visited_link_borderless a :
  (0 < a < 15)%nat → starts_with (drop a visited_link) visited_link = false.
Proof.
  intros Ha.
  assert (Hall : forallb (λ a, negb (starts_with (drop a visited_link)
                                       visited_link)) (seq 1 14) = true)
    by (vm_compute; reflexivity).
  rewrite forallb_forall in Hall.
  apply negb_true_iff, Hall, in_seq. lia.
Qed.

Lemma find_app_visited_link : ∀ n,
  find visited_link n = None →
  find visited_link (n ++ visited_link) = Some (length n).
Proof.
  induction n as [| c n IH]; intros Hfree; [vm_compute; reflexivity |].
  rewrite find_unfold in Hfree.
  destruct (starts_with visited_link (c :: n)) eqn:Hst; [done |].
  destruct (find visited_link n) eqn:Hf; [done |].
  rewrite find_unfold.
  assert (Hnot : starts_with visited_link ((c :: n) ++ visited_link) = false).
  { destruct (decide (15 ≤ length (c :: n))%nat) as [Hlong | Hshort].
    - by rewrite starts_with_app_long.
    - destruct (starts_with visited_link ((c :: n) ++ visited_link)) eqn:E;
        [| done].
      apply starts_with_app_short in E; [| change (length visited_link) with 15%nat; lia].
      rewrite visited_link_borderless in E; [done |]. simpl in *. lia. }
  rewrite Hnot. cbn [app]. by rewrite IH.
Qed.

Lemma replace_absent old new s : find old s = None → replace old new s = s.
Proof.
  intros H. unfold replace. destruct (length s); cbn [replace_rounds];
    by rewrite ?H.
Qed.

Lemma replace_visited_link_at_end n :
  find visited_link n = None → replace visited_link [] (n ++ visited_link) = n.
Proof.
  intros Hfree. unfold replace. rewrite length_app.
  change (length visited_link) with 15%nat.
  replace (length n + 15)%nat with (S (length n + 14)) by lia.
  cbn [replace_rounds]. rewrite find_app_visited_link by done.
  rewrite take_app_length, drop_ge
    by (rewrite length_app; change (length visited_link) with 15%nat; lia).
  cbn [app]. destruct (length n + 14)%nat; cbn [replace_rounds];
    [by rewrite app_nil_r |].
  change (find visited_link []) with (@None nat). by rewrite app_nil_r.
Qed.

Lemma of_string_app a b : of_string (a +:+ b) = of_string a ++ of_string b.
Proof. induction a as [| c a IH]; [done |]. simpl. by rewrite <- IH. Qed.

(** X8. A cleaned name has no white space at its start or at its end.  A
    name without the marker [" · Visited link"] is stripped and otherwise
    kept, and the marker at the end of such a name is taken away with the
    white space before it. *)
Theorem clean_business_name_trims_and_unmarks (name : string) :
  trimmed (of_string (clean_business_name name))
  ∧ (find visited_link (of_string name) = None →
     clean_business_name name = to_string (strip (of_string name))
     ∧ clean_business_name (name +:+ to_string visited_link)
       = to_string (strip (of_string name))).
Proof.
  unfold clean_business_name. split.
  - rewrite of_to_string. apply strip_trimmed.
  - intros Hfree. split.
    + by rewrite replace_absent.
    + rewrite of_string_app, of_to_string.
      by rewrite replace_visited_link_at_end.
Qed.

(** A label as the map shows it for a place seen before. *)
Lemma clean_business_name_trims_and_unmarks_witness :
  find visited_link (of_string "Iron Gym ") = None
  ∧ clean_business_name "Iron Gym " = "Iron Gym"
  ∧ clean_business_name ("Iron Gym " +:+ to_string visited_link) = "Iron Gym".
Proof.
  assert (Hfree : find visited_link (of_string "Iron Gym ") = None)
    by reflexivity.
  split; [exact Hfree |].
  exact (proj2 (clean_business_name_trims_and_unmarks "Iron Gym ") Hfree).
Defined.

(* ===================================================================== *)
(** ** Coordinates come in pairs *)
(* ===================================================================== *)

Lemma coordinates_of_tokens coordinates t0 more :
  split (of_string ",") coordinates = t0 :: more →
  match Py.float t0, more with
  | Some lat, t1 :: _ =>
      match Py.float t1 with
      | Some lng => (Some lat, Some lng)
      | None => (None, None)
      end
  | _, _ => (None, None)
  end = coordinates_of coordinates.
Proof.
  intros Htok. unfold coordinates_of. rewrite Htok.
  destruct more as [| t1 more]; [by destruct (Py.float t0) |].
  by destruct (Py.float t0), (Py.float t1).
Qed.

Lemma coordinates_of_pair coordinates :
  coordinates_of coordinates = (None, None)
  ∨ ∃ lat lng, coordinates_of coordinates = (Some lat, Some lng).
Proof.
  unfold coordinates_of.
  destruct (split _ coordinates) as [| t0 [| t1 more]]; [by left | by left |].
  destruct (Py.float t0) as [lat |]; [| by left].
  destruct (Py.float t1) as [lng |]; [| by left].
  right. by exists lat, lng.
Qed.

Lemma extract_coordinates_of_segment url segment :
  last (split slash_at (of_string url)) = Some segment →
  extract_coordinates_from_url url
  = Ok (coordinates_of (until "/" segment)).
Proof.
  intros Hseg.
  destruct (split_char_head "/" segment) as [rest Hcoord].
  destruct (split_char_head "," (until "/" segment)) as [more Htok].
  rewrite (extract_coordinates_by_tokens url segment _ _ _ _ Hseg Hcoord Htok).
  f_equal. by apply coordinates_of_tokens.
Qed.

Lemma split_rounds_last n sep s : is_Some (last (split_rounds n sep s)).
Proof.
  revert s. induction n as [| n IH]; intros s; cbn [split_rounds];
    [by eexists |].
  destruct (find sep s) as [i |]; [| by eexists].
  destruct (IH (drop (i + length sep) s)) as [x Hx].
  exists x. by apply last_cons_Some.
Qed.

(** X9. The coordinates are read from the text between the last ["/@"] of
    the address and the next ["/"], whatever stands before and after, and
    they are both there or both [None]: no record has a latitude without a
    longitude. *)
Theorem coordinates_come_in_pairs :
  (∀ url, ∃ r, extract_coordinates_from_url url = Ok r
               ∧ (r = (None, None) ∨ ∃ lat lng, r = (Some lat, Some lng)))
  ∧ (∀ pre segment,
       find slash_at segment = None →
       extract_coordinates_from_url (to_string (pre ++ slash_at ++ segment))
       = Ok (coordinates_of (until "/" segment)))
  ∧ (∀ url,
       find slash_at (of_string url) = None →
       extract_coordinates_from_url url
       = Ok (coordinates_of (until "/" (of_string url)))).
Proof.
  split; [| split].
  - intros url.
    destruct (split_rounds_last (length (of_string url)) slash_at (of_string url))
      as [segment Hseg].
    exists (coordinates_of (until "/" segment)).
    split; [by apply extract_coordinates_of_segment |].
    apply coordinates_of_pair.
  - intros pre segment Hfree. apply extract_coordinates_of_segment.
    rewrite of_to_string. by apply last_segment.
  - intros url Hfree. apply extract_coordinates_of_segment.
    by rewrite split_none.
Qed.

(** The address of a place, with a zoom level and data after the pair. *)
Lemma coordinates_come_in_pairs_witness :
  let pre := of_string "https://www.google.com/maps/place/Iron+Gym" in
  let segment := of_string "30.2672,-97.7431,17z/data=!3m1!4b1" in
  find slash_at segment = None
  ∧ extract_coordinates_from_url (to_string (pre ++ slash_at ++ segment))
    = Ok (Some (Fdec false 302672 (-4)), Some (Fdec true 977431 (-4))).
Proof.
  intros pre segment.
  assert (Hfree : find slash_at segment = None) by reflexivity.
  split; [exact Hfree |].
  exact (proj1 (proj2 coordinates_come_in_pairs) pre segment Hfree).
Defined.

(* ===================================================================== *)
(** ** What the two patterns match is always converted *)
(* ===================================================================== *)

Lemma span_digits_cut : ∀ s d r,
  span_digits s = (d, r) →
  s = d ++ r ∧ Forall (λ c, is_digit c = true) d
  ∧ match r with
    | c :: _ => is_digit c = false
    | [] => True
    end.
Proof.
  induction s as [| c s IH]; intros d r; cbn [span_digits].
  - by intros [= <- <-].
  - destruct (is_digit c) eqn:Hc.
    + destruct (span_digits s) as [d' r'] eqn:Hs. intros [= <- <-].
      destruct (IH d' r' eq_refl) as (-> & Hd & Hr).
      split; [done |]. split; [by constructor | done].
    + by intros [= <- <-].
Qed.

Lemma span_digits_app d r :
  Forall (λ c, is_digit c = true) d →
  match r with
  | c :: _ => is_digit c = false
  | [] => True
  end →
  span_digits (d ++ r) = (d, r).
Proof.
  intros Hd Hr. induction Hd as [| c d Hc Hd IH]; cbn [app span_digits].
  - destruct r as [| c r]; [done |]. cbn [span_digits]. by rewrite Hr.
  - by rewrite Hc, IH.
Qed.

Lemma re_digits_spec s d r :
  re_digits s = Some (d, r) →
  d ≠ [] ∧ s = d ++ r ∧ Forall (λ c, is_digit c = true) d.
Proof.
  unfold re_digits. destruct (span_digits s) as [d' r'] eqn:Hs.
  apply span_digits_cut in Hs as (Hs & Hd & _).
  destruct d' as [| c d']; [done |]. by intros [= <- <-].
Qed.

(** The texts of the pattern [\d+\.\d+|\d+]: digits, or digits, a point
    and digits. *)
Lemma re_search_number_shape : ∀ s m,
  re_search_number s = Some m →
  ∃ d1 d2,
    d1 ≠ [] ∧ Forall (λ c, is_digit c = true) d1
    ∧ Forall (λ c, is_digit c = true) d2
    ∧ (m = d1 ∧ d2 = [] ∨ m = d1 ++ "."%char :: d2 ∧ d2 ≠ []).
Proof.
  assert (Hat : ∀ s m, re_number_at s = Some m →
            ∃ d1 d2,
              d1 ≠ [] ∧ Forall (λ c, is_digit c = true) d1
              ∧ Forall (λ c, is_digit c = true) d2
              ∧ (m = d1 ∧ d2 = [] ∨ m = d1 ++ "."%char :: d2 ∧ d2 ≠ [])).
  { intros s m. unfold re_number_at, re_decimal.
    destruct (re_digits s) as [[d1 r] |] eqn:H1; cbn; [| done].
    apply re_digits_spec in H1 as (Hne1 & _ & Hd1).
    assert (Hplain : Some d1 = Some m →
              ∃ d1 d2,
                d1 ≠ [] ∧ Forall (λ c, is_digit c = true) d1
                ∧ Forall (λ c, is_digit c = true) d2
                ∧ (m = d1 ∧ d2 = [] ∨ m = d1 ++ "."%char :: d2 ∧ d2 ≠ [])).
    { intros [= <-]. exists d1, []. repeat split; try done. by left. }
    destruct r as [| c r']; [done |].
    destruct (eqc c ".") eqn:Hc; [| done].
    destruct (re_digits r') as [[d2 r2] |] eqn:H2; cbn; [| done].
    apply re_digits_spec in H2 as (Hne2 & _ & Hd2).
    intros [= <-]. exists d1, d2. repeat split; try done. by right. }
  induction s as [| c s IH]; intros m; cbn [re_search_number].
  - destruct (re_number_at []) eqn:H; [| done]. intros [= <-]. by eapply Hat.
  - destruct (re_number_at (c :: s)) eqn:H; [| by apply IH].
    intros [= <-]. by eapply Hat.
Qed.

(** What [float] looks at in a digit and in the point. *)
Lemma digit_or_point_facts c :
  is_digit c = true ∨ c = "."%char →
  float_blank c = c ∧ lower c = c ∧ is_ascii_space c = false
  ∧ eqc c "_" = false.
Proof.
  destruct c as [[] [] [] [] [] [] [] []]; vm_compute; intros [H | H];
    first [discriminate H | done].
Qed.

Lemma digit_facts c :
  is_digit c = true →
  eqc c "+" = false ∧ eqc c "-" = false ∧ c ≠ "i"%char ∧ c ≠ "n"%char.
Proof.
  destruct c as [[] [] [] [] [] [] [] []]; vm_compute; intros H;
    first [discriminate H | done].
Qed.

Lemma underscores_ok_free : ∀ s prev,
  eqc prev "_" = false → Forall (λ c, eqc c "_" = false) s →
  underscores_ok prev s = true.
Proof.
  induction s as [| c s IH]; intros prev Hprev Hs; cbn [underscores_ok].
  - by rewrite Hprev.
  - apply Forall_cons in Hs as [Hc Hs]. rewrite Hc, Hprev. cbn.
    by apply IH.
Qed.

Lemma lstrip_ascii_id s :
  match s with
  | c :: _ => is_ascii_space c = false
  | [] => True
  end → lstrip_ascii s = s.
Proof. destruct s as [| c s]; [done |]. cbn. by intros ->. Qed.

Lemma map_fixed {A} (f : A → A) (l : list A) :
  Forall (λ x, f x = x) l → map f l = l.
Proof. induction 1 as [| x l Hx _ IH]; [done |]. cbn. by rewrite Hx, IH. Qed.

Lemma filter_no_underscore (l : chars) :
  Forall (λ c, eqc c "_" = false) l →
  List.filter (λ c, negb (eqc c "_")) l = l.
Proof.
  induction 1 as [| x l Hx _ IH]; [done |]. cbn. rewrite Hx. cbn.
  by rewrite IH.
Qed.

(** [float] reads digits, and digits with a point between them, as the
    decimal that they write. *)
Lemma float_of_digits d1 d2 m :
  d1 ≠ [] → Forall (λ c, is_digit c = true) d1 →
  Forall (λ c, is_digit c = true) d2 →
  m = d1 ∧ d2 = [] ∨ m = d1 ++ "."%char :: d2 ∧ d2 ≠ [] →
  Py.float m
  = Some (Fdec false (digits_value (d1 ++ d2)) (- Z.of_nat (length d2))).
Proof.
  intros Hne Hd1 Hd2 Hm.
  assert (Hall : Forall (λ c, is_digit c = true ∨ c = "."%char) m).
  { destruct Hm as [[-> _] | [-> _]].
    - eapply Forall_impl; [exact Hd1 |]. by left.
    - apply Forall_app. split; [eapply Forall_impl; [exact Hd1 |]; by left |].
      constructor; [by right |]. eapply Forall_impl; [exact Hd2 |]. by left. }
  assert (Hhead : ∃ c r, m = c :: r ∧ is_digit c = true).
  { destruct d1 as [| c d1]; [done |]. apply Forall_cons in Hd1 as [Hc _].
    destruct Hm as [[-> _] | [-> _]]; by eexists _, _. }
  destruct Hhead as (c & r & Hcr & Hc).
  unfold Py.float.
  assert (Hblank : map float_blank m = m).
  { apply map_fixed. eapply Forall_impl; [exact Hall |]. intros x Hx.
    by destruct (digit_or_point_facts x Hx) as (-> & _). }
  assert (Hlower : map lower m = m).
  { apply map_fixed. eapply Forall_impl; [exact Hall |]. intros x Hx.
    by destruct (digit_or_point_facts x Hx) as (_ & -> & _). }
  assert (Hfree : Forall (λ c, eqc c "_" = false) m).
  { eapply Forall_impl; [exact Hall |]. intros x Hx.
    by destruct (digit_or_point_facts x Hx) as (_ & _ & _ & ->). }
  assert (Hunder : drop_underscores m = Some m).
  { unfold drop_underscores. rewrite underscores_ok_free by done. f_equal.
    by apply filter_no_underscore. }
  rewrite Hblank, Hunder. cbn [mbind option_bind].
  assert (Hstrip : strip_ascii m = m).
  { unfold strip_ascii.
    rewrite (lstrip_ascii_id m).
    2:{ rewrite Hcr.
        by destruct (digit_or_point_facts c (or_introl Hc)) as (_ & _ & -> & _). }
    rewrite lstrip_ascii_id; [apply rev_involutive |].
    destruct (rev m) as [| x l] eqn:Hrev; [done |].
    assert (Hx : x ∈ m).
    { apply elem_of_rev. rewrite Hrev. apply elem_of_cons. by left. }
    rewrite Forall_forall in Hall.
    by destruct (digit_or_point_facts x (Hall x Hx)) as (_ & _ & -> & _). }
  rewrite Hstrip.
  destruct (digit_facts c Hc) as (Hplus & Hminus & Hi & Hn).
  assert (Hsign : take_sign m = (false, m)).
  { rewrite Hcr. cbn. by rewrite Hplus, Hminus. }
  rewrite Hsign, Hlower.
  rewrite !bool_decide_false.
  2:{ rewrite Hcr. intros [= -> _]. done. }
  2:{ rewrite Hcr. intros [= -> _]. done. }
  2:{ rewrite Hcr. intros [= -> _]. done. }
  cbn [orb]. unfold float_number.
  destruct Hm as [[-> ->] | [-> Hne2]].
  - rewrite <- (app_nil_r d1) at 1. rewrite span_digits_app by done.
    rewrite bool_decide_false by (by rewrite app_nil_r). done.
  - rewrite span_digits_app by done.
    change (eqc "." ".") with true. cbn iota.
    rewrite <- (app_nil_r d2) at 1. rewrite span_digits_app by done.
    rewrite bool_decide_false; [done |].
    intros H. apply app_eq_nil in H as [H _]. done.
Qed.

Lemma reviews_average_total reviews_avg :
  ∃ m e, reviews_average_of reviews_avg = Ok (Fdec false m e) ∧ e ≤ 0.
Proof.
  unfold reviews_average_of.
  destruct (truthy reviews_avg); [| by exists 0%N, 0].
  destruct (re_search_number _) as [m |] eqn:Hm; [| by exists 0%N, 0].
  apply re_search_number_shape in Hm as (d1 & d2 & Hne & Hd1 & Hd2 & Hm).
  unfold float_of. rewrite (float_of_digits d1 d2 m) by done.
  eexists _, _. split; [done | lia].
Qed.

Lemma replace_rounds_shrinks old n : ∀ s,
  (length (replace_rounds n old [] s) ≤ length s)%nat.
Proof.
  induction n as [| n IH]; intros s; cbn [replace_rounds]; [done |].
  destruct (find old s) as [i |]; [| done].
  cbn [app]. rewrite length_app, length_take.
  pose proof (IH (drop (i + length old) s)) as Hle.
  rewrite length_drop in Hle. lia.
Qed.

Lemma re_search_digits_length : ∀ s d,
  re_search_digits s = Some d → (length d ≤ length s)%nat.
Proof.
  induction s as [| c s IH]; intros d; cbn [re_search_digits].
  - destruct (re_digits []) as [[d' r] |] eqn:H; [| done].
    intros [= <-]. apply re_digits_spec in H as (_ & H & _).
    apply (f_equal length) in H. rewrite length_app in H. lia.
  - destruct (re_digits (c :: s)) as [[d' r] |] eqn:H.
    + intros [= <-]. apply re_digits_spec in H as (_ & H & _).
      apply (f_equal length) in H. rewrite length_app in H. lia.
    + intros Hd. apply IH in Hd. simpl. lia.
Qed.

Lemma of_string_length s : length (of_string s) = String.length s.
Proof. induction s as [| c s IH]; [done |]. simpl. by rewrite <- IH. Qed.

Lemma reviews_count_total text :
  (String.length text ≤ 4300)%nat →
  ∃ n, reviews_count_of text = Ok n ∧ 0 ≤ n.
Proof.
  intros Hlen. unfold reviews_count_of.
  destruct (truthy (Some text)); [| by exists 0].
  destruct (re_search_digits _) as [d |] eqn:Hd; [| by exists 0].
  apply re_search_digits_length in Hd.
  pose proof (replace_rounds_shrinks (of_string ",")
                (length (of_string text)) (of_string text)) as Hle.
  unfold replace in Hd. rewrite of_string_length in *.
  unfold int_of_digits.
  rewrite (proj2 (Z.ltb_ge 4300 (Z.of_nat (length d)))) by lia.
  eexists. split; [done | lia].
Qed.

Lemma or_else_filled x d : d ≠ EmptyString → or_else x d ≠ EmptyString.
Proof. by destruct x. Qed.

(** X10. When every read of the driver on a listing returns, and the text
    of the reviews button is not longer than 4300 characters,
    [extract_listing] gives a record: the conversions of the rating and of
    the count never raise.  The record has a name, an address, a web site
    and a phone that are not empty, a count and a rating that are not
    negative, and both coordinates or none. *)
Theorem answering_listing_is_read (listing : ListingView) :
  answering listing →
  ∃ b, extract_listing listing = Ok b
       ∧ is_Some (name b)
       ∧ address b ≠ EmptyString ∧ website b ≠ EmptyString
       ∧ phone_number b ≠ EmptyString
       ∧ 0 ≤ reviews_count b
       ∧ (∃ m e, reviews_average b = Fdec false m e ∧ e ≤ 0)
       ∧ (latitude b = None ↔ longitude b = None).
Proof.
  intros ([u Hclick] & [label Hlabel] & [a Ha] & [w Hw] & [p Hp]
          & [rating Hrating] & text & Htext & Hlen).
  destruct (reviews_average_total rating) as (m & e & Havg & He).
  destruct (reviews_count_total text Hlen) as (n & Hcount & Hn).
  destruct (extract_coordinates_total (page_url listing)) as [[lat lng] Hxy].
  assert (Hpair : lat = None ↔ lng = None).
  { destruct (split_rounds_last (length (of_string (page_url listing)))
                slash_at (of_string (page_url listing))) as [segment Hseg].
    apply extract_coordinates_of_segment in Hseg.
    rewrite Hxy in Hseg. injection Hseg as Hseg.
    destruct (coordinates_of_pair (until "/" segment)) as [Hc | (x & y & Hc)];
      rewrite Hc in Hseg; injection Hseg as -> ->; done. }
  eexists. split.
  - unfold extract_listing. run_bind.
    rewrite Hclick, Hlabel, Ha, Hw, Hp, Hrating. cbn [Py.bind].
    rewrite Havg, Htext. cbn [Py.bind]. rewrite Hcount. cbn [Py.bind].
    rewrite Hxy. reflexivity.
  - cbn. split; [by eexists |].
    split; [by apply or_else_filled |].
    split; [by apply or_else_filled |].
    split; [by apply or_else_filled |].
    split; [done |]. split; [by exists m, e | done].
Qed.

(** A listing of which only the page address can be read as text. *)
Lemma answering_listing_is_read_witness :
  answering Samples.nameless_b
  ∧ ∃ b, extract_listing Samples.nameless_b = Ok b
         ∧ is_Some (name b)
         ∧ address b ≠ EmptyString ∧ website b ≠ EmptyString
         ∧ phone_number b ≠ EmptyString
         ∧ 0 ≤ reviews_count b
         ∧ (∃ m e, reviews_average b = Fdec false m e ∧ e ≤ 0)
         ∧ (latitude b = None ↔ longitude b = None).
Proof.
  assert (Hans : answering Samples.nameless_b).
  { repeat split; try (by eexists).
    eexists. split; [reflexivity |]. simpl. lia. }
  split; [exact Hans |].
  exact (answering_listing_is_read Samples.nameless_b Hans).
Defined.

(* ===================================================================== *)
(** ** A run raises only what the driver or the disk raise *)
(* ===================================================================== *)

Lemma for_listings_steady num total ls :
  Forall answering ls →
  ∀ st, ∃ st', for_listings num total ls st = (Returned (), st').
Proof.
  induction 1 as [| listing rest Hl _ IH]; intros st; cbn [for_listings];
    [by eexists |].
  destruct (num <=? listings_scraped st); [by eexists |].
  destruct Hl as ([u Hclick] & [label Hlabel] & [a Ha] & [w Hw] & [p Hp]
                  & [rating Hrating] & text & Htext & Hlen).
  destruct (reviews_average_total rating) as (m & e & Havg & _).
  destruct (reviews_count_total text Hlen) as (n & Hcount & _).
  destruct (extract_coordinates_total (page_url listing)) as [[lat lng] Hxy].
  assert (Hb : ∃ b, extract_listing listing = Ok b).
  { eexists. unfold extract_listing. run_bind.
    rewrite Hclick, Hlabel, Ha, Hw, Hp, Hrating. cbn [Py.bind].
    rewrite Havg, Htext. cbn [Py.bind]. rewrite Hcount. cbn [Py.bind].
    rewrite Hxy. reflexivity. }
  destruct Hb as [b ->]. apply IH.
Qed.

Lemma scroll_loop_steady num total view :
  (∀ k, steady_page (view k)) →
  ∀ fuel k st e, (scroll_loop num total fuel view k st).1 ≠ Raised e.
Proof.
  intros Hview. induction fuel as [| fuel IH]; intros k st e;
    cbn [scroll_loop].
  - by destruct (listings_scraped st <? num).
  - destruct (listings_scraped st <? num); [| done].
    destruct (Hview k) as ((ls & Hls & Hall) & [u Hwheel] & [b Hend]).
    rewrite Hls.
    destruct (for_listings_steady num total ls Hall st) as [st1 ->].
    cbn [after]. rewrite Hwheel, Hend. destruct b; [done | apply IH].
Qed.

Lemma after_no_raise {A} r (k : State → ending A * State) e :
  (∀ e', r.1 ≠ Raised e') → (∀ st e', (k st).1 ≠ Raised e') →
  (after r k).1 ≠ Raised e.
Proof.
  intros Hr Hk. destruct r as [[u | e' |] st]; cbn [after fst] in *;
    [apply Hk | by destruct (Hr e') | done].
Qed.

Lemma search_loop_steady num total fuel ty script :
  (∀ j, steady_search (script j)) →
  ∀ n j st e, (search_loop num total fuel n ty script j st).1 ≠ Raised e.
Proof.
  intros Hscript. induction n as [| n IH]; intros j st e; cbn [search_loop].
  - by destruct (_ && _).
  - destruct (_ && _) eqn:Hcond; [| done].
    apply andb_true_iff in Hcond as [_ Hpool].
    apply negb_true_iff, bool_decide_eq_false in Hpool.
    destruct (draw_Ok (choice_index (script j)) _ Hpool)
      as (loc & rest & -> & _).
    destruct (Hscript j) as [-> | ([u ->] & [count ->] & Hpages)];
      [apply IH |].
    destruct (count =? 0); [apply IH |].
    apply after_no_raise; [| intros st2 e'; apply IH].
    intros e'. by apply scroll_loop_steady.
Qed.

Lemma writable_saved fs lines :
  writable (<[results_path := File lines]> (<["output" := Dir]> fs)).
Proof.
  split; right.
  - rewrite lookup_insert_ne by apply csv_path_ne. by rewrite lookup_insert_eq.
  - exists lines. by rewrite lookup_insert_eq.
Qed.

Lemma flush_writable st :
  writable (files st) → save_at (the_list st) = "output" →
  ∃ st', flush st = (Returned (), st')
         ∧ writable (files st') ∧ save_at (the_list st') = "output".
Proof.
  intros Hw Hat. unfold flush.
  destruct (business_list (the_list st)) as [| b l] eqn:Hl; [by exists st |].
  rewrite save_to_csv_by_cases, Hat. fold results_path.
  destruct Hw as [[Hd | Hd] [Hp | [old Hp]]]; rewrite Hd, Hp;
    eexists; (split; [reflexivity |]); cbn [files the_list clear save_at];
    (split; [apply writable_saved | done]).
Qed.

Lemma offer_disk total b st :
  files (offer total b st) = files st
  ∧ save_at (the_list (offer total b st)) = save_at (the_list st).
Proof.
  unfold offer, add_business. by case_decide.
Qed.

Lemma for_business_types_steady num total cs fuel world types :
  (∀ c j, steady_search (world c j)) →
  ∀ c st e,
    writable (files st) → save_at (the_list st) = "output" →
    (for_business_types num total cs fuel world c types st).1 ≠ Raised e.
Proof.
  intros Hworld.
  set (P := λ st : State,
              writable (files st) ∧ save_at (the_list st) = "output").
  induction types as [| ty rest IH]; intros c st e Hw Hat;
    cbn [for_business_types]; [done |].
  unfold category.
  assert (Hsearch : P (search_loop num total fuel (length cs) ty (world c) 0
                         (enter_category cs ty st)).2).
  { apply (search_loop_keeps num total P); try done.
    intros b st0 _ [Hw0 Hat0].
    destruct (offer_disk total b st0) as [Hf Hs]. unfold P.
    by rewrite Hf, Hs. }
  pose proof (search_loop_steady num total fuel ty (world c) (Hworld c)
                (length cs) 0%nat (enter_category cs ty st)) as Hno.
  destruct (search_loop _ _ _ _ _ _ _ _) as [[u | e' |] st1];
    cbn [after fst snd] in *; [| by destruct (Hno e') | done].
  destruct Hsearch as [Hw1 Hat1].
  destruct (flush_writable st1 Hw1 Hat1) as (st2 & -> & Hw2 & Hat2).
  cbn [after]. by apply IH.
Qed.



(* ===================================================================== *)
(** ** A run returns when every list of results comes to its end *)
(* ===================================================================== *)

Lemma scroll_loop_stops_by num total view n : ∀ fuel k st,
  (n < fuel)%nat → end_of_list_visible (view (k + n)%nat) = Ok true →
  (scroll_loop num total fuel view k st).1 ≠ Unfinished.
Proof.
  induction n as [| n IH]; intros fuel k st Hfuel Hend;
    (destruct fuel as [| fuel]; [lia |]);
    (destruct (Z.lt_ge_cases (listings_scraped st) num) as [Hq | Hq];
      [| by rewrite scroll_loop_quota_met]);
    (destruct (listings (view k)) as [ls | e] eqn:Hls;
      [| cbn [scroll_loop]; quota_unmet; by rewrite Hls]);
    rewrite (scroll_loop_round _ _ _ _ _ _ ls) by done;
    pose proof (for_listings_finishes num total ls st) as Hfin;
    (destruct (for_listings num total ls st) as [[u | e |] st1];
      [| done | done]); cbn [after].
  - rewrite Nat.add_0_r in Hend. rewrite Hend.
    by destruct (mouse_wheel (view k)).
  - destruct (mouse_wheel (view k)); [| done].
    destruct (end_of_list_visible (view k)) as [[|] | e]; [done | | done].
    apply IH; [lia |]. by replace (S k + n)%nat with (k + S n)%nat by lia.
Qed.

Lemma search_loop_finishes num total fuel ty script :
  (∀ j st, (scroll_loop num total fuel (pages (script j)) 0 st).1 ≠ Unfinished) →
  ∀ n j st,
    (length (cities_states_copy st) ≤ n)%nat →
    (search_loop num total fuel n ty script j st).1 ≠ Unfinished.
Proof.
  intros Hscroll. induction n as [| n IH]; intros j st Hlen;
    cbn [search_loop].
  - destruct (cities_states_copy st) eqn:Hpool; [| simpl in Hlen; lia].
    rewrite bool_decide_true by done. by rewrite andb_false_r.
  - destruct (_ && _); [| done].
    destruct (draw _ _) as [[loc rest] | e] eqn:Hdraw; [| done].
    assert (Hrest : (length rest ≤ n)%nat).
    { apply draw_inv, Permutation_length in Hdraw. simpl in Hdraw. lia. }
    destruct (search (script j)) as [u | e].
    2: { destruct e; try done. by apply IH. }
    destruct (anchor_count (script j)) as [count | e]; [| done].
    destruct (count =? 0); [by apply IH |].
    pose proof (Hscroll j (show (Searching ty loc) (set_pool rest st)))
      as Hstop.
    destruct (scroll_loop_frame num total (pages (script j)) fuel 0%nat
                (show (Searching ty loc) (set_pool rest st))) as (Hpool & _).
    destruct (scroll_loop _ _ _ _ _ _) as [[u' | e |] st2];
      cbn [after fst snd] in *; [| done | done].
    apply IH. by rewrite Hpool.
Qed.

Lemma for_business_types_finishes num total cs fuel world types :
  (∀ c j st,
     (scroll_loop num total fuel (pages (world c j)) 0 st).1 ≠ Unfinished) →
  ∀ c st,
    (for_business_types num total cs fuel world c types st).1 ≠ Unfinished.
Proof.
  intros Hscroll. induction types as [| ty rest IH]; intros c st;
    cbn [for_business_types]; [done |].
  unfold category.
  pose proof (search_loop_finishes num total fuel ty (world c) (Hscroll c)
                (length cs) 0%nat (enter_category cs ty st)
                (Nat.le_refl _)) as Hsearch.
  destruct (search_loop _ _ _ _ _ _ _ _) as [[u | e |] st1];
    cbn [after fst] in *; [| done | done].
  unfold flush. destruct (business_list (the_list st1)); [apply IH |].
  destruct (save_to_csv _ _ _ _); [apply IH | done].
Qed.

(** X12. When every call of the driver returns, apart from searches that
    time out in the block that catches it, the disk lets the results file
    be written, and every list of results shows its end within the rounds
    allowed, [scrape_businesses] returns, and the table it returns
    is empty. *)
Theorem run_returns_when_every_list_ends
    (selected_business_types : list string) (num_listings : Z)
    (headless : bool) (cities_states : list Location) (world : World)
    (disk : gmap string node) (fuel : nat) :
  (∀ c j, steady_search (world c j)) → writable disk →
  (∀ c j, ∃ n, (n < fuel)%nat
               ∧ end_of_list_visible (pages (world c j) n) = Ok true) →
  (scrape_businesses selected_business_types num_listings headless
     cities_states world disk fuel).1
  = Returned {| columns := []; rows := [] |}.
Proof.
  intros Hworld Hdisk Hends.
  set (total := Z.of_nat (length selected_business_types) * num_listings).
  pose proof (for_business_types_steady num_listings total
                cities_states fuel world selected_business_types Hworld
                0%nat (initial_state disk)) as Hno.
  pose proof (for_business_types_empties num_listings total
                cities_states fuel world selected_business_types
                0%nat (initial_state disk)) as Hempty.
  assert (Hfin : (for_business_types num_listings total cities_states fuel
                    world 0 selected_business_types (initial_state disk)).1
                 ≠ Unfinished).
  { apply for_business_types_finishes. intros c j st.
    destruct (Hends c j) as (n & Hn & Hend).
    by apply (scroll_loop_stops_by _ _ _ n). }
  unfold scrape_businesses. fold total.
  destruct (for_business_types _ _ _ _ _ _ _ _) as [[u | e' |] st];
    cbn [after fst snd] in *.
  - unfold dataframe. by rewrite (Hempty u st eq_refl eq_refl).
  - by destruct (Hno e' Hdisk eq_refl).
  - done.
Qed.

(** One listing per search and the end of the list after two rounds: the
    quota of two is not met, both locations are searched, and the run
    returns. *)
Lemma run_returns_when_every_list_ends_witness :
  (∀ c j, steady_search (Samples.ending_world c j))
  ∧ writable ∅
  ∧ (∀ c j, ∃ n, (n < 2)%nat
                 ∧ end_of_list_visible (pages (Samples.ending_world c j) n)
                   = Ok true)
  ∧ (scrape_businesses ["Gyms"] 2 true Samples.texas Samples.ending_world ∅ 2).1
    = Returned {| columns := []; rows := [] |}.
Proof.
  assert (Hlisting : ∀ l a w p, answering (Samples.listing_of l a w p)).
  { intros l a w p. repeat split; try (by eexists).
    eexists. split; [reflexivity |]. simpl. lia. }
  assert (Hworld : ∀ c j, steady_search (Samples.ending_world c j)).
  { intros c j. right. split; [by eexists |]. split; [by eexists |].
    intros k. split; [| split; by eexists].
    eexists. split; [reflexivity |]. repeat constructor; apply Hlisting. }
  assert (Hdisk : writable (∅ : gmap string node)) by (split; by left).
  assert (Hends : ∀ c j : nat, ∃ n, (n < 2)%nat
                    ∧ end_of_list_visible (pages (Samples.ending_world c j) n)
                      = Ok true).
  { intros c j. exists 1%nat. split; [lia | reflexivity]. }
  split; [exact Hworld |]. split; [exact Hdisk |]. split; [exact Hends |].
  exact (run_returns_when_every_list_ends ["Gyms"] 2 true Samples.texas
           Samples.ending_world ∅ 2 Hworld Hdisk Hends).
Defined.

(* ===================================================================== *)
(** ** The rating and the number of reviews *)
(* ===================================================================== *)

Lemma digit_not_separator c :
  is_digit c = true → eqc "," c = false ∧ c ≠ ","%char ∧ c ≠ "."%char.
Proof.
  destruct c as [[] [] [] [] [] [] [] []]; vm_compute; intros H;
    first [discriminate H | done].
Qed.

Lemma substituted_app c new a b :
  substituted c new (a ++ b) = substituted c new a ++ substituted c new b.
Proof.
  induction a as [| x a IH]; [done |]. cbn [app substituted].
  by rewrite IH, app_assoc.
Qed.

Lemma substituted_absent c new s :
  Forall (λ x, eqc c x = false) s → substituted c new s = s.
Proof.
  induction 1 as [| x s Hx _ IH]; [done |]. cbn [substituted].
  by rewrite Hx, IH.
Qed.

Lemma substituted_digits new d :
  Forall (λ c, is_digit c = true) d → substituted "," new d = d.
Proof.
  intros Hd. apply substituted_absent. eapply Forall_impl; [exact Hd |].
  intros x Hx. by destruct (digit_not_separator x Hx) as (-> & _).
Qed.

Lemma substituted_no_digit c new s :
  Forall (λ x, is_digit x = false) new → Forall (λ x, is_digit x = false) s →
  Forall (λ x, is_digit x = false) (substituted c new s).
Proof.
  intros Hnew. induction 1 as [| x s Hx _ IH]; [constructor |].
  cbn [substituted]. apply Forall_app. split; [| done].
  destruct (eqc c x); [done | by constructor].
Qed.

Lemma substituted_cut c new : ∀ s r,
  drop (length (until c s)) s = c :: r →
  substituted c new s = until c s ++ new ++ substituted c new r.
Proof.
  induction s as [| x s IH]; intros r; [done |].
  cbn [until substituted]. destruct (eqc c x) eqn:Hcx.
  - cbn. by intros [= _ ->].
  - cbn. intros Hr. by rewrite (IH r Hr).
Qed.

(** [replace] of a character is the replacement of each occurrence. *)
Lemma replace_char c new s : replace [c] new s = substituted c new s.
Proof.
  unfold replace.
  assert (Hall : ∀ n s, (length s ≤ n)%nat →
            replace_rounds n [c] new s = substituted c new s).
  { clear s. induction n as [| n IH]; intros s Hlen.
    - destruct s; [done | simpl in Hlen; lia].
    - cbn [replace_rounds]. pose proof (find_char c s) as Hfind.
      destruct (find [c] s) as [i |] eqn:Hf.
      + destruct Hfind as [Htake [r Hr]].
        apply find_Some_starts in Hf as [_ Hi].
        assert (Hlen_until : length (until c s) = i).
        { rewrite <- Htake, length_take. lia. }
        rewrite (substituted_cut c new s r) by (by rewrite Hlen_until).
        rewrite Htake. do 2 f_equal.
        assert (Hdrop : drop (i + length [c]) s = r).
        { cbn [length]. rewrite <- drop_drop, Hr. done. }
        rewrite Hdrop. apply IH.
        apply (f_equal length) in Hr. rewrite length_drop in Hr.
        simpl in Hr. lia.
      + destruct Hfind as [_ Hnot]. symmetry. apply substituted_absent.
        apply Forall_forall. intros x Hx. apply eqc_false. by intros ->. }
  by apply Hall.
Qed.

Lemma re_digits_app d rest :
  digits d → no_digit_next rest → re_digits (d ++ rest) = Some (d, rest).
Proof.
  intros [Hne Hd] Hrest. unfold re_digits.
  rewrite span_digits_app by done. by destruct d.
Qed.

Lemma re_digits_fails s : no_digit_next s → re_digits s = None.
Proof.
  destruct s as [| c s]; [done |]. cbn. unfold re_digits. cbn [span_digits].
  by intros ->.
Qed.

Lemma re_search_number_skip pre s :
  Forall (λ c, is_digit c = false) pre →
  re_search_number (pre ++ s) = re_search_number s.
Proof.
  induction 1 as [| c pre Hc _ IH]; [done |].
  cbn [app re_search_number]. unfold re_number_at, re_decimal.
  by rewrite (re_digits_fails (c :: pre ++ s)).
Qed.

Lemma re_search_digits_skip pre s :
  Forall (λ c, is_digit c = false) pre →
  re_search_digits (pre ++ s) = re_search_digits s.
Proof.
  induction 1 as [| c pre Hc _ IH]; [done |].
  cbn [app re_search_digits].
  by rewrite (re_digits_fails (c :: pre ++ s)).
Qed.

Lemma re_search_number_here s m :
  re_number_at s = Some m → re_search_number s = Some m.
Proof. intros H. destruct s; cbn [re_search_number]; by rewrite H. Qed.

Lemma re_search_digits_here s d r :
  re_digits s = Some (d, r) → re_search_digits s = Some d.
Proof. intros H. destruct s; cbn [re_search_digits]; by rewrite H. Qed.

Lemma re_number_at_decimal d1 d2 rest :
  digits d1 → digits d2 → no_digit_next rest →
  re_number_at (d1 ++ "."%char :: d2 ++ rest) = Some (d1 ++ "."%char :: d2).
Proof.
  intros H1 H2 Hrest. unfold re_number_at, re_decimal.
  rewrite (re_digits_app d1 ("."%char :: d2 ++ rest)) by done.
  cbn. by rewrite (re_digits_app d2 rest).
Qed.

Lemma re_number_at_whole d rest :
  digits d →
  match rest with
  | c :: r => is_digit c = false ∧ (c = "."%char → no_digit_next r)
  | [] => True
  end →
  re_number_at (d ++ rest) = Some d.
Proof.
  intros Hd Hrest. unfold re_number_at, re_decimal.
  assert (Hnext : no_digit_next rest) by (destruct rest; [done | tauto]).
  rewrite (re_digits_app d rest) by done. cbn.
  destruct rest as [| c r]; [done |]. destruct Hrest as [_ Hpoint].
  destruct (eqc c ".") eqn:Hc; [| done].
  apply eqc_true in Hc. by rewrite (re_digits_fails r (Hpoint Hc)).
Qed.

Lemma substituted_point_next r :
  no_digit_next r → no_digit_next (substituted "," (of_string ".") r).
Proof.
  destruct r as [| x r]; [done |]. cbn [substituted no_digit_next].
  by destruct (eqc "," x).
Qed.

Lemma truthy_to_string l : l ≠ [] → truthy (Some (to_string l)) = true.
Proof. by destruct l. Qed.

(** The rating of a label with a decimal number. *)
Lemma reviews_average_decimal pre d1 sep d2 rest :
  Forall (λ c, is_digit c = false) pre → digits d1 → digits d2 →
  sep = ","%char ∨ sep = "."%char → no_digit_next rest →
  reviews_average_of (Some (to_string (pre ++ d1 ++ sep :: d2 ++ rest)))
  = Ok (Fdec false (digits_value (d1 ++ d2)) (- Z.of_nat (length d2))).
Proof.
  intros Hpre H1 H2 Hsep Hrest. unfold reviews_average_of.
  rewrite truthy_to_string.
  2:{ intros H. apply app_eq_nil in H as [_ H]. apply app_eq_nil in H as [H _].
      by destruct H1. }
  cbn [from_option id]. rewrite of_to_string.
  change (of_string ",") with [","%char]. rewrite replace_char.
  rewrite !substituted_app.
  change (sep :: d2 ++ rest) with ([sep] ++ d2 ++ rest).
  rewrite !substituted_app.
  rewrite (substituted_digits _ d1) by apply H1.
  rewrite (substituted_digits _ d2) by apply H2.
  assert (Hs : substituted "," (of_string ".") [sep] = ["."%char])
    by (by destruct Hsep as [-> | ->]).
  rewrite Hs. cbn [app].
  rewrite re_search_number_skip
    by (apply substituted_no_digit; [by repeat constructor | done]).
  rewrite (re_search_number_here _ (d1 ++ "."%char :: d2)).
  2:{ apply re_number_at_decimal; [done | done |].
      by apply substituted_point_next. }
  unfold float_of.
  rewrite (float_of_digits d1 d2 (d1 ++ "."%char :: d2)
             (proj1 H1) (proj2 H1) (proj2 H2)); [done |].
  right. split; [done | apply H2].
Qed.

(** The rating of a label with a whole number. *)
Lemma reviews_average_whole pre d rest :
  Forall (λ c, is_digit c = false) pre → digits d → whole_number_next rest →
  reviews_average_of (Some (to_string (pre ++ d ++ rest)))
  = Ok (Fdec false (digits_value d) 0).
Proof.
  intros Hpre Hd Hrest. unfold reviews_average_of.
  rewrite truthy_to_string.
  2:{ intros H. apply app_eq_nil in H as [_ H]. apply app_eq_nil in H as [H _].
      by destruct Hd. }
  cbn [from_option id]. rewrite of_to_string.
  change (of_string ",") with [","%char]. rewrite replace_char.
  rewrite !substituted_app.
  rewrite (substituted_digits _ d) by apply Hd.
  rewrite re_search_number_skip
    by (apply substituted_no_digit; [by repeat constructor | done]).
  rewrite (re_search_number_here _ d).
  2:{ apply re_number_at_whole; [done |].
      destruct rest as [| x r]; [done |]. destruct Hrest as [Hx Hr].
      cbn [substituted]. destruct (eqc "," x) eqn:Hcx; cbn [app of_string
        list_ascii_of_string].
      - split; [done |]. intros _. apply substituted_point_next.
        apply Hr. left. by apply eqc_true in Hcx.
      - split; [done |]. intros ->. apply substituted_point_next.
        apply Hr. by right. }
  unfold float_of.
  rewrite (float_of_digits d [] d (proj1 Hd) (proj2 Hd) (Forall_nil_2 _));
    [by rewrite app_nil_r | by left].
Qed.

Lemma substituted_group body :
  Forall (λ c, is_digit c = true ∨ c = ","%char) body →
  substituted "," [] body = List.filter is_digit body.
Proof.
  induction 1 as [| x body Hx _ IH]; [done |]. cbn [substituted List.filter].
  rewrite IH. destruct Hx as [Hx | ->]; [| done].
  destruct (digit_not_separator x Hx) as (-> & _). by rewrite Hx.
Qed.

Lemma filter_length_le {A} (f : A → bool) (l : list A) :
  (length (List.filter f l) ≤ length l)%nat.
Proof.
  induction l as [| x l IH]; [done |]. cbn. destruct (f x); simpl; lia.
Qed.

(** The number of reviews of a text with a group of digits and commas. *)
Lemma reviews_count_grouped pre body rest :
  Forall (λ c, is_digit c = false) pre → grouped body → group_ends rest →
  (length body ≤ 4300)%nat →
  reviews_count_of (to_string (pre ++ body ++ rest))
  = Ok (Z.of_N (digits_value (List.filter is_digit body))).
Proof.
  intros Hpre [Hhead Hbody] Hrest Hlen. unfold reviews_count_of.
  rewrite truthy_to_string.
  2:{ intros H. apply app_eq_nil in H as [_ H]. apply app_eq_nil in H as [H _].
      by rewrite H in Hhead. }
  rewrite of_to_string.
  change (of_string ",") with [","%char]. rewrite replace_char.
  rewrite !substituted_app, (substituted_group body Hbody).
  rewrite re_search_digits_skip
    by (apply substituted_no_digit; [constructor | done]).
  assert (Hd : digits (List.filter is_digit body)).
  { split.
    - destruct body as [| c body]; [done |]. cbn. by rewrite Hhead.
    - apply Forall_forall. intros x Hx. apply list_elem_of_In in Hx.
      by apply filter_In in Hx as [_ Hx]. }
  rewrite (re_search_digits_here _ (List.filter is_digit body)
             (substituted "," [] rest)).
  2:{ apply re_digits_app; [done |].
      destruct rest as [| x r]; [done |]. destruct Hrest as [Hx Hcomma].
      cbn [substituted]. apply eqc_false in Hcomma.
      rewrite (proj2 (eqc_false "," x)) by (by apply not_eq_sym, eqc_false).
      done. }
  unfold int_of_digits.
  pose proof (filter_length_le is_digit body) as Hle.
  by rewrite (proj2 (Z.ltb_ge 4300 _)) by lia.
Qed.

(** C7 on the code.  A label and a text that are read are parsed as the
    claim says: the first number of the label, with a comma or a point
    before its decimals, is the rating (["4,5 stars"] gives 4.5,
    ["5 stars"] gives 5.0), and the first group of digits and commas of
    the text, read without the commas, is the count (["1,234 reviews"]
    gives 1234); a label that is [None] or empty, an empty text, and a
    label or text without a digit leave 0.0 and 0; and these are the
    values of the record.  But when the rating image or the reviews button
    is not in the panel at all, the read raises [TimeoutError] and the
    extraction of the listing ends there: no default is taken. *)
Theorem absent_review_element_raises :
  (∀ panel,
     is_Some (address_block panel) → is_Some (authority_block panel) →
     is_Some (phone_block panel) → rating_image panel = None →
     extract_listing (view_of panel) = Raise PlaywrightTimeoutError)
  ∧ (∀ panel,
       is_Some (address_block panel) → is_Some (authority_block panel) →
       is_Some (phone_block panel) → is_Some (rating_image panel) →
       reviews_button panel = None →
       extract_listing (view_of panel) = Raise PlaywrightTimeoutError)
  ∧ (∀ panel b, extract_listing (view_of panel) = Ok b →
       ∃ label text,
         rating_image panel = Some label ∧ reviews_button panel = Some text
         ∧ reviews_average_of label = Ok (reviews_average b)
         ∧ reviews_count_of text = Ok (reviews_count b))
  ∧ reviews_average_of (Some "4,5 stars") = Ok (Fdec false 45 (-1))
  ∧ reviews_average_of (Some "5 stars") = Ok (Fdec false 5 0)
  ∧ reviews_count_of "1,234 reviews" = Ok 1234
  ∧ (∀ pre d1 sep d2 rest,
       Forall (λ c, is_digit c = false) pre → digits d1 → digits d2 →
       sep = ","%char ∨ sep = "."%char → no_digit_next rest →
       reviews_average_of (Some (to_string (pre ++ d1 ++ sep :: d2 ++ rest)))
       = Ok (Fdec false (digits_value (d1 ++ d2)) (- Z.of_nat (length d2))))
  ∧ (∀ pre d rest,
       Forall (λ c, is_digit c = false) pre → digits d →
       whole_number_next rest →
       reviews_average_of (Some (to_string (pre ++ d ++ rest)))
       = Ok (Fdec false (digits_value d) 0))
  ∧ (∀ pre body rest,
       Forall (λ c, is_digit c = false) pre → grouped body →
       group_ends rest → (length body ≤ 4300)%nat →
       reviews_count_of (to_string (pre ++ body ++ rest))
       = Ok (Z.of_N (digits_value (List.filter is_digit body))))
  ∧ reviews_average_of None = Ok float_zero
  ∧ reviews_average_of (Some EmptyString) = Ok float_zero
  ∧ reviews_count_of EmptyString = Ok 0
  ∧ (∀ label, no_digit label → reviews_average_of (Some label) = Ok float_zero)
  ∧ (∀ text, no_digit text → reviews_count_of text = Ok 0).
Proof.
  split; [| split; [| split]].
  - intros panel [a Ha] [w Hw] [p Hp] Hr.
    unfold extract_listing, view_of. run_bind. cbn.
    by rewrite Ha, Hw, Hp, Hr.
  - intros panel [a Ha] [w Hw] [p Hp] [label Hr] Hb.
    unfold extract_listing, view_of. run_bind. cbn.
    rewrite Ha, Hw, Hp, Hr. cbn.
    destruct (reviews_average_total label) as (m & e & -> & _).
    by rewrite Hb.
  - intros panel b Hb.
    apply extract_listing_reviews in Hb as (label & text & Hl & Ht & Ha & Hc).
    cbn in Hl, Ht.
    destruct (rating_image panel) as [l |]; [| done].
    destruct (reviews_button panel) as [t |]; [| done].
    injection Hl as ->. injection Ht as ->. by exists label, text.
  - split; [reflexivity |]. split; [reflexivity |]. split; [reflexivity |].
    split; [apply reviews_average_decimal |].
    split; [apply reviews_average_whole |].
    split; [apply reviews_count_grouped |].
    split; [reflexivity |]. split; [reflexivity |]. split; [reflexivity |].
    split.
    + intros label H. unfold reviews_average_of.
      destruct label as [| c label]; [done |]. cbn [truthy default].
      rewrite re_search_number_none; [done |].
      apply replace_Forall; [| exact H]. by repeat constructor.
    + intros text H. unfold reviews_count_of.
      destruct text as [| c text]; [done |]. cbn [truthy].
      rewrite re_search_digits_none; [done |].
      apply replace_Forall; [constructor | exact H].
Qed.

(** A place without reviews: the panel has no rating image. *)
Lemma absent_review_element_raises_witness :
  is_Some (address_block Samples.no_rating_panel)
  ∧ is_Some (authority_block Samples.no_rating_panel)
  ∧ is_Some (phone_block Samples.no_rating_panel)
  ∧ rating_image Samples.no_rating_panel = None
  ∧ extract_listing (view_of Samples.no_rating_panel)
    = Raise PlaywrightTimeoutError.
Proof.
  assert (Ha : is_Some (address_block Samples.no_rating_panel)) by (by eexists).
  assert (Hw : is_Some (authority_block Samples.no_rating_panel))
    by (by eexists).
  assert (Hp : is_Some (phone_block Samples.no_rating_panel)) by (by eexists).
  split; [exact Ha |]. split; [exact Hw |]. split; [exact Hp |].
  split; [reflexivity |].
  exact (proj1 absent_review_element_raises Samples.no_rating_panel
           Ha Hw Hp eq_refl).
Defined.

(** The whole run ends there. *)
Lemma missing_rating_aborts_run :
  (scrape_businesses ["Gyms"; "Salons"] 2 true Samples.texas
     Samples.no_rating_world ∅ 1).1 = Raised PlaywrightTimeoutError.
Proof. vm_compute. reflexivity. Qed.
